(** * ai-stock-simulator: the dashboard script [site/app.js]

    A shallow embedding of the dashboard's client script and the properties
    of its normalisation-and-render pipeline.

    The script is JavaScript, so the first part of this file is a small
    model of the language's values and built-ins that the script calls
    (property access, the [??] and [||] operators, [Number], [String],
    [isFinite], string and array methods, number formatting).  The second
    part embeds the script function by function, keeping its names.  The
    third part states and proves the properties.

    Conventions.
    - A JavaScript number is an IEEE-754 binary64 value: Rocq's primitive
      [float], with the same arithmetic.
    - A JavaScript string is a Rocq [string] holding its UTF-8 bytes; two
      strings compare as their UTF-16 code units do.
    - What the engine and the browser decide is a parameter, the [Host]:
      the upper case of a text that is not plain ASCII, the text of a number
      in the browser's locale, and the number of arguments a call takes.
    - An exception is a [Throw] result; code that mutates the page or the
      global [state] runs in a state-and-exception monad in which the writes
      made before a throw persist, as they do in JavaScript. *)

From Stdlib Require Import ZArith List String Ascii Bool Lia.
From Stdlib Require Import Floats DecimalString Permutation Sorted.
Import ListNotations.

Local Open Scope string_scope.
Local Open Scope Z_scope.
#[local] Set Warnings "-register-all".

(** * Part 1: the JavaScript substrate *)

Module JS.

(** ** Completion records: a normal result or a thrown exception *)

Inductive error : Type :=
| TypeError (message : string)
| RangeError (message : string).

Definition message (e : error) : string :=
  match e with TypeError m | RangeError m => m end.

Inductive result (A : Type) : Type :=
| Ok (a : A)
| Throw (e : error).
Arguments Ok {A} a.
Arguments Throw {A} e.

Definition rbind {A B} (r : result A) (k : A -> result B) : result B :=
  match r with
  | Ok a => k a
  | Throw e => Throw e
  end.

Declare Scope js_scope.
Delimit Scope js_scope with js.
Notation "x <- r ;; k" := (rbind r (fun x => k))
  (at level 61, r at next level, right associativity) : js_scope.
Local Open Scope js_scope.

Definition is_ok {A} (r : result A) : bool :=
  match r with Ok _ => true | Throw _ => false end.

(** [map] with a callback that may throw: stops at the first exception. *)
Fixpoint mapM {A B} (f : A -> result B) (l : list A) : result (list B) :=
  match l with
  | [] => Ok []
  | x :: xs => y <- f x ;; ys <- mapM f xs ;; Ok (y :: ys)
  end.

(** [filter] with a predicate that may throw. *)
Fixpoint filterM {A} (p : A -> result bool) (l : list A) : result (list A) :=
  match l with
  | [] => Ok []
  | x :: xs => b <- p x ;; ys <- filterM p xs ;; Ok (if b then x :: ys else ys)
  end.

(** ** The host

    What the script leaves to the engine and the browser it runs in, and
    the source does not fix: Unicode's case mapping of a text that is not
    plain ASCII, the formatting of a number in the browser's locale, and
    how many arguments one call may take. *)
Class Host : Type := {
  (** [String.prototype.toUpperCase] on a text with a character outside
      ASCII. *)
  upper_unicode : string -> string;
  (** [Number.prototype.toLocaleString] without arguments. *)
  toLocaleString : float -> string;
  (** The most arguments a call can spread; a longer spread throws. *)
  argument_limit : Z;
}.

(** ** Strings *)

Definition chars (s : string) : list ascii := list_ascii_of_string s.
Definition str (l : list ascii) : string := string_of_list_ascii l.
Definition code (c : ascii) : Z := Z.of_N (N_of_ascii c).
Definition chr (z : Z) : ascii := ascii_of_N (Z.to_N z).

Fixpoint is_prefix (p l : list ascii) : bool :=
  match p, l with
  | [], _ => true
  | _ :: _, [] => false
  | a :: p', b :: l' => Ascii.eqb a b && is_prefix p' l'
  end.

(** [String.prototype.includes]: [needle] occurs in [hay] as a substring. *)
Fixpoint includes_chars (hay needle : list ascii) : bool :=
  is_prefix needle hay ||
  match hay with
  | [] => false
  | _ :: hay' => includes_chars hay' needle
  end.

Definition includes (hay needle : string) : bool :=
  includes_chars (chars hay) (chars needle).

(** A text of ASCII characters only. *)
Definition ascii_text (s : string) : bool :=
  forallb (fun c => code c <? 128) (chars s).

Definition upper_char (c : ascii) : ascii :=
  if (97 <=? code c) && (code c <=? 122) then chr (code c - 32) else c.

(** [String.prototype.toUpperCase]: on an ASCII text the letters a to z
    become A to Z; any other text is mapped by the host's Unicode tables. *)
Definition toUpperCase {host : Host} (s : string) : string :=
  if ascii_text s then str (List.map upper_char (chars s))
  else upper_unicode s.

(** The white space and line terminators that [trim] and [Number] strip,
    each as its UTF-8 bytes: TAB, LF, VT, FF, CR, SP, U+00A0, U+1680,
    U+2000..U+200A, U+2028, U+2029, U+202F, U+205F, U+3000, U+FEFF. *)
Definition white_space : list (list Z) :=
  [ [9]; [10]; [11]; [12]; [13]; [32]; [194; 160]; [225; 154; 128] ]
  ++ List.map (fun b => [226; 128; b])
       [128; 129; 130; 131; 132; 133; 134; 135; 136; 137; 138; 168; 169; 175]
  ++ [ [226; 129; 159]; [227; 128; 128]; [239; 187; 191] ].

Definition ws_forward : list (list ascii) :=
  List.map (List.map chr) white_space.
Definition ws_backward : list (list ascii) :=
  List.map (fun w => rev (List.map chr w)) white_space.

(** The length of the white-space sequence at the head of [l], if any. *)
Definition ws_head (table : list (list ascii)) (l : list ascii) : option nat :=
  match List.find (fun w => is_prefix w l) table with
  | Some w => Some (List.length w)
  | None => None
  end.

Fixpoint strip (table : list (list ascii)) (fuel : nat) (l : list ascii)
  : list ascii :=
  match fuel with
  | O => l
  | S fuel' =>
      match ws_head table l with
      | Some n => strip table fuel' (skipn n l)
      | None => l
      end
  end.

Definition trim_chars (l : list ascii) : list ascii :=
  let l1 := strip ws_forward (List.length l) l in
  rev (strip ws_backward (List.length l1) (rev l1)).

(** [String.prototype.trim]. *)
Definition trim (s : string) : string := str (trim_chars (chars s)).

(** [String.prototype.replaceAll] with a one-character pattern. *)
Definition replaceAll (s : string) (pat : ascii) (by_ : string) : string :=
  str (flat_map (fun c => if Ascii.eqb c pat then chars by_ else [c]) (chars s)).

(** [Array.prototype.join] on strings. *)
Fixpoint join (sep : string) (l : list string) : string :=
  match l with
  | [] => ""
  | [s] => s
  | s :: rest => s ++ sep ++ join sep rest
  end.

(** [String.prototype.split] with a one-character separator: the pieces
    between the separators, empty ones included; one empty piece for the
    empty string. *)
Fixpoint split_chars (sep : ascii) (l : list ascii) : list (list ascii) :=
  match l with
  | [] => [[]]
  | c :: l' =>
      if Ascii.eqb c sep then [] :: split_chars sep l'
      else
        match split_chars sep l' with
        | piece :: pieces => (c :: piece) :: pieces
        | [] => [[c]]
        end
  end.

Definition split (s : string) (sep : ascii) : list string :=
  List.map str (split_chars sep (chars s)).






(** The order of [<] on two strings is lexicographic on their UTF-16 code
    units.  On the UTF-8 bytes of two texts the first byte that differs
    decides, and the order of bytes is the order of code units but for one
    case: a character of U+E000..U+FFFF (lead byte EE or EF) is above every
    character beyond U+FFFF (lead byte F0 to F4), whose first code unit is
    a surrogate, D800..DBFF.  [unit_rank] puts the bytes in that order. *)
Definition unit_rank (c : ascii) : Z :=
  let n := code c in
  if (238 <=? n) && (n <=? 239) then n + 16
  else if 240 <=? n then n - 2
  else n.

Fixpoint lt_chars (a b : list ascii) : bool :=
  match a, b with
  | _, [] => false
  | [], _ :: _ => true
  | x :: a', y :: b' =>
      if unit_rank x <? unit_rank y then true
      else if unit_rank y <? unit_rank x then false
      else lt_chars a' b'
  end.

Definition string_lt (a b : string) : bool := lt_chars (chars a) (chars b).

(** ** Numbers *)

Definition number := float.
Bind Scope float_scope with number.

(** The exact value of a finite non-zero number is [m * 2^e]; as a fraction
    of two positive integers. *)
Definition fraction_of (m : positive) (e : Z) : Z * Z :=
  if 0 <=? e then (Z.pos m * 2 ^ e, 1) else (Z.pos m, 2 ^ (- e)).

(** The number nearest to [p / q] ([0 <= p], [0 < q]), ties to even: the
    quotient is taken with at least 55 significant bits and a sticky bit,
    and rounded once. *)
Definition number_of_fraction (neg : bool) (p q : Z) : number :=
  if p =? 0 then (if neg then neg_zero else zero)
  else
    let t := Z.max 0 (56 + Z.log2 q - Z.log2 p) in
    let n := p * 2 ^ t in
    let m := 2 * (n / q) + (if n mod q =? 0 then 0 else 1) in
    SF2Prim (binary_normalize prec emax (if neg then - m else m) (- t - 1) false).

(** The number for the decimal [digits * 10^exp]. *)
Definition number_of_decimal (neg : bool) (digits exp : Z) : number :=
  if 0 <=? exp then number_of_fraction neg (digits * 10 ^ exp) 1
  else number_of_fraction neg digits (10 ^ (- exp)).

Definition number_of_Z (z : Z) : number :=
  number_of_fraction (z <? 0) (Z.abs z) 1.

(** [isFinite] and [Number.isNaN] on a number. *)
Definition isFinite_number (x : number) : bool := is_finite x.
Definition isNaN_number (x : number) : bool := is_nan x.

(** *** [Number] applied to a string (StringToNumber) *)

Definition is_digit (c : ascii) : bool := (48 <=? code c) && (code c <=? 57).

Definition digit_value (base : Z) (c : ascii) : option Z :=
  let v :=
    if (48 <=? code c) && (code c <=? 57) then code c - 48
    else if (97 <=? code c) && (code c <=? 102) then code c - 87
    else if (65 <=? code c) && (code c <=? 70) then code c - 55
    else 99 in
  if v <? base then Some v else None.

(** Reads digits of [base] off the head of [l]: the value read, how many
    digits, and the rest. *)
Fixpoint read_digits (base : Z) (l : list ascii) (acc : Z) (n : Z)
  : Z * Z * list ascii :=
  match l with
  | c :: l' =>
      match digit_value base c with
      | Some v => read_digits base l' (acc * base + v) (n + 1)
      | None => (acc, n, l)
      end
  | [] => (acc, n, l)
  end.

(** An optional sign. *)
Definition read_sign (l : list ascii) : bool * list ascii :=
  match l with
  | c :: l' =>
      if code c =? 45 then (true, l')
      else if code c =? 43 then (false, l')
      else (false, l)
  | [] => (false, l)
  end.

(** An optional exponent part [e], [e+] or [e-] with at least one digit. *)
Definition read_exponent (l : list ascii) : option (Z * list ascii) :=
  match l with
  | c :: l' =>
      if (code c =? 101) || (code c =? 69) then
        let '(neg, l1) := read_sign l' in
        let '(v, n, l2) := read_digits 10 l1 0 0 in
        if n =? 0 then None else Some (if neg then - v else v, l2)
      else Some (0, l)
  | [] => Some (0, l)
  end.

(** An unsigned decimal literal: digits, an optional fraction, an optional
    exponent, with at least one digit before the exponent. *)
Definition read_decimal (neg : bool) (l : list ascii) : number :=
  let '(ip, n1, l1) := read_digits 10 l 0 0 in
  let '(m, n2, l2) :=
    match l1 with
    | c :: l1' => if code c =? 46 then read_digits 10 l1' ip 0 else (ip, 0, l1)
    | [] => (ip, 0, l1)
    end in
  if n1 + n2 =? 0 then nan
  else
    match read_exponent l2 with
    | Some (e, []) => number_of_decimal neg m (e - n2)
    | _ => nan
    end.

(** A literal in base 2, 8 or 16 after its [0b], [0o] or [0x] prefix. *)
Definition read_radix (base : Z) (l : list ascii) : number :=
  match read_digits base l 0 0 with
  | (v, n, []) => if n =? 0 then nan else number_of_Z v
  | _ => nan
  end.

Definition StringToNumber (s : string) : number :=
  let l := trim_chars (chars s) in
  match l with
  | [] => zero
  | _ =>
      if String.eqb (str l) "Infinity" || String.eqb (str l) "+Infinity"
      then infinity
      else if String.eqb (str l) "-Infinity" then neg_infinity
      else
        match l with
        | z :: x :: l' =>
            if (code z =? 48) && ((code x =? 120) || (code x =? 88))
            then read_radix 16 l'
            else if (code z =? 48) && ((code x =? 111) || (code x =? 79))
            then read_radix 8 l'
            else if (code z =? 48) && ((code x =? 98) || (code x =? 66))
            then read_radix 2 l'
            else let '(neg, l1) := read_sign l in read_decimal neg l1
        | _ => let '(neg, l1) := read_sign l in read_decimal neg l1
        end
  end.

(** *** [String] applied to a number (Number::toString, radix 10) *)

Definition digits_of (z : Z) : string :=
  NilZero.string_of_uint (N.to_uint (Z.to_N z)).

Definition zeros (n : Z) : string := str (repeat "0"%char (Z.to_nat n)).

Definition take (n : Z) (s : string) : string := str (firstn (Z.to_nat n) (chars s)).
Definition drop (n : Z) (s : string) : string := str (skipn (Z.to_nat n) (chars s)).

Fixpoint first_scale (fuel : nat) (p q j : Z) : Z :=
  match fuel with
  | O => j
  | S fuel' => if q <=? p * 10 ^ j then j else first_scale fuel' p q (j + 1)
  end.

(** The [n] with [10^(n-1) <= p/q < 10^n]. *)
Definition decimal_exponent (p q : Z) : Z :=
  if q <=? p then Z.of_nat (String.length (digits_of (p / q)))
  else 1 - first_scale 400 p q 1.

Definition roundtrips (v : number) (s e10 : Z) : bool :=
  (number_of_decimal false s e10 =? v)%float.

(** Of two candidates [s] and [s+1] (times [10^e10]) the one nearer to
    [p/q]; the even one when they are equally near. *)
Definition nearer (p q s e10 : Z) : Z :=
  let '(a, b) :=
    if 0 <=? e10 then (2 * p, (2 * s + 1) * 10 ^ e10 * q)
    else (2 * p * 10 ^ (- e10), (2 * s + 1) * q) in
  if a <? b then s
  else if b <? a then s + 1
  else if Z.even s then s else s + 1.

(** The shortest decimal [s * 10^(n-k)], [s] of [k] digits, that reads back
    as [v = p/q]; the search starts at [k] digits and 17 always suffice. *)
Fixpoint shortest (fuel : nat) (v : number) (p q n k : Z) : Z * Z * Z :=
  match fuel with
  | O => (n, k, 0)
  | S fuel' =>
      let e10 := n - k in
      let lo := if 0 <=? e10 then p / (q * 10 ^ e10) else (p * 10 ^ (- e10)) / q in
      let ok_lo := roundtrips v lo e10 in
      let ok_hi := roundtrips v (lo + 1) e10 in
      let pick s := if s =? 10 ^ k then (n + 1, k, 10 ^ (k - 1)) else (n, k, s) in
      if ok_lo && ok_hi then pick (nearer p q lo e10)
      else if ok_lo then pick lo
      else if ok_hi then pick (lo + 1)
      else shortest fuel' v p q n (k + 1)
  end.

Definition format_digits (n k s : Z) : string :=
  let d := digits_of s in
  if (k <=? n) && (n <=? 21) then d ++ zeros (n - k)
  else if (0 <? n) && (n <=? 21) then take n d ++ "." ++ drop n d
  else if (-6 <? n) && (n <=? 0) then "0." ++ zeros (- n) ++ d
  else
    let e := n - 1 in
    let es := (if e <? 0 then "-" else "+") ++ digits_of (Z.abs e) in
    if k =? 1 then d ++ "e" ++ es
    else take 1 d ++ "." ++ drop 1 d ++ "e" ++ es.

Definition NumberToString (x : number) : string :=
  match Prim2SF x with
  | S754_nan => "NaN"
  | S754_zero _ => "0"
  | S754_infinity s => if s then "-Infinity" else "Infinity"
  | S754_finite s m e =>
      let '(p, q) := fraction_of m e in
      let '(n, k, d) := shortest 17 (abs x) p q (decimal_exponent p q) 1 in
      (if s then "-" else "") ++ format_digits n k d
  end.

(** The decimal text of [x] with [f] digits after the point: the integer
    [n] nearest to [x * 10^f], the larger one on a tie, with the point [f]
    digits from the right. *)
Definition fixed (x : number) (f : Z) : string :=
  match Prim2SF x with
  | S754_finite s m e =>
      let '(p, q) := fraction_of m e in
      if 10 ^ 21 * q <=? p then NumberToString x
      else
        let d := digits_of ((2 * p * 10 ^ f + q) / (2 * q)) in
        let len := Z.of_nat (String.length d) in
        let d := if len <=? f then zeros (f + 1 - len) ++ d else d in
        let len := Z.of_nat (String.length d) in
        (if s then "-" else "")
        ++ (if f =? 0 then d else take (len - f) d ++ "." ++ drop (len - f) d)
  | S754_zero _ => if f =? 0 then "0" else "0." ++ zeros f
  | _ => NumberToString x
  end.

(** [Number.prototype.toFixed]: a number of digits outside 0..100 throws,
    whatever the number is. *)
Definition toFixed (x : number) (f : Z) : result string :=
  if (f <? 0) || (100 <? f)
  then Throw (RangeError "toFixed() digits argument must be between 0 and 100")
  else Ok (fixed x f).

(** [Math.round]: the nearest integer, a half going up. *)
Definition Math_round (x : number) : number :=
  match Prim2SF x with
  | S754_finite s m e =>
      let '(p, q) := fraction_of m e in
      let n := if s then (q - 2 * p) / (2 * q) else (2 * p + q) / (2 * q) in
      if n =? 0 then (if s then neg_zero else zero) else number_of_Z n
  | _ => x
  end.

Fixpoint group3 (fuel : nat) (z : Z) : string :=
  match fuel with
  | O => digits_of z
  | S fuel' =>
      if z <? 1000 then digits_of z
      else
        let r := digits_of (z mod 1000) in
        group3 fuel' (z / 1000) ++ ","
        ++ zeros (3 - Z.of_nat (String.length r)) ++ r
  end.

(** [Number.prototype.toLocaleString] in the [en-US] locale, on the
    integral numbers this script passes to it: digits grouped by three. *)
Definition toLocaleString_en_US (x : number) : string :=
  match Prim2SF x with
  | S754_nan => "NaN"
  | S754_zero s => if s then "-0" else "0"
  | S754_infinity s => if s then "-∞" else "∞"
  | S754_finite s m e =>
      let '(p, q) := fraction_of m e in
      (if s then "-" else "") ++ group3 110 (p / q)
  end.

(** [Math.min] and [Math.max] of two numbers: [NaN] if either is, and
    [-0] below [+0]. *)
Definition min2 (a b : number) : number :=
  if is_nan a || is_nan b then nan
  else if (a <? b)%float then a
  else if (b <? a)%float then b
  else if get_sign a then a else b.

Definition max2 (a b : number) : number :=
  if is_nan a || is_nan b then nan
  else if (a <? b)%float then b
  else if (b <? a)%float then a
  else if get_sign a then b else a.

(** [Math.min] and [Math.max] of the arguments [l]. *)
Definition Math_min (l : list number) : number := fold_left min2 l infinity.
Definition Math_max (l : list number) : number := fold_left max2 l neg_infinity.

(** [f(...args)]: the arguments that the call receives.  Spreading more
    elements than a call can take throws before [f] runs. *)
Definition spread {host : Host} {A} (args : list A) : result (list A) :=
  if Z.of_nat (List.length args) <=? argument_limit then Ok args
  else Throw (RangeError "Maximum call stack size exceeded").

(** ** Values

    The values that [JSON.parse] produces, and [undefined].  An array or an
    object carries the identity of its allocation: [===] compares two of
    them by identity, not by content.  The properties of an object are its
    own properties after parsing (every key once). *)

Inductive value : Type :=
| Undefined
| Null
| Bool (b : bool)
| Num (x : number)
| Str (s : string)
| Arr (id : nat) (elems : list value)
| Obj (id : nat) (props : list (string * value)).

Fixpoint lookup (props : list (string * value)) (name : string) : value :=
  match props with
  | [] => Undefined
  | (k, v) :: rest => if String.eqb k name then v else lookup rest name
  end.

Definition has_own (props : list (string * value)) (name : string) : bool :=
  existsb (fun kv => String.eqb (fst kv) name) props.

(** [v.name].  Reading a property of [null] or [undefined] throws; a
    primitive or an array has none of the property names this script reads
    from a raw record, and neither has [Object.prototype]. *)
Definition get (v : value) (name : string) : result value :=
  match v with
  | Undefined =>
      Throw (TypeError ("Cannot read properties of undefined (reading '"
                        ++ name ++ "')"))
  | Null =>
      Throw (TypeError ("Cannot read properties of null (reading '"
                        ++ name ++ "')"))
  | Obj _ props => Ok (lookup props name)
  | _ => Ok Undefined
  end.

Definition nullish (v : value) : bool :=
  match v with Undefined | Null => true | _ => false end.

(** [v?.name]: [undefined] when [v] is [null] or [undefined]. *)
Definition get_optional (v : value) (name : string) : result value :=
  if nullish v then Ok Undefined else get v name.

(** [a ?? b]. *)
Definition coalesce (a b : value) : value := if nullish a then b else a.

(** [r.n1 ?? r.n2 ?? ... ?? r.nk]: the first property that is neither
    [null] nor [undefined]; the last operand when all are. *)
Fixpoint first_defined (r : value) (names : list string) : result value :=
  match names with
  | [] => Ok Undefined
  | [n] => get r n
  | n :: rest =>
      v <- get r n ;;
      if nullish v then first_defined r rest else Ok v
  end.

Definition isArray (v : value) : bool :=
  match v with Arr _ _ => true | _ => false end.

(** ToBoolean: what [if], [!], [&&], [||] and [filter] test. *)
Definition ToBoolean (v : value) : bool :=
  match v with
  | Undefined | Null => false
  | Bool b => b
  | Num x => negb (is_zero x || is_nan x)
  | Str s => negb (String.eqb s "")
  | Arr _ _ | Obj _ _ => true
  end.

(** [a || b]. *)
Definition or_else (a b : value) : value := if ToBoolean a then a else b.

(** ToString: [String(v)], a template literal's [${v}], and the conversion
    of a value stored into a text property of the page.  An array joins its
    elements with commas; a plain object prints as [[object Object]] through
    the inherited [toString], unless it has an own property of that name:
    a parsed value is never callable, and the conversion throws. *)
Fixpoint ToString (v : value) : result string :=
  match v with
  | Undefined => Ok "undefined"
  | Null => Ok "null"
  | Bool b => Ok (if b then "true" else "false")
  | Num x => Ok (NumberToString x)
  | Str s => Ok s
  | Arr _ elems =>
      parts <-
        (fix go (l : list value) : result (list string) :=
           match l with
           | [] => Ok []
           | e :: l' =>
               s <- (if nullish e then Ok "" else ToString e) ;;
               r <- go l' ;;
               Ok (s :: r)
           end) elems ;;
      Ok (join "," parts)
  | Obj _ props =>
      if has_own props "toString"
      then Throw (TypeError "Cannot convert object to primitive value")
      else Ok "[object Object]"
  end.

(** ToPrimitive: an array or object becomes its string. *)
Definition ToPrimitive (v : value) : result value :=
  match v with
  | Arr _ _ | Obj _ _ => s <- ToString v ;; Ok (Str s)
  | _ => Ok v
  end.

(** ToNumber: [Number(v)]. *)
Definition ToNumber (v : value) : result number :=
  p <- ToPrimitive v ;;
  Ok match p with
     | Null => zero
     | Bool b => if b then one else zero
     | Num x => x
     | Str s => StringToNumber s
     | _ => nan
     end.

(** The global [isFinite(v)], which converts its argument first. *)
Definition isFinite (v : value) : result bool :=
  x <- ToNumber v ;; Ok (is_finite x).

(** [a === b]. *)
Definition strict_equals (a b : value) : bool :=
  match a, b with
  | Undefined, Undefined => true
  | Null, Null => true
  | Bool x, Bool y => Bool.eqb x y
  | Num x, Num y => (x =? y)%float
  | Str x, Str y => String.eqb x y
  | Arr i _, Arr j _ => Nat.eqb i j
  | Obj i _, Obj j _ => Nat.eqb i j
  | _, _ => false
  end.

(** [a > b]: both operands to primitives, the left one first; two strings
    compare by code units, anything else as numbers. *)
Definition greater_than (a b : value) : result bool :=
  pa <- ToPrimitive a ;;
  pb <- ToPrimitive b ;;
  match pa, pb with
  | Str x, Str y => Ok (string_lt y x)
  | _, _ =>
      x <- ToNumber pa ;;
      y <- ToNumber pb ;;
      Ok (y <? x)%float
  end.

(** [Array.prototype.join] on values: [null] and [undefined] print as
    nothing. *)
Definition Array_join (sep : string) (l : list value) : result string :=
  parts <- mapM (fun e => if nullish e then Ok "" else ToString e) l ;;
  Ok (join sep parts).

(** ** [Set]

    A set keeps its members in insertion order; membership is by
    SameValueZero: [===], except that [NaN] is itself. *)
Definition same_value_zero (a b : value) : bool :=
  strict_equals a b
  || match a, b with
     | Num x, Num y => is_nan x && is_nan y
     | _, _ => false
     end.

Definition Set_add (s : list value) (v : value) : list value :=
  if existsb (same_value_zero v) s then s else s ++ [v].

Definition new_Set (l : list value) : list value := fold_left Set_add l [].

(** ** [Array.prototype.sort]

    The comparator's result is a number; negative puts its first argument
    before the second, and [NaN] counts as zero.  The order in which the
    elements are compared is the engine's: this is V8's for an array of
    fewer than 64 elements (the run at the front of the array is found and
    reversed when it descends, then each further element is inserted by
    binary search), applied here to arrays of every length.  With a
    consistent comparator every engine returns the same array. *)

Section Sort.
Context {A : Type} (comparefn : A -> A -> result number).

Definition before (x y : A) : result bool :=
  v <- comparefn x y ;; Ok (v <? zero)%float.

(** Extends the run that ends in [prev]; [acc] holds it in reverse.
    Returns the reversed run and the elements after it. *)
Fixpoint extend_run (descending : bool) (prev : A) (l acc : list A)
  : result (list A * list A) :=
  match l with
  | [] => Ok (acc, [])
  | x :: l' =>
      lt <- before x prev ;;
      if Bool.eqb lt descending
      then extend_run descending x l' (x :: acc)
      else Ok (acc, l)
  end.

(** Binary search for the place of [pivot] in [sorted] between [left] and
    [right]. *)
Fixpoint search (fuel : nat) (pivot : A) (sorted : list A)
         (left right : nat) : result nat :=
  match fuel with
  | O => Ok left
  | S fuel' =>
      if (left <? right)%nat then
        let mid := (left + Nat.div2 (right - left))%nat in
        match nth_error sorted mid with
        | Some m =>
            lt <- before pivot m ;;
            if lt then search fuel' pivot sorted left mid
            else search fuel' pivot sorted (S mid) right
        | None => Ok left
        end
      else Ok left
  end.

Fixpoint insert_all (sorted rest : list A) : result (list A) :=
  match rest with
  | [] => Ok sorted
  | pivot :: rest' =>
      i <- search (S (List.length sorted)) pivot sorted 0 (List.length sorted) ;;
      insert_all (firstn i sorted ++ pivot :: skipn i sorted) rest'
  end.

Definition sort (l : list A) : result (list A) :=
  match l with
  | a :: b :: rest =>
      descending <- before b a ;;
      run <- extend_run descending b rest [b; a] ;;
      insert_all (if descending then fst run else rev (fst run)) (snd run)
  | _ => Ok l
  end.
End Sort.

(** The comparator of [sort()] called without one: by the strings of the
    elements. *)
Definition default_compare (x y : value) : result number :=
  xs <- ToString x ;;
  ys <- ToString y ;;
  Ok (if string_lt xs ys then (- one)%float
      else if string_lt ys xs then one else zero).

End JS.

(** * Part 2: the script *)

Import JS.
Local Open Scope js_scope.

(** ** Canonical records *)

(** What [normalizePriceRow] returns.  A numeric field is a number or
    [null] ([None]); [series] is an array or [null]. *)
Record PriceRow : Type := {
  ticker : value;
  company : value;
  sector : value;
  last : option number;
  prev : option number;
  chg : option number;
  pctChg : option number;
  volume : option number;
  timestamp : value;
  regime : value;
  macro_headline : value;
  series : option (list value);
  raw : value;
}.

(** What [normalizeNewsRow] returns. *)
Module News.
Record row : Type := {
  ticker : value;
  company : value;
  headline : value;
  timestamp : value;
  eventType : value;
  sentiment : value;
  regime : value;
  raw : value;
}.
End News.

(** What [normalizeLeaderRow] returns: the numbers may be [NaN]. *)
Module Leader.
Record row : Type := {
  team : value;
  nav : number;
  cash : number;
  realized_pnl : number;
}.
End Leader.

(** The global [state]; [sectors] is a [Set], kept in insertion order. *)
Record State : Type := {
  prices : list PriceRow;
  news : list News.row;
  leaderboard : list Leader.row;
  sectors : list value;
  selected : option PriceRow;
}.

Definition initial_state : State :=
  {| prices := []; news := []; leaderboard := []; sectors := [];
     selected := None |}.

(** ** The page

    The document is a store from element ids to elements; the script
    reaches it through [el(id)] only.  An element keeps the text properties
    the script reads and writes, and the nodes appended to it.  A table is
    identified with its [tbody]. *)

Record Node : Type := {
  tag : string;
  attributes : list (string * string);
  content : string;
  onclick : option value;
}.

Record Element : Type := {
  el_value : string;
  el_textContent : string;
  el_className : string;
  el_innerHTML : string;
  el_children : list Node;
  el_hidden : bool;
}.

Definition empty_element : Element :=
  {| el_value := ""; el_textContent := ""; el_className := "";
     el_innerHTML := ""; el_children := []; el_hidden := false |}.

Definition Dom : Type := list (string * Element).

Fixpoint find_element (d : Dom) (id : string) : option Element :=
  match d with
  | [] => None
  | (k, e) :: rest => if String.eqb k id then Some e else find_element rest id
  end.

Fixpoint replace_element (d : Dom) (id : string) (e : Element) : Dom :=
  match d with
  | [] => []
  | (k, e0) :: rest =>
      if String.eqb k id then (k, e) :: rest
      else (k, e0) :: replace_element rest id e
  end.

Definition set_value (v : string) (e : Element) : Element :=
  {| el_value := v; el_textContent := el_textContent e;
     el_className := el_className e; el_innerHTML := el_innerHTML e;
     el_children := el_children e; el_hidden := el_hidden e |}.

Definition set_textContent (v : string) (e : Element) : Element :=
  {| el_value := el_value e; el_textContent := v;
     el_className := el_className e; el_innerHTML := el_innerHTML e;
     el_children := el_children e; el_hidden := el_hidden e |}.

Definition set_className (v : string) (e : Element) : Element :=
  {| el_value := el_value e; el_textContent := el_textContent e;
     el_className := v; el_innerHTML := el_innerHTML e;
     el_children := el_children e; el_hidden := el_hidden e |}.

(** Assigning [innerHTML] replaces the element's content. *)
Definition set_innerHTML (v : string) (e : Element) : Element :=
  {| el_value := el_value e; el_textContent := el_textContent e;
     el_className := el_className e; el_innerHTML := v;
     el_children := []; el_hidden := el_hidden e |}.

Definition appendChild (n : Node) (e : Element) : Element :=
  {| el_value := el_value e; el_textContent := el_textContent e;
     el_className := el_className e; el_innerHTML := el_innerHTML e;
     el_children := el_children e ++ [n]; el_hidden := el_hidden e |}.

Definition set_hidden (v : bool) (e : Element) : Element :=
  {| el_value := el_value e; el_textContent := el_textContent e;
     el_className := el_className e; el_innerHTML := el_innerHTML e;
     el_children := el_children e; el_hidden := v |}.

(** ** The monad of the script's effects

    A computation reads and writes the global [state] and the page and
    ends normally or by throwing; what it wrote before throwing stays. *)

Record World : Type := {
  state : State;
  dom : Dom;
}.

Definition M (A : Type) : Type := World -> result A * World.

Definition ret {A} (a : A) : M A := fun w => (Ok a, w).

Definition bind {A B} (m : M A) (k : A -> M B) : M B :=
  fun w =>
    match m w with
    | (Ok a, w') => k a w'
    | (Throw e, w') => (Throw e, w')
    end.

Definition lift {A} (r : result A) : M A := fun w => (r, w).

(** [try { body } catch (e) { handler }]. *)
Definition try_catch {A} (body : M A) (handler : error -> M A) : M A :=
  fun w =>
    match body w with
    | (Ok a, w') => (Ok a, w')
    | (Throw e, w') => handler e w'
    end.

Declare Scope script_scope.
Delimit Scope script_scope with script.
Notation "x <- m ;; k" := (bind m (fun x => k))
  (at level 61, m at next level, right associativity) : script_scope.
Notation "m ;; k" := (bind m (fun _ => k))
  (at level 61, right associativity) : script_scope.

Definition get_state : M State := fun w => (Ok (state w), w).

Definition put_state (s : State) : M unit :=
  fun w => (Ok tt, {| state := s; dom := dom w |}).

(** [for (const x of l) body(x)]. *)
Fixpoint for_of {A} (l : list A) (body : A -> M unit) : M unit :=
  match l with
  | [] => ret tt
  | x :: rest => bind (body x) (fun _ => for_of rest body)
  end.

(** Reading property [prop] of [el(id)]; [el] returns [null] for an id the
    page lacks, and the read throws. *)
Definition read {A} (id prop : string) (f : Element -> A) : M A :=
  fun w =>
    match find_element (dom w) id with
    | Some e => (Ok (f e), w)
    | None =>
        (Throw (TypeError ("Cannot read properties of null (reading '"
                           ++ prop ++ "')")), w)
    end.

(** Writing property [prop] of [el(id)]. *)
Definition write (id prop : string) (f : Element -> Element) : M unit :=
  fun w =>
    match find_element (dom w) id with
    | Some e =>
        (Ok tt, {| state := state w; dom := replace_element (dom w) id (f e) |})
    | None =>
        (Throw (TypeError ("Cannot set properties of null (setting '"
                           ++ prop ++ "')")), w)
    end.

(** A value stored into [textContent]: its string, and nothing for [null]
    or [undefined]. *)
Definition text_of (v : value) : result string :=
  if nullish v then Ok "" else ToString v.

(** [el(id).prop = v] for a value [v] that the property converts to its
    text: the element is looked up first, and the value converted by the
    assignment. *)
Definition write_text (id prop : string) (text : result string)
           (f : string -> Element -> Element) : M unit :=
  fun w =>
    match find_element (dom w) id with
    | Some e =>
        match text with
        | Ok t =>
            (Ok tt, {| state := state w;
                       dom := replace_element (dom w) id (f t e) |})
        | Throw err => (Throw err, w)
        end
    | None =>
        (Throw (TypeError ("Cannot set properties of null (setting '"
                           ++ prop ++ "')")), w)
    end.

(** ** Formatting helpers *)

Section Script.

(** The script runs on a host. *)
Context {host : Host}.

(** The double quote and the line feed, for building markup. *)
Definition dq : string := String "034" "".
Definition nl : string := String "010" "".

(** [Number(x)] is written twice in the source and evaluated once here:
    the conversion has no effect on the value. *)
Definition fmtNum (x : value) (digits : Z) : result string :=
  if strict_equals x Null || strict_equals x Undefined then Ok "—"
  else
    n <- ToNumber x ;;
    if is_nan n then Ok "—" else toFixed n digits.

Definition fmtInt (x : value) : result string :=
  if strict_equals x Null || strict_equals x Undefined then Ok "—"
  else
    n <- ToNumber x ;;
    if is_nan n then Ok "—" else Ok (toLocaleString (Math_round n)).

(** [pct(a, b)]: [null] unless both convert to finite numbers and [b] is
    not the number zero. *)
Definition pct (a b : value) : result (option number) :=
  fa <- isFinite a ;;
  if negb fa then Ok None
  else
    fb <- isFinite b ;;
    if negb fb || strict_equals b (Num zero) then Ok None
    else
      x <- ToNumber a ;;
      y <- ToNumber b ;;
      Ok (Some ((x / y) * 100)%float).

Definition escapeHtml (s : value) : result string :=
  t <- ToString (coalesce s (Str "")) ;;
  Ok (replaceAll
        (replaceAll
           (replaceAll
              (replaceAll (replaceAll t "&" "&amp;") "<" "&lt;")
              ">" "&gt;")
           "034" "&quot;")
        "'" "&#039;").

(** ** Normalising snapshots *)

Definition elements (v : value) : list value :=
  match v with Arr _ l => l | _ => [] end.

(** [obj && Array.isArray(obj.key)]. *)
Definition wraps (obj : value) (key : string) : result bool :=
  if ToBoolean obj then v <- get obj key ;; Ok (isArray v) else Ok false.

Definition asArray (obj : value) : result (list value) :=
  if isArray obj then Ok (elements obj)
  else
    d <- wraps obj "data" ;;
    if d then v <- get obj "data" ;; Ok (elements v)
    else
      r <- wraps obj "rows" ;;
      if r then v <- get obj "rows" ;; Ok (elements v)
      else
        i <- wraps obj "items" ;;
        if i then v <- get obj "items" ;; Ok (elements v)
        else Ok [].

(** [isFinite(r.field) ? Number(r.field) : null]. *)
Definition finite_field (r : value) (field : string) : result (option number) :=
  v <- get r field ;;
  f <- isFinite v ;;
  if f then n <- ToNumber v ;; Ok (Some n) else Ok None.

(** [isFinite(x) ? x : null] on a number. *)
Definition finite_or_null (x : number) : option number :=
  if is_finite x then Some x else None.

(** The key names tried for each field of a price row, in order. *)
Definition ticker_aliases : list string :=
  ["ticker"; "symbol"; "sym"; "Ticker"; "Symbol"].
Definition company_aliases : list string := ["company_name"; "company"; "name"].
Definition sector_aliases : list string := ["sector"; "Sector"].
Definition last_aliases : list string :=
  ["close"; "last"; "price"; "Close"; "Last"].
Definition prev_aliases : list string :=
  ["prev_close"; "previous_close"; "prev"; "PrevClose"].
Definition volume_aliases : list string := ["volume"; "vol"; "Volume"].
Definition timestamp_aliases : list string :=
  ["timestamp"; "time"; "bar_time"; "date"].

Definition normalizePriceRow (r : value) : result PriceRow :=
  ticker <- first_defined r ticker_aliases ;;
  company <- first_defined r company_aliases ;;
  sector <- first_defined r sector_aliases ;;
  last_raw <- first_defined r last_aliases ;;
  last <- ToNumber last_raw ;;
  prev_raw <- first_defined r prev_aliases ;;
  prev <- ToNumber prev_raw ;;
  volume_raw <- first_defined r volume_aliases ;;
  volume <- ToNumber volume_raw ;;
  ts <- first_defined r timestamp_aliases ;;
  chg <- (if is_finite last && is_finite prev then Ok (Some (last - prev)%float)
          else finite_field r "change") ;;
  pctChg <- match chg with
            | Some c =>
                if is_finite prev && negb (prev =? zero)%float
                then Ok (Some ((c / prev) * 100)%float)
                else finite_field r "pct_change"
            | None => finite_field r "pct_change"
            end ;;
  s <- get r "series" ;;
  series <- (if isArray s then Ok (Some (elements s))
             else
               h <- get r "history" ;;
               Ok (if isArray h then Some (elements h) else None)) ;;
  regime <- get r "regime" ;;
  macro_headline <- get r "macro_headline" ;;
  Ok {| ticker := ticker;
        company := coalesce company (Str "");
        sector := coalesce sector (Str "");
        last := finite_or_null last;
        prev := finite_or_null prev;
        chg := match chg with Some c => finite_or_null c | None => None end;
        pctChg := match pctChg with Some p => finite_or_null p | None => None end;
        volume := finite_or_null volume;
        timestamp := coalesce ts (Str "");
        regime := coalesce regime (Str "");
        macro_headline := coalesce macro_headline (Str "");
        series := series;
        raw := r |}.

Definition normalizeNewsRow (n : value) : result News.row :=
  ticker <- first_defined n ["ticker"; "symbol"] ;;
  company <- get n "company_name" ;;
  headline <- first_defined n ["headline"; "title"] ;;
  ts <- first_defined n ["timestamp"; "time"; "date"] ;;
  eventType <- first_defined n ["event_type"; "type"] ;;
  sentiment <- get n "sentiment" ;;
  regime <- get n "regime" ;;
  Ok {| News.ticker := coalesce ticker (Str "");
        News.company := coalesce company (Str "");
        News.headline := coalesce headline (Str "");
        News.timestamp := coalesce ts (Str "");
        News.eventType := coalesce eventType (Str "");
        News.sentiment := coalesce sentiment (Str "");
        News.regime := coalesce regime (Str "");
        News.raw := n |}.

Definition normalizeLeaderRow (r : value) : result Leader.row :=
  team <- first_defined r ["team"; "Team"] ;;
  nav_raw <- first_defined r ["nav"; "NAV"; "value"; "Value"] ;;
  nav <- ToNumber nav_raw ;;
  cash_raw <- first_defined r ["cash"; "Cash"] ;;
  cash <- ToNumber cash_raw ;;
  pnl_raw <- first_defined r ["realized_pnl"; "RealizedPnL"; "pnl"; "PnL"] ;;
  pnl <- ToNumber pnl_raw ;;
  Ok {| Leader.team := coalesce team (Str "");
        Leader.nav := nav;
        Leader.cash := cash;
        Leader.realized_pnl := pnl |}.

(** ** Rendering *)

Local Open Scope script_scope.

(** [name="text"], as it is written inside a tag. *)
Definition attr (name text : string) : string := name ++ "=" ++ dq ++ text ++ dq.

(** A one-cell placeholder row. *)
Definition placeholder_row (colspan text : string) : string :=
  "<tr><td " ++ attr "colspan" colspan ++ " " ++ attr "class" "muted" ++ ">"
  ++ text ++ "</td></tr>".

(** [x === null ? "—" : fmtNum(x, 2)]. *)
Definition num_cell (x : option number) : result string :=
  match x with
  | None => Ok "—"
  | Some v => fmtNum (Num v) 2
  end.

(** [x === null ? "" : (x >= 0 ? "pos" : "neg")]. *)
Definition polarity (x : option number) : string :=
  match x with
  | None => ""
  | Some v => if (zero <=? v)%float then "pos" else "neg"
  end.

(** [x === null ? "—" : `${fmtNum(x, 2)}%`]. *)
Definition pct_cell (x : option number) : result string :=
  match x with
  | None => Ok "—"
  | Some v => (s <- fmtNum (Num v) 2 ;; Ok (s ++ "%"))%js
  end.

(** The [value] attribute of an option. *)
Definition option_value (n : Node) : string :=
  match attributes n with
  | (_, v) :: _ => v
  | [] => ""
  end.

Definition fillSectorFilter : M unit :=
  current <- read "sectorFilter" "value" el_value ;;
  write "sectorFilter" "innerHTML"
    (set_innerHTML ("<option " ++ attr "value" "" ++ ">All sectors</option>")) ;;
  st <- get_state ;;
  sorted <- lift (sort default_compare (sectors st)) ;;
  for_of sorted (fun s =>
    v <- lift (ToString s) ;;
    t <- lift (ToString s) ;;
    write "sectorFilter" "appendChild"
      (appendChild {| tag := "option"; attributes := [("value", v)];
                      content := t; onclick := None |})) ;;
  (* [sel.value = current]: a select takes a value only if an option has it *)
  write "sectorFilter" "value" (fun e =>
    let offered := "" :: List.map option_value (el_children e) in
    set_value (if existsb (String.eqb current) offered then current else "") e).

(** The comparator of the watchlist: [(a,b) => (a.ticker > b.ticker ? 1 : -1)]. *)
Definition by_ticker (a b : PriceRow) : result number :=
  (g <- greater_than (ticker a) (ticker b) ;;
   Ok (if g then one else (- one)%float))%js.

(** The search predicate of the watchlist, [q] being the trimmed,
    upper-cased search text. *)
Definition matches_search (q : string) (r : PriceRow) : result bool :=
  (if String.eqb q "" then Ok true
   else
     t <- ToString (ticker r) ;;
     c <- ToString (company r) ;;
     let hay := toUpperCase (t ++ " " ++ c) in
     Ok (includes hay q))%js.

(** The rows of the watchlist: the three filters, then the sort.
    [chosen] is the value of the sector select, [""] for all sectors. *)
Definition watchlist_rows (prices : list PriceRow) (chosen q : string)
  : result (list PriceRow) :=
  (let l1 := filter (fun r => ToBoolean (ticker r)) prices in
   let l2 := filter (fun r => String.eqb chosen ""
                              || strict_equals (sector r) (Str chosen)) l1 in
   l3 <- filterM (matches_search q) l2 ;;
   sort by_ticker l3)%js.

Definition watchlist_row_html (r : PriceRow) : result string :=
  (let chgClass := polarity (chg r) in
   pctStr <- pct_cell (pctChg r) ;;
   t <- ToString (ticker r) ;;
   c <- ToString (or_else (or_else (company r) (sector r)) (Str "")) ;;
   l <- num_cell (last r) ;;
   ch <- num_cell (chg r) ;;
   v <- match volume r with
        | None => Ok "—"
        | Some x => fmtInt (Num x)
        end ;;
   Ok (nl ++ "      <td>" ++ nl
       ++ "        <div " ++ attr "class" "ticker" ++ ">" ++ t ++ "</div>" ++ nl
       ++ "        <div " ++ attr "class" "small muted" ++ ">" ++ c ++ "</div>" ++ nl
       ++ "      </td>" ++ nl
       ++ "      <td " ++ attr "class" "right" ++ ">" ++ l ++ "</td>" ++ nl
       ++ "      <td " ++ attr "class" ("right " ++ chgClass) ++ ">" ++ ch ++ "</td>" ++ nl
       ++ "      <td " ++ attr "class" ("right " ++ chgClass) ++ ">" ++ pctStr ++ "</td>" ++ nl
       ++ "      <td " ++ attr "class" "right" ++ ">" ++ v ++ "</td>" ++ nl
       ++ "    "))%js.

Definition renderWatchlist : M unit :=
  read "watchlistTable" "querySelector" (fun _ => tt) ;;
  typed <- read "searchInput" "value" el_value ;;
  let q := toUpperCase (trim typed) in
  chosen <- read "sectorFilter" "value" el_value ;;
  st <- get_state ;;
  rows <- lift (watchlist_rows (prices st) chosen q) ;;
  write "watchlistTable" "innerHTML" (set_innerHTML "") ;;
  match rows with
  | [] =>
      write "watchlistTable" "innerHTML"
        (set_innerHTML (placeholder_row "5" "No tickers found."))
  | _ =>
      for_of rows (fun r =>
        html <- lift (watchlist_row_html r) ;;
        write "watchlistTable" "appendChild"
          (appendChild {| tag := "tr";
                          attributes := [("style", "cursor: pointer")];
                          content := html;
                          onclick := Some (ticker r) |})) ;;
      write "watchlistMeta" "textContent"
        (set_textContent
           (toLocaleString (number_of_Z (Z.of_nat (List.length rows)))
            ++ " tickers"))
  end.

(** The comparator of the leaderboard: [(a,b) => (b.nav - a.nav)]. *)
Definition by_nav (a b : Leader.row) : result number :=
  Ok (Leader.nav b - Leader.nav a)%float.

(** [isFinite(x) ? fmtNum(x, 2) : "—"]. *)
Definition finite_cell (x : number) : result string :=
  if is_finite x then fmtNum (Num x) 2 else Ok "—".

Definition leader_row_html (r : Leader.row) : result string :=
  (let pnl := Leader.realized_pnl r in
   let pnlClass :=
     if is_finite pnl then (if (zero <=? pnl)%float then "pos" else "neg")
     else "" in
   t <- ToString (Leader.team r) ;;
   n <- finite_cell (Leader.nav r) ;;
   c <- finite_cell (Leader.cash r) ;;
   p <- finite_cell pnl ;;
   Ok (nl ++ "      <td><span " ++ attr "class" "ticker" ++ ">" ++ t
       ++ "</span></td>" ++ nl
       ++ "      <td " ++ attr "class" "right" ++ ">" ++ n ++ "</td>" ++ nl
       ++ "      <td " ++ attr "class" "right" ++ ">" ++ c ++ "</td>" ++ nl
       ++ "      <td " ++ attr "class" ("right " ++ pnlClass) ++ ">" ++ p
       ++ "</td>" ++ nl
       ++ "    "))%js.

Definition renderLeaderboard : M unit :=
  read "leaderTable" "querySelector" (fun _ => tt) ;;
  st <- get_state ;;
  rows <- lift (sort by_nav
                  (filter (fun r => ToBoolean (Leader.team r)) (leaderboard st))) ;;
  write "leaderTable" "innerHTML" (set_innerHTML "") ;;
  match rows with
  | [] =>
      write "leaderTable" "innerHTML"
        (set_innerHTML (placeholder_row "4" "No leaderboard data yet."))
  | _ =>
      for_of rows (fun r =>
        html <- lift (leader_row_html r) ;;
        write "leaderTable" "appendChild"
          (appendChild {| tag := "tr"; attributes := []; content := html;
                          onclick := None |}))
  end.

Definition news_item_html (n : News.row) : result string :=
  (title <- (if ToBoolean (News.company n)
             then
               t <- ToString (News.ticker n) ;;
               c <- ToString (News.company n) ;;
               Ok (t ++ " (" ++ c ++ ")")
             else ToString (News.ticker n)) ;;
   head <- escapeHtml (Str title) ;;
   meta <- escapeHtml (or_else (News.timestamp n) (Str "")) ;;
   type <- escapeHtml (or_else (News.eventType n) (Str "")) ;;
   regime <- (if ToBoolean (News.regime n)
              then r <- escapeHtml (News.regime n) ;; Ok (" • " ++ r)
              else Ok "") ;;
   body <- escapeHtml (or_else (News.headline n) (Str "")) ;;
   Ok (nl ++ "      <div " ++ attr "class" "news-head" ++ ">" ++ nl
       ++ "        <div " ++ attr "class" "news-title" ++ ">" ++ head ++ "</div>" ++ nl
       ++ "        <div " ++ attr "class" "news-meta" ++ ">" ++ meta ++ "</div>" ++ nl
       ++ "      </div>" ++ nl
       ++ "      <div " ++ attr "class" "news-type" ++ ">" ++ type ++ regime
       ++ "</div>" ++ nl
       ++ "      <div " ++ attr "class" "news-body" ++ ">" ++ body ++ "</div>" ++ nl
       ++ "    "))%js.

Definition renderNews : M unit :=
  st <- get_state ;;
  let rows := firstn 50 (news st) in
  write "newsList" "innerHTML" (set_innerHTML "") ;;
  match rows with
  | [] =>
      write "newsList" "innerHTML"
        (set_innerHTML ("<div " ++ attr "class" "muted" ++ ">No news yet.</div>"))
  | _ =>
      for_of rows (fun n =>
        html <- lift (news_item_html n) ;;
        write "newsList" "appendChild"
          (appendChild {| tag := "div"; attributes := [("class", "news-item")];
                          content := html;
                          onclick := if ToBoolean (News.ticker n)
                                     then Some (News.ticker n) else None |}))
  end.

(** ** The detail panel and the sparkline *)

Definition spark_w : number := 600%float.
Definition spark_h : number := 220%float.
Definition spark_pad : number := 14%float.

(** The series that is drawn: the row's own, its entries converted and the
    non-finite ones dropped; or, when that leaves fewer than two points, 24
    points at the last price (at 100 when there is none). *)
Definition spark_series (priceRow : PriceRow) : result (list number) :=
  (own <- match series priceRow with
          | Some l =>
              if negb (Nat.eqb (List.length l) 0)
              then xs <- mapM ToNumber l ;; Ok (Some (filter is_finite xs))
              else Ok None
          | None => Ok None
          end ;;
   let flat :=
     let v := match last priceRow with Some x => x | None => 100%float end in
     repeat v 24 in
   Ok match own with
      | Some xs => if (List.length xs <? 2)%nat then flat else xs
      | None => flat
      end)%js.

(** [(max - min) || 1]. *)
Definition spark_span (min max : number) : number :=
  let d := (max - min)%float in
  if ToBoolean (Num d) then d else 1%float.

Definition spark_points (series : list number) : list (number * number) :=
  let min := Math_min series in
  let max := Math_max series in
  let span := spark_span min max in
  let n := number_of_Z (Z.of_nat (List.length series)) in
  List.map
    (fun iv : nat * number =>
       let i := number_of_Z (Z.of_nat (fst iv)) in
       let v := snd iv in
       (spark_pad + (i * (spark_w - 2 * spark_pad) / (n - 1)),
        spark_pad + ((max - v) * (spark_h - 2 * spark_pad) / span))%float)
    (combine (seq 0 (List.length series)) series).

(** The commands of an SVG path, and how the script writes them. *)
Inductive command : Type :=
| MoveTo (x y : number)
| LineTo (x y : number)
| ClosePath.

Definition show_command (c : command) : string :=
  match c with
  | MoveTo x y => "M " ++ NumberToString x ++ " " ++ NumberToString y
  | LineTo x y => "L " ++ NumberToString x ++ " " ++ NumberToString y
  | ClosePath => "Z"
  end.

Definition show_path (cs : list command) : string :=
  join " " (List.map show_command cs).

(** The area under the line: up from the baseline below the first point,
    through the points, down to the baseline below the last point, closed.
    [pts[0]] of an empty array is [undefined], and reading it throws. *)
Definition area_commands (pts : list (number * number)) : result (list command) :=
  match pts with
  | [] => Throw (TypeError "Cannot read properties of undefined (reading '0')")
  | p0 :: rest =>
      let base := (spark_h - spark_pad)%float in
      Ok ([MoveTo (fst p0) base; LineTo (fst p0) (snd p0)]
          ++ List.map (fun p => LineTo (fst p) (snd p)) rest
          ++ [LineTo (fst (List.last pts p0)) base; ClosePath])%list
  end.

Definition line_commands (pts : list (number * number)) : list command :=
  match pts with
  | [] => []
  | p0 :: rest =>
      MoveTo (fst p0) (snd p0) :: List.map (fun p => LineTo (fst p) (snd p)) rest
  end.

Definition stroke_colour : string := "rgba(93,214,255,.95)".

(** The three nodes that [drawSpark] appends: the filled area, the line,
    and the dot at the last point. *)
Definition area_node (d : string) : Node :=
  {| tag := "path";
     attributes := [("d", d); ("fill", "rgba(93,214,255,.12)");
                    ("stroke", "none")];
     content := ""; onclick := None |}.

Definition line_node (d : string) : Node :=
  {| tag := "path";
     attributes := [("d", d); ("fill", "none"); ("stroke", stroke_colour);
                    ("stroke-width", "2.5")];
     content := ""; onclick := None |}.

Definition dot_node (p : number * number) : Node :=
  {| tag := "circle";
     attributes := [("cx", NumberToString (fst p));
                    ("cy", NumberToString (snd p));
                    ("r", "4"); ("fill", stroke_colour)];
     content := ""; onclick := None |}.

Definition drawSpark (priceRow : PriceRow) : M unit :=
  write "spark" "innerHTML" (set_innerHTML "") ;;
  series <- lift (spark_series priceRow) ;;
  (* [Math.min(...series)], [Math.max(...series)]: the series is spread *)
  series <- lift (spread series) ;;
  let pts := spark_points series in
  area <- lift (area_commands pts) ;;
  let path := line_node (show_path (line_commands pts)) in
  let area := area_node (show_path area) in
  write "spark" "appendChild" (appendChild area) ;;
  write "spark" "appendChild" (appendChild path) ;;
  match rev pts with
  | [] =>
      lift (Throw (TypeError "Cannot read properties of undefined (reading '0')"))
  | final :: _ => write "spark" "appendChild" (appendChild (dot_node final))
  end.

Definition prefillTradeForm (ticker : value) : M unit :=
  write_text "fTicker" "value" (ToString (or_else ticker (Str ""))) set_value.

Definition openTradeModal : M unit :=
  write "modalBackdrop" "hidden" (set_hidden false) ;;
  write "tradeModal" "hidden" (set_hidden false).

Definition closeTradeModal : M unit :=
  write "modalBackdrop" "hidden" (set_hidden true) ;;
  write "tradeModal" "hidden" (set_hidden true).

Definition set_selected (r : option PriceRow) (st : State) : State :=
  {| prices := prices st; news := news st; leaderboard := leaderboard st;
     sectors := sectors st; selected := r |}.

Definition selectTicker (t : value) : M unit :=
  st <- get_state ;;
  match find (fun x => strict_equals (ticker x) t) (prices st) with
  | None => ret tt
  | Some r =>
      put_state (set_selected (Some r) st) ;;
      title <- lift (if ToBoolean (company r)
                     then (a <- ToString (ticker r) ;;
                           b <- ToString (company r) ;;
                           Ok (Str (a ++ " (" ++ b ++ ")")))%js
                     else Ok (ticker r)) ;;
      write_text "detailTitle" "textContent" (text_of title) set_textContent ;;
      macro <- lift (if ToBoolean (macro_headline r)
                     then (m <- ToString (macro_headline r) ;;
                           Ok [Str ("Macro: " ++ m)])%js
                     else Ok []) ;;
      let metaParts :=
        ((if ToBoolean (timestamp r) then [timestamp r] else []) ++ macro)%list in
      meta <- lift (match metaParts with
                    | [] => Ok "—"
                    | _ => Array_join " • " metaParts
                    end) ;;
      write "detailMeta" "textContent" (set_textContent meta) ;;
      write_text "chipSector" "textContent"
        (text_of (or_else (sector r) (Str "—"))) set_textContent ;;
      write_text "chipRegime" "textContent"
        (text_of (or_else (regime r) (Str "—"))) set_textContent ;;
      l <- lift (num_cell (last r)) ;;
      write "statLast" "textContent" (set_textContent l) ;;
      let chgClass := polarity (chg r) in
      c <- lift (num_cell (chg r)) ;;
      write "statChg" "textContent" (set_textContent c) ;;
      write "statChg" "className" (set_className ("value " ++ chgClass)) ;;
      p <- lift (pct_cell (pctChg r)) ;;
      write "statPct" "textContent" (set_textContent p) ;;
      write "statPct" "className" (set_className ("value " ++ chgClass)) ;;
      v <- lift (match volume r with
                 | None => Ok "—"
                 | Some x => fmtInt (Num x)
                 end) ;;
      write "statVol" "textContent" (set_textContent v) ;;
      drawSpark r ;;
      prefillTradeForm (ticker r)
  end.

(** ** The trade form *)

(** [s || fallback] on strings. *)
Definition or_string (s fallback : string) : string :=
  if String.eqb s "" then fallback else s.

Definition issueBodyFromForm : M string :=
  fTeam <- read "fTeam" "value" el_value ;;
  let team := or_string (trim fTeam) "team1" in
  side <- read "fSide" "value" el_value ;;
  fTicker <- read "fTicker" "value" el_value ;;
  let ticker := toUpperCase (trim fTicker) in
  fQty <- read "fQty" "value" el_value ;;
  qty <- lift (ToNumber (or_else (Str fQty) (Num zero))) ;;
  type <- read "fType" "value" el_value ;;
  fLimit <- read "fLimit" "value" el_value ;;
  let limit := trim fLimit in
  fNotes <- read "fNotes" "value" el_value ;;
  let notes := trim fNotes in
  let lines :=
    ([ ("team: " ++ team)%string;
       ("side: " ++ side)%string;
       ("ticker: " ++ ticker)%string;
       ("qty: " ++ NumberToString qty)%string;
       ("order_type: " ++ type)%string ]
     ++ (if String.eqb type "LIMIT" && negb (String.eqb limit "")
         then [("limit_price: " ++ limit)%string] else [])
     ++ (if negb (String.eqb notes "")
         then [("notes: " ++ notes)%string] else []))%list in
  ret (join nl lines).


(** ** Refreshing *)

Definition set_prices (p : list PriceRow) (st : State) : State :=
  {| prices := p; news := news st; leaderboard := leaderboard st;
     sectors := sectors st; selected := selected st |}.

Definition set_news (n : list News.row) (st : State) : State :=
  {| prices := prices st; news := n; leaderboard := leaderboard st;
     sectors := sectors st; selected := selected st |}.

Definition set_leaderboard (l : list Leader.row) (st : State) : State :=
  {| prices := prices st; news := news st; leaderboard := l;
     sectors := sectors st; selected := selected st |}.

Definition set_sectors (s : list value) (st : State) : State :=
  {| prices := prices st; news := news st; leaderboard := leaderboard st;
     sectors := s; selected := selected st |}.

(** [state.field = v]. *)
Definition assign (f : State -> State) : M unit :=
  fun w => (Ok tt, {| state := f (state w); dom := dom w |}).

(** [fetchJson(url).catch(() => ({}))]: a failed fetch counts as an empty
    object. *)
Definition or_empty (fetched : result value) : value :=
  match fetched with
  | Ok v => v
  | Throw _ => Obj 0 []
  end.

Section Refresh.

(** [String.prototype.localeCompare] is the host's collation. *)
Variable localeCompare : string -> string -> number.

(** The comparator of the news:
    [(a,b) => String(b.timestamp).localeCompare(String(a.timestamp))]. *)
Definition by_newest (a b : News.row) : result number :=
  (tb <- ToString (News.timestamp b) ;;
   ta <- ToString (News.timestamp a) ;;
   Ok (localeCompare tb ta))%js.

(** The first statements of the [try] block: the three collections are
    normalised before anything is stored. *)
Definition normalize_snapshots (pRaw nRaw lRaw : value)
  : result (list PriceRow * list News.row * list Leader.row) :=
  (pRows <- asArray pRaw ;;
   pAll <- mapM normalizePriceRow pRows ;;
   let pArr := filter (fun r => ToBoolean (ticker r)) pAll in
   nRows <- asArray nRaw ;;
   nArr <- mapM normalizeNewsRow nRows ;;
   lRows <- asArray lRaw ;;
   lArr <- mapM normalizeLeaderRow lRows ;;
   nSorted <- sort by_newest nArr ;;
   Ok (pArr, nSorted, lArr))%js.

(** [any?.timestamp || any?.raw?.timestamp || ""] for [any = pArr[0]]. *)
Definition latest_bar (pArr : list PriceRow) : result value :=
  match pArr with
  | [] => Ok (Str "")
  | any :: _ =>
      (rawts <- (if ToBoolean (timestamp any) then Ok Undefined
                 else get_optional (raw any) "timestamp") ;;
       Ok (or_else (or_else (timestamp any) rawts) (Str "")))%js
  end.

(** The body of the [try] block, after the three fetches have settled. *)
Definition refresh_try (pRaw nRaw lRaw : value) : M unit :=
  arrs <- lift (normalize_snapshots pRaw nRaw lRaw) ;;
  let '(pArr, nArr, lArr) := arrs in
  assign (set_prices pArr) ;;
  assign (set_news nArr) ;;
  assign (set_leaderboard lArr) ;;
  assign (set_sectors
            (new_Set (filter ToBoolean (List.map sector pArr)))) ;;
  fillSectorFilter ;;
  renderWatchlist ;;
  renderNews ;;
  renderLeaderboard ;;
  ts <- lift (latest_bar pArr) ;;
  text <- lift (if ToBoolean ts
                then (t <- ToString ts ;; Ok ("Latest bar: " ++ t))%js
                else Ok "Latest bar: (not available yet)") ;;
  write "subtitle" "textContent" (set_textContent text) ;;
  (* Auto-select first ticker if none *)
  st <- get_state ;;
  match selected st, pArr with
  | None, first :: _ => selectTicker (ticker first)
  | _, _ => ret tt
  end ;;
  (* Keep selection if still exists *)
  st <- get_state ;;
  match selected st with
  | Some sel =>
      match find (fun x => strict_equals (ticker x) (ticker sel)) pArr with
      | Some still => selectTicker (ticker still)
      | None => ret tt
      end
  | None => ret tt
  end.

(** The [catch] block. *)
Definition refresh_catch (e : error) : M unit :=
  write "subtitle" "textContent"
    (set_textContent ("Error loading snapshots: " ++ message e)) ;;
  read "watchlistTable" "querySelector" (fun _ => tt) ;;
  write "watchlistTable" "innerHTML"
    (set_innerHTML
       (placeholder_row "5" "No snapshot files found yet. Run one exchange tick.")) ;;
  write "newsList" "innerHTML"
    (set_innerHTML ("<div " ++ attr "class" "muted" ++ ">No news snapshot yet.</div>")) ;;
  read "leaderTable" "querySelector" (fun _ => tt) ;;
  write "leaderTable" "innerHTML"
    (set_innerHTML (placeholder_row "4" "No leaderboard snapshot yet.")).

(** [refresh], given how each of the three fetches settled. *)
Definition refresh (prices news leaderboard : result value) : M unit :=
  try_catch
    (refresh_try (or_empty prices) (or_empty news) (or_empty leaderboard))
    refresh_catch.

End Refresh.

End Script.

Local Open Scope script_scope.

(** ** A page, a host and a collation to run the script on *)

(** A page with every element the script looks up, all empty. *)
Definition page : Dom :=
  List.map (fun id => (id, empty_element))
    [ "sectorFilter"; "watchlistTable"; "searchInput"; "watchlistMeta";
      "leaderTable"; "newsList"; "detailTitle"; "detailMeta"; "chipSector";
      "chipRegime"; "statLast"; "statChg"; "statPct"; "statVol"; "spark";
      "fTicker"; "fTeam"; "fSide"; "fQty"; "fType"; "fLimit"; "fNotes";
      "modalBackdrop"; "tradeModal"; "subtitle" ].

Definition start : World := {| state := initial_state; dom := page |}.

(** A host for the runs: ASCII texts only, the [en-US] locale, and calls of
    up to 65535 arguments (every engine takes that many). *)
#[export] Instance sample_host : Host :=
  {| upper_unicode := fun s => s;
     toLocaleString := toLocaleString_en_US;
     argument_limit := 65535 |}.

(** Collation by code units: the order of [localeCompare] on timestamps of
    one ISO-8601 format. *)
Definition ordinal_compare (a b : string) : number :=
  if string_lt a b then (- one)%float
  else if string_lt b a then one else zero.

(** * Part 3: properties *)

(** ** Reasoning about completions *)

Lemma rbind_ok {A B} (r : result A) (k : A -> result B) (b : B) :
  rbind r k = Ok b -> exists a, r = Ok a /\ k a = Ok b.
Proof.
  destruct r as [a | e]; simpl; intros H; [eauto | discriminate].
Qed.

(** Splits a hypothesis [H : x <- r ;; k = Ok b] into [E : r = Ok a] and
    [H : k a = Ok b]. *)
Tactic Notation "bind_ok" hyp(H) "as" ident(a) ident(E) :=
  match type of H with
  | rbind ?r _ = Ok _ =>
      destruct r as [a | ?] eqn:E; cbn [rbind] in H; [ | discriminate H ]
  end.

Lemma finite_or_null_some (x y : number) :
  finite_or_null x = Some y -> is_finite x = true /\ y = x.
Proof.
  unfold finite_or_null. destruct (is_finite x); intros H; inversion H; auto.
Qed.

(** ** Equality of numbers and of values

    [===] on numbers is IEEE equality: the two zeros are equal and [NaN]
    equals nothing.  It is symmetric and transitive, and reflexive on every
    value but [NaN]. *)

Definition sf_zero (x : spec_float) : bool :=
  match x with S754_zero _ => true | _ => false end.

Definition sf_nan (x : spec_float) : bool :=
  match x with S754_nan => true | _ => false end.

Lemma SFeqb_refl (x : spec_float) : sf_nan x = false -> SFeqb x x = true.
Proof.
  unfold SFeqb. destruct x as [s | s | | s m e]; simpl; try discriminate;
    intros _; try reflexivity.
  - destruct s; reflexivity.
  - destruct s; rewrite Z.compare_refl, Pos.compare_cont_refl; reflexivity.
Qed.

Lemma SFeqb_true (x y : spec_float) :
  SFeqb x y = true ->
  (sf_zero x = true /\ sf_zero y = true) \/ (x = y /\ sf_nan x = false).
Proof.
  unfold SFeqb.
  destruct x as [s1 | s1 | | s1 m1 e1], y as [s2 | s2 | | s2 m2 e2]; simpl;
    try discriminate; try (destruct s1; discriminate);
    try (destruct s2; discriminate).
  - left; auto.
  - destruct s1, s2; try discriminate; right; auto.
  - destruct s1, s2; try discriminate;
      (destruct (e1 ?= e2)%Z eqn:E; try discriminate;
       apply Z.compare_eq in E; subst;
       destruct (Pos.compare_cont Eq m1 m2) eqn:F; try discriminate;
       apply Pos.compare_eq in F; subst; right; auto).
Qed.

Lemma SFeqb_zero (x y : spec_float) :
  sf_zero x = true -> sf_zero y = true -> SFeqb x y = true.
Proof. destruct x, y; simpl; try discriminate; reflexivity. Qed.

Lemma SFeqb_sym (x y : spec_float) : SFeqb x y = true -> SFeqb y x = true.
Proof.
  intros H. destruct (SFeqb_true _ _ H) as [[Hx Hy] | [-> Hn]].
  - apply SFeqb_zero; assumption.
  - apply SFeqb_refl, Hn.
Qed.

Lemma SFeqb_trans (x y z : spec_float) :
  SFeqb x y = true -> SFeqb y z = true -> SFeqb x z = true.
Proof.
  intros H1 H2.
  destruct (SFeqb_true _ _ H1) as [[Hx Hy] | [-> Hn]]; [ | exact H2].
  destruct (SFeqb_true _ _ H2) as [[_ Hz] | [<- _]]; [ | exact H1].
  apply SFeqb_zero; assumption.
Qed.

Lemma strict_equals_sym (a b : value) :
  strict_equals a b = true -> strict_equals b a = true.
Proof.
  destruct a, b; simpl; try discriminate; try reflexivity.
  - intros H. apply Bool.eqb_prop in H. subst. apply Bool.eqb_reflx.
  - rewrite !FloatAxioms.eqb_spec. apply SFeqb_sym.
  - rewrite String.eqb_sym. exact (fun H => H).
  - rewrite Nat.eqb_sym. exact (fun H => H).
  - rewrite Nat.eqb_sym. exact (fun H => H).
Qed.

Lemma strict_equals_trans (a b c : value) :
  strict_equals a b = true -> strict_equals b c = true ->
  strict_equals a c = true.
Proof.
  destruct a, b; simpl; try discriminate; destruct c; simpl;
    try discriminate; try reflexivity.
  - intros H1 H2. apply Bool.eqb_prop in H1, H2. subst. apply Bool.eqb_reflx.
  - rewrite !FloatAxioms.eqb_spec. apply SFeqb_trans.
  - intros H1 H2. apply String.eqb_eq in H1, H2. subst. apply String.eqb_refl.
  - intros H1 H2. apply Nat.eqb_eq in H1, H2. subst. apply Nat.eqb_refl.
  - intros H1 H2. apply Nat.eqb_eq in H1, H2. subst. apply Nat.eqb_refl.
Qed.

(** A truthy value is not [NaN], so it equals itself. *)
Lemma strict_equals_refl (v : value) :
  ToBoolean v = true -> strict_equals v v = true.
Proof.
  destruct v; simpl; try discriminate; try reflexivity.
  - intros _. apply Bool.eqb_reflx.
  - unfold is_nan. destruct (x =? x)%float; [reflexivity | ].
    rewrite Bool.orb_true_r. discriminate.
  - intros _. apply String.eqb_refl.
  - intros _. apply Nat.eqb_refl.
  - intros _. apply Nat.eqb_refl.
Qed.

(** ** Derived fields of a price row *)

(** C2 (as amended).  When the normalised row has both a last price [l] and
    a previous close [p], its change is [l - p] if that difference is a
    finite number and [null] otherwise; and when moreover [p] is not zero,
    its percent change is [(l - p) / p * 100] if that is finite and [null]
    otherwise. *)
Theorem normalizePriceRow_change (r : value) (row : PriceRow) (l p : number) :
  normalizePriceRow r = Ok row ->
  last row = Some l ->
  prev row = Some p ->
  chg row = finite_or_null (l - p)%float
  /\ ((p =? zero)%float = false ->
      pctChg row = finite_or_null ((l - p) / p * 100)%float).
Proof.
  unfold normalizePriceRow. intros H Hl Hp.
  bind_ok H as t Et. bind_ok H as c Ec. bind_ok H as s Es.
  bind_ok H as lr Elr. bind_ok H as ln Eln.
  bind_ok H as pr Epr. bind_ok H as pn Epn.
  bind_ok H as vr Evr. bind_ok H as vn Evn.
  bind_ok H as ts Ets.
  bind_ok H as ch Ech. bind_ok H as pc Epc.
  bind_ok H as se Ese. bind_ok H as sr Esr.
  bind_ok H as rg Erg. bind_ok H as mh Emh.
  inversion H; subst row; clear H. cbn [last prev chg pctChg] in *.
  apply finite_or_null_some in Hl as [Fl ->].
  apply finite_or_null_some in Hp as [Fp ->].
  rewrite Fl, Fp in Ech. cbn [andb] in Ech. inversion Ech; subst ch; clear Ech.
  split; [reflexivity | ].
  intros Hz. rewrite Fp, Hz in Epc. cbn [andb negb] in Epc.
  inversion Epc; reflexivity.
Qed.

(** The price record of the first end-to-end scenario and its row. *)
Definition abc_record : value :=
  Obj 1 [("ticker", Str "ABC"); ("close", Num 101); ("prev_close", Num 100);
         ("volume", Num 500)].

Definition abc_row : PriceRow :=
  {| ticker := Str "ABC"; company := Str ""; sector := Str "";
     last := Some 101%float; prev := Some 100%float; chg := Some 1%float;
     pctChg := Some 1%float; volume := Some 500%float; timestamp := Str "";
     regime := Str ""; macro_headline := Str ""; series := None;
     raw := abc_record |}.

Lemma normalizePriceRow_change_witness :
  normalizePriceRow abc_record = Ok abc_row
  /\ chg abc_row = Some 1%float
  /\ pctChg abc_row = Some 1%float.
Proof.
  split; [reflexivity | ].
  destruct (normalizePriceRow_change abc_record abc_row 101 100
              eq_refl eq_refl eq_refl) as [Hc Hp].
  split; [exact Hc | exact (Hp eq_refl)].
Defined.

(** Two records whose last price and previous close are finite, the second
    with a non-zero previous close, and whose difference, respectively
    percentage, leaves the range of the numbers. *)
Definition overflow_record : value :=
  Obj 1 [("ticker", Str "BIG"); ("close", Num 0x1p+1023);
         ("prev_close", Num (-0x1p+1023))].

Definition steep_record : value :=
  Obj 1 [("ticker", Str "BIG"); ("close", Num 0x1p+1023);
         ("prev_close", Num 0x1p-1000)].

(** C2, as stated, fails: both prices are finite, yet the change is [null],
    not their difference; and with a finite change and a non-zero previous
    close the percent change is [null]. *)
Lemma normalizePriceRow_change_counterexample :
  (exists row,
      normalizePriceRow overflow_record = Ok row
      /\ last row = Some 0x1p+1023%float
      /\ prev row = Some (-0x1p+1023)%float
      /\ chg row = None)
  /\ (exists row,
         normalizePriceRow steep_record = Ok row
         /\ last row = Some 0x1p+1023%float
         /\ prev row = Some 0x1p-1000%float
         /\ chg row = Some 0x1p+1023%float
         /\ pctChg row = None).
Proof.
  split; eexists; (split; [reflexivity | ]); cbn; repeat split; reflexivity.
Qed.

(** ** The normaliser on arbitrary records *)

(** [r.name] for a record that is neither [null] nor [undefined]. *)
Definition prop (r : value) (name : string) : value :=
  match r with
  | Obj _ props => lookup props name
  | _ => Undefined
  end.

(** [r.n1 ?? ... ?? r.nk] for such a record. *)
Fixpoint first_of (r : value) (names : list string) : value :=
  match names with
  | [] => Undefined
  | [n] => prop r n
  | n :: rest => if nullish (prop r n) then first_of r rest else prop r n
  end.

(** [v] converts to a number without throwing. *)
Definition converts (v : value) : bool := is_ok (ToNumber v).

(** What a numeric field holds for the resolved value [v]:
    [isFinite(Number(v)) ? Number(v) : null]. *)
Definition numeric (v : value) : option number :=
  match ToNumber v with
  | Ok x => finite_or_null x
  | Throw _ => None
  end.

Lemma get_ok (r : value) (name : string) :
  nullish r = false -> get r name = Ok (prop r name).
Proof. destruct r; simpl; intros H; try discriminate; reflexivity. Qed.

Lemma get_nullish (r : value) (name : string) :
  nullish r = true -> exists e, get r name = Throw e.
Proof. destruct r; simpl; intros H; try discriminate; eauto. Qed.

Lemma normalizePriceRow_nullish (r : value) :
  nullish r = true -> exists e, normalizePriceRow r = Throw e.
Proof.
  intros Hr. unfold normalizePriceRow, ticker_aliases.
  cbn [first_defined]. destruct (get_nullish r "ticker" Hr) as [e ->].
  exists e. reflexivity.
Qed.

Lemma first_defined_ok (r : value) (names : list string) :
  nullish r = false -> first_defined r names = Ok (first_of r names).
Proof.
  intros Hr. induction names as [ | n rest IH]; [reflexivity | ].
  destruct rest as [ | m rest].
  - simpl. apply get_ok, Hr.
  - change (first_defined r (n :: m :: rest))
      with (v <- get r n ;;
            if nullish v then first_defined r (m :: rest) else Ok v)%js.
    rewrite (get_ok r n Hr). cbn [rbind].
    change (first_of r (n :: m :: rest))
      with (if nullish (prop r n) then first_of r (m :: rest) else prop r n).
    destruct (nullish (prop r n)); [exact IH | reflexivity].
Qed.

Lemma first_of_absent (r : value) (names : list string) :
  (forall n, In n names -> prop r n = Undefined) ->
  first_of r names = Undefined.
Proof.
  induction names as [ | n rest IH]; intros H; [reflexivity | ].
  destruct rest as [ | m rest].
  - simpl. apply H. left. reflexivity.
  - change (first_of r (n :: m :: rest))
      with (if nullish (prop r n) then first_of r (m :: rest) else prop r n).
    rewrite (H n (or_introl eq_refl)). simpl nullish. cbv iota.
    apply IH. intros k Hk. apply H. right. exact Hk.
Qed.

Lemma converts_ok (v : value) :
  converts v = true -> exists x, ToNumber v = Ok x.
Proof.
  unfold converts. destruct (ToNumber v); simpl; intros H;
    [eauto | discriminate].
Qed.

Lemma finite_field_ok (r : value) (field : string) :
  nullish r = false -> converts (prop r field) = true ->
  finite_field r field = Ok (numeric (prop r field)).
Proof.
  intros Hr Hc. unfold finite_field, isFinite, numeric, finite_or_null.
  rewrite (get_ok r field Hr). cbn [rbind].
  destruct (converts_ok _ Hc) as [x ->]. cbn [rbind].
  destruct (is_finite x); reflexivity.
Qed.

Definition is_some {A} (o : option A) : bool :=
  match o with Some _ => true | None => false end.

(** The records that [normalizePriceRow] takes without throwing: neither
    [null] nor [undefined], and every conversion to a number that is made
    returns.  The first alias present is converted for each of the last
    price, the previous close and the volume; the [change] field unless
    both prices are finite; and the [pct_change] field unless the percent
    change is computed, which takes a change and a previous close that is
    finite and not zero. *)
Definition normalisable (r : value) : bool :=
  let l := numeric (first_of r last_aliases) in
  let p := numeric (first_of r prev_aliases) in
  let both := is_some l && is_some p in
  let change_known := both || is_some (numeric (prop r "change")) in
  let pct_computed :=
    change_known
    && match p with Some x => negb (x =? zero)%float | None => false end in
  negb (nullish r)
  && converts (first_of r last_aliases)
  && converts (first_of r prev_aliases)
  && converts (first_of r volume_aliases)
  && (both || converts (prop r "change"))
  && (pct_computed || converts (prop r "pct_change")).

Lemma normalizePriceRow_normalisable (r : value) :
  is_ok (normalizePriceRow r) = normalisable r.
Proof.
  destruct (nullish r) eqn:Hr.
  - destruct (normalizePriceRow_nullish r Hr) as [e ->].
    unfold normalisable. rewrite Hr. reflexivity.
  - unfold normalizePriceRow, normalisable, finite_field, isFinite, numeric,
      converts, finite_or_null.
    rewrite !(first_defined_ok r _ Hr), !(get_ok r _ Hr), Hr.
    cbv zeta. cbn [rbind negb andb].
    destruct (ToNumber (first_of r last_aliases)) as [ln | ];
      cbn [rbind is_ok andb]; [ | reflexivity].
    destruct (ToNumber (first_of r prev_aliases)) as [pn | ];
      cbn [rbind is_ok andb]; [ | reflexivity].
    destruct (ToNumber (first_of r volume_aliases)) as [vn | ];
      cbn [rbind is_ok andb]; [ | reflexivity].
    destruct (is_finite ln), (is_finite pn); cbn [andb is_some orb rbind];
      destruct (ToNumber (prop r "change")) as [c | ];
      cbn [rbind is_ok andb orb is_some]; try reflexivity;
      try (destruct (is_finite c); cbn [rbind is_ok andb orb is_some]);
      try destruct (pn =? zero)%float; cbn [negb andb orb rbind is_ok];
      destruct (ToNumber (prop r "pct_change")) as [q | ];
      cbn [rbind is_ok andb orb]; try reflexivity;
      try (destruct (is_finite q); cbn [rbind is_ok]);
      try (destruct (isArray (prop r "series")); cbn [rbind is_ok]);
      reflexivity.
Qed.

(** C3 (as amended).  The normaliser returns a row exactly for the records
    that are neither [null] nor [undefined] and on which no conversion to a
    number throws; on every other record it throws.  The row it returns
    keeps the record as [raw].  Each of [last], [prev] and [volume] is
    [null] when none of its aliases is present; and when the first alias
    present holds a value other than [null], it is [Number] of that value
    if that is a finite number and [null] otherwise. *)
Theorem normalizePriceRow_total (r : value) :
  is_ok (normalizePriceRow r) = normalisable r
  /\ forall row,
       normalizePriceRow r = Ok row ->
       raw row = r
       /\ (first_of r last_aliases <> Null ->
           last row = numeric (first_of r last_aliases))
       /\ (first_of r prev_aliases <> Null ->
           prev row = numeric (first_of r prev_aliases))
       /\ (first_of r volume_aliases <> Null ->
           volume row = numeric (first_of r volume_aliases))
       /\ ((forall n, In n last_aliases -> prop r n = Undefined) ->
           last row = None)
       /\ ((forall n, In n prev_aliases -> prop r n = Undefined) ->
           prev row = None)
       /\ ((forall n, In n volume_aliases -> prop r n = Undefined) ->
           volume row = None).
Proof.
  split; [apply normalizePriceRow_normalisable | ].
  intros row H.
  assert (Hr : nullish r = false).
  { destruct (nullish r) eqn:Hn; [ | reflexivity].
    destruct (normalizePriceRow_nullish r Hn) as [e He].
    rewrite He in H. discriminate. }
  unfold normalizePriceRow in H.
  rewrite !(first_defined_ok r _ Hr) in H. cbn [rbind] in H.
  bind_ok H as ln El. bind_ok H as pn Ep. bind_ok H as vn Ev.
  bind_ok H as ch Ech. bind_ok H as pc Epc.
  bind_ok H as se Ese. bind_ok H as sr Esr.
  bind_ok H as rg Erg. bind_ok H as mh Emh.
  inversion H; subst row; clear H. cbn [raw last prev volume].
  unfold numeric. rewrite El, Ep, Ev.
  repeat split.
  - intros Ha. rewrite (first_of_absent r _ Ha) in El.
    inversion El. reflexivity.
  - intros Ha. rewrite (first_of_absent r _ Ha) in Ep.
    inversion Ep. reflexivity.
  - intros Ha. rewrite (first_of_absent r _ Ha) in Ev.
    inversion Ev. reflexivity.
Qed.

(** A record with an empty text for the last price, and one whose last
    price is an object that does not convert. *)
Definition blank_close_record : value :=
  Obj 1 [("ticker", Str "X"); ("close", Str "")].

Definition odd_close_record : value :=
  Obj 1 [("ticker", Str "X"); ("close", Obj 2 [("toString", Null)])].

Lemma normalizePriceRow_total_witness :
  is_ok (normalizePriceRow Null) = false
  /\ is_ok (normalizePriceRow odd_close_record) = false
  /\ (exists row,
         normalizePriceRow abc_record = Ok row
         /\ raw row = abc_record
         /\ last row = Some 101%float
         /\ prev row = Some 100%float
         /\ volume row = Some 500%float).
Proof.
  split; [exact (proj1 (normalizePriceRow_total Null)) | ].
  split; [exact (proj1 (normalizePriceRow_total odd_close_record)) | ].
  exists abc_row. split; [reflexivity | ].
  destruct (proj2 (normalizePriceRow_total abc_record) abc_row eq_refl)
    as (Hraw & Hl & Hp & Hv & _).
  split; [exact Hraw | ].
  split; [apply Hl; discriminate | ].
  split; [apply Hp; discriminate | apply Hv; discriminate].
Defined.

(** C3, as stated, fails: the record [null] makes the normaliser throw,
    and so does a record whose last price does not convert; and an empty
    string, which is not a number, becomes the last price [0]. *)
Lemma normalizePriceRow_total_counterexample :
  normalizePriceRow Null
  = Throw (TypeError "Cannot read properties of null (reading 'ticker')")
  /\ normalizePriceRow odd_close_record
     = Throw (TypeError "Cannot convert object to primitive value")
  /\ (exists row,
         normalizePriceRow blank_close_record = Ok row
         /\ last row = Some 0%float).
Proof.
  split; [reflexivity | ]. split; [reflexivity | ].
  eexists. split; reflexivity.
Qed.

(** ** What a computation leaves of the global state

    [preserves P m]: whatever [m] does and however it ends, the state it
    leaves is related by [P] to the state it found.  With [P] the equality,
    [m] writes to the page only. *)

Section Preservation.

Variable P : State -> State -> Prop.
Hypothesis P_refl : forall s, P s s.
Hypothesis P_trans : forall a b c, P a b -> P b c -> P a c.

Definition preserves {A} (m : M A) : Prop :=
  forall w, P (state w) (state (snd (m w))).

Lemma preserves_ret {A} (a : A) : preserves (ret a).
Proof. intros w. apply P_refl. Qed.

Lemma preserves_lift {A} (r : result A) : preserves (lift r).
Proof. intros w. apply P_refl. Qed.

Lemma preserves_get_state : preserves get_state.
Proof. intros w. apply P_refl. Qed.

Lemma preserves_read {A} (id prop : string) (f : Element -> A) :
  preserves (read id prop f).
Proof.
  intros w. unfold read. destruct (find_element (dom w) id); apply P_refl.
Qed.

Lemma preserves_write (id prop : string) (f : Element -> Element) :
  preserves (write id prop f).
Proof.
  intros w. unfold write. destruct (find_element (dom w) id); apply P_refl.
Qed.

Lemma preserves_write_text (id prop : string) (text : result string)
      (f : string -> Element -> Element) :
  preserves (write_text id prop text f).
Proof.
  intros w. unfold write_text.
  destruct (find_element (dom w) id); [destruct text | ]; apply P_refl.
Qed.

Lemma preserves_bind {A B} (m : M A) (k : A -> M B) :
  preserves m -> (forall a, preserves (k a)) -> preserves (bind m k).
Proof.
  intros Hm Hk w. unfold bind. specialize (Hm w).
  destruct (m w) as [[a | e] w1]; simpl in *.
  - eapply P_trans; [exact Hm | apply Hk].
  - exact Hm.
Qed.

Lemma preserves_for_of {A} (l : list A) (body : A -> M unit) :
  (forall x, preserves (body x)) -> preserves (for_of l body).
Proof.
  intros Hb. induction l as [ | x rest IH]; simpl.
  - apply preserves_ret.
  - apply preserves_bind; [apply Hb | intros _; exact IH].
Qed.

Lemma preserves_try_catch {A} (body : M A) (handler : error -> M A) :
  preserves body -> (forall e, preserves (handler e)) ->
  preserves (try_catch body handler).
Proof.
  intros Hb Hh w. unfold try_catch. specialize (Hb w).
  destruct (body w) as [[a | e] w1]; simpl in *.
  - exact Hb.
  - eapply P_trans; [exact Hb | apply Hh].
Qed.

End Preservation.

(** Breaks a goal [preserves P m] along the structure of [m]. *)
Ltac preserves_step refl trans :=
  first
    [ apply (preserves_ret _ refl)
    | apply (preserves_lift _ refl)
    | apply (preserves_get_state _ refl)
    | apply (preserves_read _ refl)
    | apply (preserves_write _ refl)
    | apply (preserves_write_text _ refl)
    | apply (preserves_for_of _ refl trans); intros
    | apply (preserves_bind _ trans); [ | intros ]
    | match goal with
      | |- preserves _ (match ?x with _ => _ end) => destruct x
      end
    | assumption ].

Definition page_only {A} (m : M A) : Prop := preserves eq m.

Lemma eq_state_trans (a b c : State) : a = b -> b = c -> a = c.
Proof. intros -> ->. reflexivity. Qed.

Ltac page_only_tac :=
  unfold page_only;
  repeat preserves_step (@eq_refl State) eq_state_trans.

Section PageOnly.

Context {host : Host}.

Lemma page_only_fillSectorFilter : page_only fillSectorFilter.
Proof. unfold fillSectorFilter. page_only_tac. Qed.

Lemma page_only_renderWatchlist : page_only renderWatchlist.
Proof. unfold renderWatchlist. page_only_tac. Qed.

Lemma page_only_renderNews : page_only renderNews.
Proof. unfold renderNews. page_only_tac. Qed.

Lemma page_only_renderLeaderboard : page_only renderLeaderboard.
Proof. unfold renderLeaderboard. page_only_tac. Qed.

Lemma page_only_drawSpark (r : PriceRow) : page_only (drawSpark r).
Proof. unfold drawSpark. page_only_tac. Qed.

Lemma page_only_prefillTradeForm (t : value) : page_only (prefillTradeForm t).
Proof. unfold prefillTradeForm. page_only_tac. Qed.

Lemma page_only_issueBodyFromForm : page_only issueBodyFromForm.
Proof. unfold issueBodyFromForm. page_only_tac. Qed.

Lemma page_only_refresh_catch (e : error) : page_only (refresh_catch e).
Proof. unfold refresh_catch. page_only_tac. Qed.

(** ** Selection *)

(** The state after [selectTicker(t)]: the first row whose ticker is [t]
    becomes the selection; nothing changes when there is none. *)
Definition select_in (t : value) (s : State) : State :=
  match find (fun x => strict_equals (ticker x) t) (prices s) with
  | Some r => set_selected (Some r) s
  | None => s
  end.

(** [selectTicker] stores the selection before it touches the page, so the
    state it leaves is the same whether or not it throws there. *)
Lemma selectTicker_state (t : value) (w : World) :
  state (snd (selectTicker t w)) = select_in t (state w).
Proof.
  unfold selectTicker, select_in.
  unfold bind at 1. unfold get_state. cbn [fst snd].
  destruct (find (fun x => strict_equals (ticker x) t) (prices (state w)))
    as [r | ]; [ | reflexivity].
  unfold bind at 1. unfold put_state. cbn [fst snd].
  match goal with
  | |- state (snd (?m ?w1)) = _ =>
      assert (H : page_only m)
        by (page_only_tac;
            first [ apply page_only_drawSpark
                  | apply page_only_prefillTradeForm ]);
      symmetry; apply (H w1)
  end.
Qed.

(** ** Refresh and the collections *)

(** Two states with the same collections; the selection may differ. *)
Definition same_collections (a b : State) : Prop :=
  prices a = prices b /\ news a = news b
  /\ leaderboard a = leaderboard b /\ sectors a = sectors b.

Lemma same_collections_refl (s : State) : same_collections s s.
Proof. repeat split. Qed.

Lemma same_collections_trans (a b c : State) :
  same_collections a b -> same_collections b c -> same_collections a c.
Proof.
  unfold same_collections. intros (H1 & H2 & H3 & H4) (K1 & K2 & K3 & K4).
  repeat split; congruence.
Qed.

Lemma page_only_preserves {A} (P : State -> State -> Prop) (m : M A) :
  (forall s, P s s) -> page_only m -> preserves P m.
Proof. intros Hr Hm w. rewrite <- (Hm w). apply Hr. Qed.

Lemma selectTicker_collections (t : value) :
  preserves same_collections (selectTicker t).
Proof.
  intros w. rewrite selectTicker_state. unfold select_in.
  destruct (find _ _); repeat split.
Qed.

End PageOnly.

Ltac collections_tac :=
  repeat first
    [ apply selectTicker_collections
    | apply (page_only_preserves same_collections _ same_collections_refl);
      first [ apply page_only_fillSectorFilter
            | apply page_only_renderWatchlist
            | apply page_only_renderNews
            | apply page_only_renderLeaderboard
            | apply page_only_refresh_catch ]
    | preserves_step same_collections_refl same_collections_trans ].

Section RefreshFacts.

Context {host : Host}.

Variable localeCompare : string -> string -> number.

(** What follows the four assignments in the [try] block. *)
Definition after_assignments (pArr : list PriceRow) : M unit :=
  fillSectorFilter ;;
  renderWatchlist ;;
  renderNews ;;
  renderLeaderboard ;;
  ts <- lift (latest_bar pArr) ;;
  text <- lift (if ToBoolean ts
                then (t <- ToString ts ;; Ok ("Latest bar: " ++ t))%js
                else Ok "Latest bar: (not available yet)") ;;
  write "subtitle" "textContent" (set_textContent text) ;;
  st <- get_state ;;
  match selected st, pArr with
  | None, first :: _ => selectTicker (ticker first)
  | _, _ => ret tt
  end ;;
  st <- get_state ;;
  match selected st with
  | Some sel =>
      match find (fun x => strict_equals (ticker x) (ticker sel)) pArr with
      | Some still => selectTicker (ticker still)
      | None => ret tt
      end
  | None => ret tt
  end.

(** The state that the four assignments build. *)
Definition assigned (pArr : list PriceRow) (nArr : list News.row)
           (lArr : list Leader.row) (s : State) : State :=
  set_sectors (new_Set (filter ToBoolean (List.map sector pArr)))
    (set_leaderboard lArr (set_news nArr (set_prices pArr s))).

Lemma refresh_try_throw (pRaw nRaw lRaw : value) (e : error) (w : World) :
  normalize_snapshots localeCompare pRaw nRaw lRaw = Throw e ->
  refresh_try localeCompare pRaw nRaw lRaw w = (Throw e, w).
Proof.
  intros E. unfold refresh_try. unfold bind at 1. unfold lift.
  rewrite E. reflexivity.
Qed.

Lemma refresh_try_ok (pRaw nRaw lRaw : value) (pArr : list PriceRow)
      (nArr : list News.row) (lArr : list Leader.row) (w : World) :
  normalize_snapshots localeCompare pRaw nRaw lRaw = Ok (pArr, nArr, lArr) ->
  refresh_try localeCompare pRaw nRaw lRaw w
  = after_assignments pArr
      {| state := assigned pArr nArr lArr (state w); dom := dom w |}.
Proof.
  intros E. unfold refresh_try. unfold bind at 1. unfold lift.
  rewrite E. reflexivity.
Qed.

Lemma after_assignments_collections (pArr : list PriceRow) :
  preserves same_collections (after_assignments pArr).
Proof. unfold after_assignments. collections_tac. Qed.

End RefreshFacts.

(** ** Refresh and the selection *)

Lemma bind_run {A B} (m : M A) (k : A -> M B) (w w' : World) (b : B) :
  bind m k w = (Ok b, w') ->
  exists a w1, m w = (Ok a, w1) /\ k a w1 = (Ok b, w').
Proof.
  unfold bind. destruct (m w) as [[a | e] w1]; intros H;
    [eauto | discriminate].
Qed.

(** Runs one statement of a sequence that ended normally: [Hm] says how the
    statement ran, [H] how the rest did. *)
Tactic Notation "run" hyp(H) "as" ident(a) ident(w1) ident(Hm) :=
  apply bind_run in H; destruct H as (a & w1 & Hm & H).

Section AfterAssignments.

Context {host : Host}.

(** A statement that writes to the page only leaves the state. *)
Lemma page_only_run {A} (m : M A) (w w1 : World) (r : result A) :
  page_only m -> m w = (r, w1) -> state w1 = state w.
Proof. intros Hm E. specialize (Hm w). rewrite E in Hm. symmetry. exact Hm. Qed.

Lemma find_again (t : value) (l : list PriceRow) (r : PriceRow) :
  find (fun x => strict_equals (ticker x) t) l = Some r ->
  find (fun x => strict_equals (ticker x) (ticker r)) l = Some r.
Proof.
  induction l as [ | x rest IH]; simpl; [discriminate | ].
  destruct (strict_equals (ticker x) t) eqn:Ex.
  - intros H. inversion H; subst x; clear H.
    rewrite (strict_equals_trans _ _ _ Ex (strict_equals_sym _ _ Ex)).
    reflexivity.
  - intros H. specialize (IH H).
    destruct (strict_equals (ticker x) (ticker r)) eqn:Er; [ | exact IH].
    apply find_some in H as [_ Hr].
    rewrite (strict_equals_trans _ _ _ Er Hr) in Ex. discriminate.
Qed.

(** The state after the two selection statements that end the [try] block,
    run on state [s] with the new rows [pArr]. *)
Definition reselect (pArr : list PriceRow) (s : State) : State :=
  let s1 :=
    match selected s, pArr with
    | None, first :: _ => select_in (ticker first) s
    | _, _ => s
    end in
  match selected s1 with
  | Some sel =>
      match find (fun x => strict_equals (ticker x) (ticker sel)) pArr with
      | Some still => select_in (ticker still) s1
      | None => s1
      end
  | None => s1
  end.

Lemma after_assignments_state (pArr : list PriceRow) (w w' : World) :
  after_assignments pArr w = (Ok tt, w') ->
  state w' = reselect pArr (state w).
Proof.
  unfold after_assignments. intros H.
  run H as u1 w1 R1. apply (page_only_run _ _ _ _ page_only_fillSectorFilter) in R1.
  run H as u2 w2 R2. apply (page_only_run _ _ _ _ page_only_renderWatchlist) in R2.
  run H as u3 w3 R3. apply (page_only_run _ _ _ _ page_only_renderNews) in R3.
  run H as u4 w4 R4. apply (page_only_run _ _ _ _ page_only_renderLeaderboard) in R4.
  run H as ts w5 R5. apply (page_only_run _ _ _ _ (preserves_lift eq (@eq_refl State) _)) in R5.
  run H as text w6 R6. apply (page_only_run _ _ _ _ (preserves_lift eq (@eq_refl State) _)) in R6.
  run H as u7 w7 R7.
  apply (page_only_run _ _ _ _ (preserves_write eq (@eq_refl State) _ _ _)) in R7.
  assert (E : state w7 = state w) by congruence. clear R1 R2 R3 R4 R5 R6 R7.
  run H as st w8 R8. unfold get_state in R8. inversion R8; subst st w8; clear R8.
  run H as u9 w9 R9.
  assert (E9 : state w9
               = match selected (state w), pArr with
                 | None, first :: _ => select_in (ticker first) (state w)
                 | _, _ => state w
                 end).
  { rewrite E in R9. destruct (selected (state w)); [ | destruct pArr as [ | first rest]].
    - inversion R9; subst w9. exact E.
    - inversion R9; subst w9. exact E.
    - pose proof (selectTicker_state (ticker first) w7) as K.
      rewrite R9 in K. cbn [snd] in K. rewrite K, E. reflexivity. }
  run H as st w10 R10. unfold get_state in R10. inversion R10; subst st w10; clear R10.
  unfold reselect. cbv zeta. rewrite <- E9.
  destruct (selected (state w9)) as [sel | ].
  - destruct (find _ pArr) as [still | ].
    + pose proof (selectTicker_state (ticker still) w9) as K.
      rewrite H in K. exact K.
    + inversion H. reflexivity.
  - inversion H. reflexivity.
Qed.

(** What the selection is after a refresh that found the selection [old]
    and produced the rows [pArr]. *)
Definition selection_after (old : option PriceRow) (pArr : list PriceRow)
  : option PriceRow :=
  match old with
  | Some sel =>
      match find (fun x => strict_equals (ticker x) (ticker sel)) pArr with
      | Some still => Some still
      | None => Some sel
      end
  | None =>
      match pArr with
      | first :: _ => Some first
      | [] => None
      end
  end.

Lemma select_in_prices (t : value) (s : State) :
  prices (select_in t s) = prices s.
Proof. unfold select_in. destruct (find _ _); reflexivity. Qed.

Lemma reselect_assigned (pArr : list PriceRow) (nArr : list News.row)
      (lArr : list Leader.row) (s : State) :
  Forall (fun r => ToBoolean (ticker r) = true) pArr ->
  prices (reselect pArr (assigned pArr nArr lArr s)) = pArr
  /\ selected (reselect pArr (assigned pArr nArr lArr s))
     = selection_after (selected s) pArr.
Proof.
  intros Ht. unfold reselect, selection_after. cbv zeta.
  set (s0 := assigned pArr nArr lArr s).
  assert (P0 : prices s0 = pArr) by reflexivity.
  assert (S0 : selected s0 = selected s) by reflexivity.
  rewrite S0. destruct (selected s) as [old | ].
  - rewrite S0.
    destruct (find (fun x => strict_equals (ticker x) (ticker old)) pArr)
      as [still | ] eqn:F.
    + unfold select_in. rewrite P0, (find_again _ _ _ F). split; reflexivity.
    + split; [exact P0 | exact S0].
  - destruct pArr as [ | first rest].
    + rewrite S0. split; [exact P0 | exact S0].
    + assert (Hf : strict_equals (ticker first) (ticker first) = true)
        by (apply strict_equals_refl; inversion Ht; assumption).
      assert (F : find (fun x => strict_equals (ticker x) (ticker first))
                    (first :: rest) = Some first)
        by (simpl; rewrite Hf; reflexivity).
      assert (K : select_in (ticker first) s0 = set_selected (Some first) s0)
        by (unfold select_in; rewrite P0, F; reflexivity).
      rewrite K. cbn [selected set_selected]. rewrite F.
      unfold select_in. cbn [prices set_selected]. rewrite P0, F.
      cbn [prices selected set_selected]. split; [exact P0 | reflexivity].
Qed.

End AfterAssignments.

Section RefreshSelection.

Context {host : Host}.

Variable localeCompare : string -> string -> number.

Lemma normalize_snapshots_tickers (pRaw nRaw lRaw : value)
      (pArr : list PriceRow) (nArr : list News.row) (lArr : list Leader.row) :
  normalize_snapshots localeCompare pRaw nRaw lRaw = Ok (pArr, nArr, lArr) ->
  Forall (fun r => ToBoolean (ticker r) = true) pArr.
Proof.
  unfold normalize_snapshots. intros H.
  bind_ok H as pRows E1. bind_ok H as pAll E2. bind_ok H as nRows E3.
  bind_ok H as nAll E4. bind_ok H as lRows E5. bind_ok H as lAll E6.
  bind_ok H as nSorted E7. inversion H; subst.
  apply Forall_forall. intros r Hr. apply filter_In in Hr. apply Hr.
Qed.

(** C1 (as amended).  When the [try] block of [refresh] runs to its end:
    if the ticker that was selected is still among the new price rows, the
    first row with that ticker becomes the selection; if nothing was
    selected, the first row of the snapshot, in the producer's order, is
    selected, and the selection stays empty when there are no rows; a
    selection whose ticker is not among the new rows is left as it was.
    So the selection is one of the current price rows whenever nothing was
    selected before or the selected ticker is still there. *)
Theorem refresh_selection (p n l : result value) (w : World) :
  fst (refresh_try localeCompare (or_empty p) (or_empty n) (or_empty l) w)
  = Ok tt ->
  let s' := state (snd (refresh localeCompare p n l w)) in
  selected s' = selection_after (selected (state w)) (prices s')
  /\ (forall r, selected s' = Some r ->
        selected (state w) = None
        \/ (exists sel still,
               selected (state w) = Some sel
               /\ find (fun x => strict_equals (ticker x) (ticker sel))
                    (prices s') = Some still) ->
        In r (prices s')).
Proof.
  intros Hok. cbv zeta. unfold refresh, try_catch.
  destruct (normalize_snapshots localeCompare (or_empty p) (or_empty n)
              (or_empty l)) as [[[pArr nArr] lArr] | e] eqn:E.
  - rewrite (refresh_try_ok _ _ _ _ _ _ _ _ E) in *.
    destruct (after_assignments pArr _) as [[[] | e] w1] eqn:R;
      [ | discriminate Hok].
    cbn [fst snd]. rewrite (after_assignments_state _ _ _ R). cbn [state].
    destruct (reselect_assigned pArr nArr lArr (state w)
                (normalize_snapshots_tickers _ _ _ _ _ _ E)) as [Hp Hs].
    rewrite Hp, Hs. split; [reflexivity | ].
    intros r Hr Hcase. unfold selection_after in Hr.
    destruct Hcase as [Hnone | (sel & still & Hsel & Hfind)].
    + rewrite Hnone in Hr. destruct pArr as [ | first rest];
        [discriminate | ]. inversion Hr. left. reflexivity.
    + rewrite Hsel, Hfind in Hr. inversion Hr; subst r.
      apply find_some in Hfind. apply Hfind.
  - rewrite (refresh_try_throw _ _ _ _ _ _ E) in Hok. discriminate Hok.
Qed.

(** The state after the first of the two selection statements. *)
Definition first_selected (pArr : list PriceRow) (s : State) : State :=
  match selected s, pArr with
  | None, first :: _ => select_in (ticker first) s
  | _, _ => s
  end.

(** A statement that writes to the page only, then the rest. *)
Lemma page_only_then {A B} (m : M A) (k : A -> M B) (w : World)
      (s : State) (Q : State -> Prop) :
  page_only m -> state w = s -> Q s ->
  (forall a w1, state w1 = s -> Q (state (snd (k a w1)))) ->
  Q (state (snd (bind m k w))).
Proof.
  intros Hm Hs HQ Hk. unfold bind. specialize (Hm w).
  destruct (m w) as [[a | e] w1]; cbn [fst snd] in *.
  - apply Hk. congruence.
  - rewrite <- Hm, Hs. exact HQ.
Qed.

Lemma bind_unfold {A B} (m : M A) (k : A -> M B) (w : World) :
  bind m k w
  = match m w with
    | (Ok a, w1) => k a w1
    | (Throw e, w1) => (Throw e, w1)
    end.
Proof. reflexivity. Qed.

Lemma lift_page_only {A} (r : result A) : page_only (lift r).
Proof. apply preserves_lift. reflexivity. Qed.

Lemma write_page_only (id prop : string) (f : Element -> Element) :
  page_only (write id prop f).
Proof. apply preserves_write. reflexivity. Qed.

(** Wherever the statements that follow the assignments stop, the state is
    the one they found, or that with the first selection made, or that with
    both. *)
Lemma after_assignments_states (pArr : list PriceRow) (w : World) :
  let s' := state (snd (after_assignments pArr w)) in
  s' = state w \/ s' = first_selected pArr (state w)
  \/ s' = reselect pArr (state w).
Proof.
  cbv zeta.
  pose (Q := fun s' : State =>
               s' = state w \/ s' = first_selected pArr (state w)
               \/ s' = reselect pArr (state w)).
  assert (Q0 : Q (state w)) by (left; reflexivity).
  change (Q (state (snd (after_assignments pArr w)))).
  unfold after_assignments.
  apply (page_only_then _ _ _ _ Q page_only_fillSectorFilter eq_refl Q0).
  intros _ w1 E1.
  apply (page_only_then _ _ _ _ Q page_only_renderWatchlist E1 Q0).
  intros _ w2 E2.
  apply (page_only_then _ _ _ _ Q page_only_renderNews E2 Q0).
  intros _ w3 E3.
  apply (page_only_then _ _ _ _ Q page_only_renderLeaderboard E3 Q0).
  intros _ w4 E4.
  apply (page_only_then _ _ _ _ Q (lift_page_only _) E4 Q0).
  intros ts w5 E5.
  apply (page_only_then _ _ _ _ Q (lift_page_only _) E5 Q0).
  intros text w6 E6.
  apply (page_only_then _ _ _ _ Q (write_page_only _ _ _) E6 Q0).
  intros _ w7 E.
  clear E1 E2 E3 E4 E5 E6.
  rewrite bind_unfold. change (get_state w7) with (Ok (state w7), w7).
  cbv beta iota. unfold Q. clear Q Q0.
  assert (Second :
            forall w9, state w9 = first_selected pArr (state w) ->
              state (snd ((st <- get_state ;;
                           match selected st with
                           | Some sel =>
                               match find (fun x => strict_equals (ticker x)
                                                      (ticker sel)) pArr with
                               | Some still => selectTicker (ticker still)
                               | None => ret tt
                               end
                           | None => ret tt
                           end) w9))
              = reselect pArr (state w)).
  { intros w9 E9. rewrite bind_unfold.
    change (get_state w9) with (Ok (state w9), w9).
    cbv beta iota. unfold reselect. cbv zeta.
    change (match selected (state w), pArr with
            | None, first :: _ => select_in (ticker first) (state w)
            | _, _ => state w
            end) with (first_selected pArr (state w)).
    rewrite <- E9.
    destruct (selected (state w9)) as [sel | ]; [ | reflexivity].
    destruct (find _ pArr) as [still | ]; [ | reflexivity].
    apply selectTicker_state. }
  assert (First :
            forall m : M unit,
              state (snd (m w7)) = first_selected pArr (state w) ->
              let s' :=
                state (snd (bind m (fun _ =>
                         st <- get_state ;;
                         match selected st with
                         | Some sel =>
                             match find (fun x => strict_equals (ticker x)
                                                    (ticker sel)) pArr with
                             | Some still => selectTicker (ticker still)
                             | None => ret tt
                             end
                         | None => ret tt
                         end) w7)) in
              s' = state w \/ s' = first_selected pArr (state w)
              \/ s' = reselect pArr (state w)).
  { intros m Hm. cbv zeta. rewrite bind_unfold.
    destruct (m w7) as [[[] | e] w9]; cbn [fst snd] in *.
    - right. right. exact (Second w9 Hm).
    - right. left. exact Hm. }
  destruct (selected (state w7)) as [sel | ] eqn:Es.
  - apply (First (ret tt)). cbn [ret snd]. rewrite E. unfold first_selected.
    rewrite <- E, Es. reflexivity.
  - destruct pArr as [ | first rest].
    + apply (First (ret tt)). cbn [ret snd]. rewrite E. unfold first_selected.
      rewrite <- E, Es. reflexivity.
    + apply (First (selectTicker (ticker first))).
      rewrite selectTicker_state, E. unfold first_selected.
      rewrite <- E, Es. reflexivity.
Qed.

Lemma first_selected_assigned (pArr : list PriceRow) (nArr : list News.row)
      (lArr : list Leader.row) (s : State) :
  Forall (fun r => ToBoolean (ticker r) = true) pArr ->
  selected (first_selected pArr (assigned pArr nArr lArr s)) = selected s
  \/ selected (first_selected pArr (assigned pArr nArr lArr s))
     = selection_after (selected s) pArr.
Proof.
  intros Ht. unfold first_selected, selection_after.
  assert (S0 : selected (assigned pArr nArr lArr s) = selected s)
    by reflexivity.
  rewrite S0.
  destruct (selected s) as [old | ] eqn:Es; [left; exact S0 | ].
  destruct pArr as [ | first rest]; [left; exact S0 | ].
  right. unfold select_in.
  change (prices (assigned (first :: rest) nArr lArr s)) with (first :: rest).
  cbn [find].
  rewrite (strict_equals_refl (ticker first)) by (inversion Ht; assumption).
  reflexivity.
Qed.

(** C10 (as amended).  When normalising any of the three snapshots throws,
    [refresh] leaves [state] exactly as it was.  When all three normalise,
    [prices], [news], [leaderboard] and [sectors] are replaced together, and
    they hold the new collections when [refresh] returns, whether or not
    something threw afterwards; the selection is then the one from before,
    or already the one that the refresh makes. *)
Theorem refresh_collections (p n l : result value) (w : World) :
  let w' := snd (refresh localeCompare p n l w) in
  match normalize_snapshots localeCompare
          (or_empty p) (or_empty n) (or_empty l) with
  | Throw _ => state w' = state w
  | Ok (pArr, nArr, lArr) =>
      prices (state w') = pArr
      /\ news (state w') = nArr
      /\ leaderboard (state w') = lArr
      /\ sectors (state w')
         = new_Set (filter ToBoolean (List.map sector pArr))
      /\ (selected (state w') = selected (state w)
          \/ selected (state w')
             = selection_after (selected (state w)) pArr)
  end.
Proof.
  cbv zeta. unfold refresh, try_catch.
  destruct (normalize_snapshots localeCompare (or_empty p) (or_empty n)
              (or_empty l)) as [[[pArr nArr] lArr] | e] eqn:E.
  - rewrite (refresh_try_ok _ _ _ _ _ _ _ _ E).
    set (w0 := {| state := assigned pArr nArr lArr (state w); dom := dom w |}).
    pose proof (after_assignments_collections pArr w0) as H.
    pose proof (after_assignments_states pArr w0) as K. cbv zeta in K.
    assert (S : state (snd (match after_assignments pArr w0 with
                            | (Ok a, w1) => (Ok a, w1)
                            | (Throw e, w1) => refresh_catch e w1
                            end))
                = state (snd (after_assignments pArr w0))).
    { destruct (after_assignments pArr w0) as [[[] | e] w1]; cbn [fst snd];
        [reflexivity | ].
      symmetry. apply (page_only_refresh_catch e w1). }
    rewrite S. clear S.
    destruct H as (H1 & H2 & H3 & H4). unfold w0 in *. clear w0.
    cbn in H1, H2, H3, H4. cbn [state] in K.
    repeat (split; [congruence | ]).
    pose proof (normalize_snapshots_tickers _ _ _ _ _ _ E) as Ht.
    destruct K as [K | [K | K]]; rewrite K.
    + left. reflexivity.
    + apply first_selected_assigned. exact Ht.
    + right. apply (reselect_assigned pArr nArr lArr (state w) Ht).
  - rewrite (refresh_try_throw _ _ _ _ _ _ E).
    symmetry. apply (page_only_refresh_catch e w).
Qed.

End RefreshSelection.

(** Snapshots to run [refresh] on: the single row of the first scenario,
    two rows out of ticker order, and no rows. *)
Definition abc_prices : value := Arr 10 [abc_record].

Definition zzz_aaa_prices : value :=
  Arr 20 [Obj 21 [("ticker", Str "ZZZ")]; Obj 22 [("ticker", Str "AAA")]].

Definition no_rows : value := Arr 30 [].

Lemma refresh_selection_witness :
  let s' :=
    state (snd (refresh ordinal_compare (Ok abc_prices) (Ok no_rows)
                  (Ok no_rows) start)) in
  selected s' = Some abc_row /\ In abc_row (prices s').
Proof.
  cbv zeta.
  assert (Hok : fst (refresh_try ordinal_compare (or_empty (Ok abc_prices))
                       (or_empty (Ok no_rows)) (or_empty (Ok no_rows)) start)
                = Ok tt) by (vm_compute; reflexivity).
  destruct (refresh_selection ordinal_compare (Ok abc_prices) (Ok no_rows)
              (Ok no_rows) start Hok) as [Hsel Hin].
  assert (Hrow : selected
                   (state (snd (refresh ordinal_compare (Ok abc_prices)
                                  (Ok no_rows) (Ok no_rows) start)))
                 = Some abc_row) by (vm_compute; reflexivity).
  split; [exact Hrow | ].
  apply Hin; [exact Hrow | left; reflexivity].
Defined.

(** The page and state after a first refresh that selected [ABC]. *)
Definition abc_selected : World :=
  snd (refresh ordinal_compare (Ok abc_prices) (Ok no_rows) (Ok no_rows) start).

(** C1, as stated, fails.  With [ABC] selected, a refresh whose rows are
    [ZZZ] and [AAA] runs to its end and leaves the row [ABC] selected: it is
    not among the current prices, and the selection was not moved to a
    current row.  A refresh without rows leaves it selected too, not
    cleared.  And with nothing selected, the refresh selects [ZZZ], the
    first row of the snapshot, not [AAA], the first in ticker order. *)
Lemma refresh_selection_counterexample :
  let refreshed w rows :=
    refresh ordinal_compare (Ok rows) (Ok no_rows) (Ok no_rows) w in
  let tickers w := List.map ticker (prices (state w)) in
  let chosen w := option_map ticker (selected (state w)) in
  chosen abc_selected = Some (Str "ABC")
  /\ fst (refresh_try ordinal_compare zzz_aaa_prices no_rows no_rows
            abc_selected) = Ok tt
  /\ tickers (snd (refreshed abc_selected zzz_aaa_prices))
     = [Str "ZZZ"; Str "AAA"]
  /\ chosen (snd (refreshed abc_selected zzz_aaa_prices)) = Some (Str "ABC")
  /\ tickers (snd (refreshed abc_selected no_rows)) = []
  /\ chosen (snd (refreshed abc_selected no_rows)) = Some (Str "ABC")
  /\ chosen (snd (refreshed start zzz_aaa_prices)) = Some (Str "ZZZ").
Proof. vm_compute. repeat split; reflexivity. Qed.

(** A price snapshot that normalises and cannot be rendered: the ticker is
    an object with an own [toString] property, which is not callable. *)
Definition unprintable_prices : value :=
  Arr 40 [Obj 41 [("ticker", Obj 42 [("toString", Null)])]].

Definition subtitle_text (w : World) : option string :=
  option_map el_textContent (find_element (dom w) "subtitle").

(** A record whose series holds an object with an own [toString] property,
    and its row. *)
Definition odd_series_record : value :=
  Obj 70 [("ticker", Str "ODD");
          ("series", Arr 71 [Obj 72 [("toString", Null)]; Num 1])].

Definition odd_series_row : PriceRow :=
  {| ticker := Str "ODD"; company := Str ""; sector := Str "";
     last := None; prev := None; chg := None; pctChg := None; volume := None;
     timestamp := Str ""; regime := Str ""; macro_headline := Str "";
     series := Some [Obj 72 [("toString", Null)]; Num 1];
     raw := odd_series_record |}.

(** A price snapshot that normalises and is rendered, and whose row cannot
    be drawn. *)
Definition odd_prices : value := Arr 43 [odd_series_record].

(** C10, as stated, fails.  The watchlist throws on the first snapshot
    after the three fetches have resolved, the [catch] block reports it, and
    the prices are no longer those from before the call.  On the second
    snapshot, with nothing selected, the chart throws after [selectTicker]
    has stored the new selection: the selection is no longer the one from
    before either. *)
Lemma refresh_collections_counterexample :
  let w' :=
    snd (refresh ordinal_compare (Ok unprintable_prices) (Ok no_rows)
           (Ok no_rows) abc_selected) in
  let w2 :=
    snd (refresh ordinal_compare (Ok odd_prices) (Ok no_rows) (Ok no_rows)
           start) in
  fst (refresh_try ordinal_compare unprintable_prices no_rows no_rows
         abc_selected)
  = Throw (TypeError "Cannot convert object to primitive value")
  /\ subtitle_text w'
     = Some "Error loading snapshots: Cannot convert object to primitive value"
  /\ List.map ticker (prices (state abc_selected)) = [Str "ABC"]
  /\ List.map ticker (prices (state w')) = [Obj 42 [("toString", Null)]]
  /\ option_map ticker (selected (state w')) = Some (Str "ABC")
  /\ fst (refresh_try ordinal_compare odd_prices no_rows no_rows start)
     = Throw (TypeError "Cannot convert object to primitive value")
  /\ selected (state start) = None
  /\ selected (state w2) = Some odd_series_row.
Proof. vm_compute. repeat split; reflexivity. Qed.

(** ** Sorting returns a permutation *)

Local Open Scope list_scope.

Section SortFacts.

Context {A : Type} (comparefn : A -> A -> result number).

(** The comparator returns normally on every two elements of [l]. *)
Definition compares (l : list A) : Prop :=
  forall x y, In x l -> In y l -> exists v, comparefn x y = Ok v.

Lemma before_ok (l : list A) (x y : A) :
  compares l -> In x l -> In y l -> exists b, before comparefn x y = Ok b.
Proof.
  intros H Hx Hy. unfold before. destruct (H x y Hx Hy) as [v ->].
  simpl. eauto.
Qed.

Lemma extend_run_ok (L : list A) (Hc : compares L) :
  forall (l : list A) (descending : bool) (prev : A) (acc : list A),
    In prev L -> incl l L ->
    exists run rest,
      extend_run comparefn descending prev l acc = Ok (run, rest)
      /\ Permutation (run ++ rest) (acc ++ l).
Proof.
  induction l as [ | x l' IH]; intros descending prev acc Hp Hl; simpl.
  - exists acc, []. split; [reflexivity | apply Permutation_refl].
  - assert (Hx : In x L) by (apply Hl; left; reflexivity).
    destruct (before_ok L x prev Hc Hx Hp) as [lt ->]. cbn [rbind].
    destruct (Bool.eqb lt descending).
    + destruct (IH descending x (x :: acc) Hx) as (run & rest & E & P).
      { intros y Hy. apply Hl. right. exact Hy. }
      exists run, rest. split; [exact E | ].
      eapply Permutation_trans; [exact P | ].
      simpl. apply Permutation_middle.
    + exists acc, (x :: l'). split; [reflexivity | apply Permutation_refl].
Qed.

Lemma search_ok (L : list A) (Hc : compares L) (pivot : A) (sorted : list A) :
  In pivot L -> incl sorted L ->
  forall (fuel left right : nat),
    exists i, search comparefn fuel pivot sorted left right = Ok i.
Proof.
  intros Hp Hs. induction fuel as [ | fuel IH]; intros left right; simpl;
    [eauto | ].
  destruct (left <? right)%nat; [ | eauto].
  destruct (nth_error sorted (left + Nat.div2 (right - left))) as [m | ] eqn:E;
    [ | eauto].
  assert (Hm : In m L) by (apply Hs; eapply nth_error_In; exact E).
  destruct (before_ok L pivot m Hc Hp Hm) as [lt ->]. cbn [rbind].
  destruct lt; apply IH.
Qed.

Lemma insert_all_ok (L : list A) (Hc : compares L) :
  forall (rest sorted : list A),
    incl sorted L -> incl rest L ->
    exists out,
      insert_all comparefn sorted rest = Ok out
      /\ Permutation out (sorted ++ rest).
Proof.
  induction rest as [ | pivot rest IH]; intros sorted Hs Hr; cbn [insert_all].
  - exists sorted. split; [reflexivity | ].
    rewrite app_nil_r. apply Permutation_refl.
  - assert (Hp : In pivot L) by (apply Hr; left; reflexivity).
    destruct (search_ok L Hc pivot sorted Hp Hs (S (List.length sorted)) 0
                (List.length sorted)) as [i E].
    rewrite E. cbn [rbind].
    assert (P : Permutation (firstn i sorted ++ pivot :: skipn i sorted)
                  (pivot :: sorted)).
    { apply Permutation_sym.
      rewrite <- (firstn_skipn i sorted) at 1. apply Permutation_middle. }
    destruct (IH (firstn i sorted ++ pivot :: skipn i sorted)) as (out & Eo & Po).
    + intros y Hy. apply (Permutation_in _ P) in Hy.
      destruct Hy as [<- | Hy]; [exact Hp | apply Hs, Hy].
    + intros y Hy. apply Hr. right. exact Hy.
    + exists out. split; [exact Eo | ].
      eapply Permutation_trans; [exact Po | ].
      eapply Permutation_trans;
        [apply Permutation_app_tail; exact P | ].
      simpl. apply Permutation_middle.
Qed.

(** When the comparator never throws on the elements of [l], [sort]
    returns, and what it returns is [l] in another order. *)
Lemma sort_ok (l : list A) :
  compares l -> exists out, sort comparefn l = Ok out /\ Permutation l out.
Proof.
  intros Hc. destruct l as [ | a [ | b rest]];
    [ eexists; split; [reflexivity | apply Permutation_refl] ..  | ].
  unfold sort.
  assert (Ha : In a (a :: b :: rest)) by (left; reflexivity).
  assert (Hb : In b (a :: b :: rest)) by (right; left; reflexivity).
  destruct (before_ok _ b a Hc Hb Ha) as [descending ->]. cbn [rbind].
  destruct (extend_run_ok _ Hc rest descending b [b; a] Hb)
    as (run & rest' & E & P).
  { intros y Hy. right. right. exact Hy. }
  rewrite E. cbn [rbind fst snd].
  assert (Pl : Permutation (run ++ rest') (a :: b :: rest)).
  { eapply Permutation_trans; [exact P | ]. simpl. apply perm_swap. }
  assert (Pr : Permutation (if descending then run else rev run) run)
    by (destruct descending;
        [apply Permutation_refl | apply Permutation_sym, Permutation_rev]).
  destruct (insert_all_ok _ Hc rest' (if descending then run else rev run))
    as (out & Eo & Po).
  - intros y Hy. apply (Permutation_in _ Pl). apply in_or_app. left.
    apply (Permutation_in _ Pr). exact Hy.
  - intros y Hy. apply (Permutation_in _ Pl). apply in_or_app. right.
    exact Hy.
  - exists out. split; [exact Eo | ].
    apply Permutation_sym.
    eapply Permutation_trans; [exact Po | ].
    eapply Permutation_trans; [apply Permutation_app_tail; exact Pr | ].
    exact Pl.
Qed.

End SortFacts.

(** *** When [sort] returns and when it throws *)

Section SortResults.

Context {A : Type} (comparefn : A -> A -> result number).

Lemma extend_run_perm :
  forall (l : list A) (descending : bool) (prev : A) (acc run rest : list A),
    extend_run comparefn descending prev l acc = Ok (run, rest) ->
    Permutation (run ++ rest) (acc ++ l) /\ (acc <> [] -> run <> []).
Proof.
  induction l as [ | x l' IH]; intros descending prev acc run rest; simpl.
  - intros H. inversion H; subst. split; [apply Permutation_refl | auto].
  - destruct (before comparefn x prev) as [lt | e]; cbn [rbind];
      [ | discriminate].
    destruct (Bool.eqb lt descending).
    + intros H. destruct (IH _ _ _ _ _ H) as [P N]. split.
      * eapply Permutation_trans; [exact P | ].
        simpl. apply Permutation_middle.
      * intros _. apply N. discriminate.
    + intros H. inversion H; subst. split; [apply Permutation_refl | auto].
Qed.

Lemma insert_all_perm :
  forall (rest sorted out : list A),
    insert_all comparefn sorted rest = Ok out ->
    Permutation out (sorted ++ rest).
Proof.
  induction rest as [ | pivot rest IH]; intros sorted out; cbn [insert_all].
  - intros H. inversion H; subst. rewrite app_nil_r. apply Permutation_refl.
  - destruct (search comparefn (S (List.length sorted)) pivot sorted 0
                (List.length sorted)) as [i | e]; cbn [rbind];
      [ | discriminate].
    intros H. apply IH in H.
    assert (P : Permutation (firstn i sorted ++ pivot :: skipn i sorted)
                  (pivot :: sorted)).
    { apply Permutation_sym.
      rewrite <- (firstn_skipn i sorted) at 1. apply Permutation_middle. }
    eapply Permutation_trans; [exact H | ].
    eapply Permutation_trans; [apply Permutation_app_tail; exact P | ].
    simpl. apply Permutation_middle.
Qed.

(** What [sort] returns is its argument in another order. *)
Lemma sort_perm (l out : list A) :
  sort comparefn l = Ok out -> Permutation l out.
Proof.
  destruct l as [ | a [ | b rest]];
    try (intros H; inversion H; subst; apply Permutation_refl).
  unfold sort.
  destruct (before comparefn b a) as [descending | e]; cbn [rbind];
    [ | discriminate].
  destruct (extend_run comparefn descending b rest [b; a])
    as [[run rest'] | e] eqn:E; cbn [rbind fst snd]; [ | discriminate].
  intros H. apply insert_all_perm in H.
  destruct (extend_run_perm _ _ _ _ _ _ E) as [P _].
  apply Permutation_sym.
  eapply Permutation_trans; [exact H | ].
  eapply Permutation_trans;
    [apply Permutation_app_tail;
     instantiate (1 := run);
     destruct descending;
     [apply Permutation_refl | apply Permutation_sym, Permutation_rev] | ].
  eapply Permutation_trans; [exact P | ]. simpl. apply perm_swap.
Qed.

(** The comparator returns exactly on two elements that are both [good]. *)
Variable good : A -> bool.
Hypothesis compare_ok :
  forall x y, is_ok (comparefn x y) = good x && good y.

Definition bad_in (l : list A) : Prop := exists x, In x l /\ good x = false.

Lemma before_bad (x y : A) :
  good x = false \/ good y = false -> exists e, before comparefn x y = Throw e.
Proof.
  intros H. unfold before. pose proof (compare_ok x y) as K.
  destruct (comparefn x y) as [v | e]; [ | simpl; eauto].
  simpl in K. destruct H as [H | H]; rewrite H in K;
    [discriminate | rewrite Bool.andb_false_r in K; discriminate].
Qed.

Lemma before_good (x y : A) (b : bool) :
  before comparefn x y = Ok b -> good x = true /\ good y = true.
Proof.
  intros H.
  destruct (good x) eqn:Gx;
    [ | destruct (before_bad x y (or_introl Gx)) as [e E]; congruence].
  destruct (good y) eqn:Gy;
    [ | destruct (before_bad x y (or_intror Gy)) as [e E]; congruence].
  split; reflexivity.
Qed.

Lemma extend_run_bad :
  forall (l : list A) (descending : bool) (prev : A) (acc : list A),
    bad_in l ->
    (exists e, extend_run comparefn descending prev l acc = Throw e)
    \/ (exists run rest,
           extend_run comparefn descending prev l acc = Ok (run, rest)
           /\ bad_in rest).
Proof.
  induction l as [ | x l' IH]; intros descending prev acc (y & Hy & By).
  - destruct Hy.
  - simpl. destruct (before comparefn x prev) as [lt | e] eqn:E; cbn [rbind];
      [ | left; eauto].
    destruct (before_good _ _ _ E) as [Gx _].
    destruct (Bool.eqb lt descending).
    + apply IH. exists y. split; [ | exact By].
      destruct Hy as [<- | Hy]; [congruence | exact Hy].
    + right. exists acc, (x :: l'). split; [reflexivity | ].
      exists y. split; assumption.
Qed.

Lemma forallb_false {B} (f : B -> bool) (l : list B) :
  forallb f l = false -> exists x, In x l /\ f x = false.
Proof.
  induction l as [ | a l IH]; simpl; [discriminate | ].
  destruct (f a) eqn:E; simpl; intros H.
  - destruct (IH H) as (x & Hx & Fx). exists x. auto.
  - exists a. auto.
Qed.

Lemma div2_lt (n : nat) : (0 < n)%nat -> (Nat.div2 n < n)%nat.
Proof. intros H. apply Nat.lt_div2. exact H. Qed.

Lemma search_bad (pivot : A) (sorted : list A) :
  good pivot = false -> sorted <> [] ->
  exists e,
    search comparefn (S (List.length sorted)) pivot sorted 0
      (List.length sorted) = Throw e.
Proof.
  intros Bp Hs. cbn [search].
  assert (Hl : (0 < List.length sorted)%nat)
    by (destruct sorted; [contradiction | simpl; apply Nat.lt_0_succ]).
  destruct (Nat.ltb_spec 0 (List.length sorted)) as [_ | K];
    [ | exfalso; apply (Nat.lt_irrefl 0);
        eapply Nat.lt_le_trans; [exact Hl | exact K]].
  rewrite Nat.sub_0_r, Nat.add_0_l.
  destruct (nth_error sorted (Nat.div2 (List.length sorted))) as [m | ] eqn:E.
  - destruct (before_bad pivot m (or_introl Bp)) as [e ->]. simpl. eauto.
  - apply nth_error_None in E. exfalso.
    apply (Nat.lt_irrefl (List.length sorted)).
    eapply Nat.le_lt_trans; [exact E | apply div2_lt, Hl].
Qed.

Lemma insert_all_bad :
  forall (rest sorted : list A),
    sorted <> [] -> bad_in rest ->
    exists e, insert_all comparefn sorted rest = Throw e.
Proof.
  induction rest as [ | pivot rest IH]; intros sorted Hs (y & Hy & By).
  - destruct Hy.
  - cbn [insert_all].
    destruct (search comparefn (S (List.length sorted)) pivot sorted 0
                (List.length sorted)) as [i | e] eqn:E; cbn [rbind];
      [ | eauto].
    destruct Hy as [<- | Hy].
    + destruct (search_bad pivot sorted By Hs) as [e K]. congruence.
    + apply IH.
      * destruct (firstn i sorted); discriminate.
      * exists y. split; assumption.
Qed.

Lemma sort_bad (l : list A) :
  (2 <= List.length l)%nat -> bad_in l -> exists e, sort comparefn l = Throw e.
Proof.
  destruct l as [ | a [ | b rest]]; simpl; intros Hl Hb; try lia.
  destruct (before comparefn b a) as [descending | e] eqn:E; cbn [rbind];
    [ | eauto].
  destruct (before_good _ _ _ E) as [Gb Ga].
  assert (Hr : bad_in rest).
  { destruct Hb as (y & Hy & By). exists y. split; [ | exact By].
    destruct Hy as [<- | [<- | Hy]]; [congruence | congruence | exact Hy]. }
  destruct (extend_run_bad rest descending b [b; a] Hr)
    as [[e K] | (run & rest' & K & Hb')]; rewrite K; cbn [rbind fst snd];
    [eauto | ].
  apply insert_all_bad; [ | exact Hb'].
  destruct (extend_run_perm _ _ _ _ _ _ K) as [_ N].
  assert (Hn : run <> []) by (apply N; discriminate).
  destruct descending; [exact Hn | ].
  intros R. apply Hn. rewrite <- (rev_involutive run), R. reflexivity.
Qed.

(** [sort] returns on a list of fewer than two elements, and on a longer
    one exactly when every element is [good]. *)
Lemma sort_is_ok (l : list A) :
  is_ok (sort comparefn l) = (List.length l <=? 1)%nat || forallb good l.
Proof.
  destruct (forallb good l) eqn:G.
  - rewrite Bool.orb_true_r. rewrite forallb_forall in G.
    destruct (sort_ok comparefn l) as (out & -> & _); [ | reflexivity].
    intros x y Hx Hy. pose proof (compare_ok x y) as K.
    rewrite (G x Hx), (G y Hy) in K.
    destruct (comparefn x y); [eauto | discriminate].
  - rewrite Bool.orb_false_r.
    destruct (Nat.leb_spec (List.length l) 1) as [L | L].
    + destruct l as [ | a [ | b rest]]; try reflexivity.
      simpl in L. lia.
    + destruct (sort_bad l L) as [e ->]; [ | reflexivity].
      apply forallb_false. exact G.
Qed.

End SortResults.

Lemma filterM_ok {A} (p : A -> result bool) (l : list A) :
  (forall x, In x l -> exists b, p x = Ok b) ->
  exists out,
    filterM p l = Ok out
    /\ forall x, In x out <-> In x l /\ p x = Ok true.
Proof.
  induction l as [ | a l IH]; intros H; simpl.
  - exists []. split; [reflexivity | ]. simpl. tauto.
  - destruct (H a (or_introl eq_refl)) as [b Eb]. rewrite Eb. cbn [rbind].
    destruct IH as (out & -> & Hout);
      [intros x Hx; apply H; right; exact Hx | ].
    cbn [rbind]. eexists. split; [reflexivity | ].
    intros x. destruct b; simpl; rewrite Hout; split.
    + intros [<- | [Hx Hp]]; [split; [left; reflexivity | exact Eb] | tauto].
    + intros [[<- | Hx] Hp]; [left; reflexivity | right; tauto].
    + intros [Hx Hp]. tauto.
    + intros [[<- | Hx] Hp]; [rewrite Eb in Hp; discriminate | tauto].
Qed.

Local Open Scope string_scope.

(** ** Conversions that cannot throw *)

(** [v] converts to a string without throwing. *)
Definition printable (v : value) : bool := is_ok (ToString v).

Definition primitive (v : value) : bool :=
  match v with
  | Arr _ _ | Obj _ _ => false
  | _ => true
  end.

Lemma printable_ok (v : value) :
  printable v = true -> exists s, ToString v = Ok s.
Proof.
  unfold printable. destruct (ToString v); simpl; intros H;
    [eauto | discriminate].
Qed.

Lemma primitive_printable (v : value) : primitive v = true -> printable v = true.
Proof. destruct v; simpl; intros H; try discriminate; reflexivity. Qed.

Lemma ToPrimitive_ok (v : value) :
  printable v = true ->
  exists p, ToPrimitive v = Ok p /\ primitive p = true.
Proof.
  intros H. destruct (printable_ok v H) as [s E].
  destruct v;
    try (eexists; split; [reflexivity | reflexivity]).
  - change (ToPrimitive (Arr id elems))
      with (rbind (ToString (Arr id elems)) (fun s => Ok (Str s))).
    rewrite E. exists (Str s). split; reflexivity.
  - change (ToPrimitive (Obj id props))
      with (rbind (ToString (Obj id props)) (fun s => Ok (Str s))).
    rewrite E. exists (Str s). split; reflexivity.
Qed.

Lemma ToNumber_primitive (p : value) :
  primitive p = true -> exists x, ToNumber p = Ok x.
Proof.
  destruct p; simpl; intros H; try discriminate; eexists; reflexivity.
Qed.

Lemma greater_than_ok (a b : value) :
  printable a = true -> printable b = true ->
  exists g, greater_than a b = Ok g.
Proof.
  intros Ha Hb. unfold greater_than.
  destruct (ToPrimitive_ok a Ha) as (pa & -> & Pa).
  destruct (ToPrimitive_ok b Hb) as (pb & -> & Pb). cbn [rbind].
  destruct (ToNumber_primitive pa Pa) as [x Ex].
  destruct (ToNumber_primitive pb Pb) as [y Ey].
  destruct pa; try discriminate Pa; rewrite ?Ex; cbn [rbind];
    destruct pb; try discriminate Pb; rewrite ?Ey; cbn [rbind]; eauto.
Qed.

(** ** Membership in the watchlist *)

Lemma filterM_spec {A} (p : A -> result bool) (l out : list A) :
  filterM p l = Ok out ->
  forall x, In x out <-> In x l /\ p x = Ok true.
Proof.
  revert out. induction l as [ | a l IH]; intros out; simpl.
  - intros H. inversion H; subst. simpl. tauto.
  - destruct (p a) as [b | e] eqn:Eb; cbn [rbind]; [ | discriminate].
    destruct (filterM p l) as [ys | e]; cbn [rbind]; [ | discriminate].
    intros H. inversion H; subst out; clear H. specialize (IH ys eq_refl).
    intros x. destruct b; simpl; rewrite IH; split.
    + intros [<- | [Hx Hp]]; [split; [left; reflexivity | exact Eb] | tauto].
    + intros [[<- | Hx] Hp]; [left; reflexivity | right; tauto].
    + intros [Hx Hp]. tauto.
    + intros [[<- | Hx] Hp]; [rewrite Eb in Hp; discriminate | tauto].
Qed.

Lemma filterM_is_ok {A} (p : A -> result bool) (l : list A) :
  is_ok (filterM p l) = forallb (fun x => is_ok (p x)) l.
Proof.
  induction l as [ | a l IH]; simpl; [reflexivity | ].
  destruct (p a) as [b | e]; cbn [rbind is_ok andb]; [ | reflexivity].
  rewrite <- IH. destruct (filterM p l); reflexivity.
Qed.

Lemma filterM_all {A} (p : A -> result bool) (l : list A) :
  (forall x, p x = Ok true) -> filterM p l = Ok l.
Proof.
  intros H. induction l as [ | a l IH]; simpl; [reflexivity | ].
  rewrite H, IH. reflexivity.
Qed.

Lemma forallb_same {A} (f g : A -> bool) (l : list A) :
  (forall x, f x = g x) -> forallb f l = forallb g l.
Proof.
  intros H. induction l as [ | a l IH]; simpl; [reflexivity | ].
  rewrite H, IH. reflexivity.
Qed.

Lemma ToPrimitive_is_ok (v : value) : is_ok (ToPrimitive v) = printable v.
Proof.
  unfold printable. destruct v; try reflexivity.
  - change (ToPrimitive (Arr id elems))
      with (rbind (ToString (Arr id elems)) (fun s => Ok (Str s))).
    destruct (ToString (Arr id elems)); reflexivity.
  - change (ToPrimitive (Obj id props))
      with (rbind (ToString (Obj id props)) (fun s => Ok (Str s))).
    destruct (ToString (Obj id props)); reflexivity.
Qed.

(** [a > b] returns exactly when both operands convert to primitives. *)
Lemma greater_than_is_ok (a b : value) :
  is_ok (greater_than a b) = printable a && printable b.
Proof.
  destruct (printable a) eqn:Pa.
  - destruct (printable b) eqn:Pb.
    + destruct (greater_than_ok a b Pa Pb) as [g ->]. reflexivity.
    + unfold greater_than. destruct (ToPrimitive_ok a Pa) as (pa & -> & _).
      cbn [rbind]. pose proof (ToPrimitive_is_ok b) as K. rewrite Pb in K.
      destruct (ToPrimitive b); [discriminate | reflexivity].
  - unfold greater_than. pose proof (ToPrimitive_is_ok a) as K.
    rewrite Pa in K. destruct (ToPrimitive a); [discriminate | reflexivity].
Qed.

Lemma by_ticker_is_ok (x y : PriceRow) :
  is_ok (by_ticker x y) = printable (ticker x) && printable (ticker y).
Proof.
  rewrite <- greater_than_is_ok. unfold by_ticker.
  destruct (greater_than (ticker x) (ticker y)); reflexivity.
Qed.

(** The rows that pass the ticker filter and the sector filter: the ones
    that the search filter sees. *)
Definition sector_rows (prices : list PriceRow) (chosen : string)
  : list PriceRow :=
  filter (fun r => String.eqb chosen "" || strict_equals (sector r) (Str chosen))
    (filter (fun r => ToBoolean (ticker r)) prices).

Section Watchlist.

Context {host : Host}.

Lemma matches_search_true (q : string) (r : PriceRow) :
  matches_search q r = Ok true <->
  q = ""
  \/ exists t c,
       ToString (ticker r) = Ok t /\ ToString (company r) = Ok c
       /\ includes (toUpperCase (t ++ " " ++ c)) q = true.
Proof.
  unfold matches_search. destruct (String.eqb q "") eqn:Eq.
  - apply String.eqb_eq in Eq. split; [intros _; left; exact Eq | reflexivity].
  - apply String.eqb_neq in Eq. split.
    + intros H. right.
      destruct (ToString (ticker r)) as [t | ]; [ | discriminate].
      destruct (ToString (company r)) as [c | ]; [ | discriminate].
      cbn [rbind] in H. inversion H as [Hi]. exists t, c. rewrite Hi. auto.
    + intros [Hq | (t & c & -> & -> & Hi)]; [contradiction | ].
      cbn [rbind]. rewrite Hi. reflexivity.
Qed.

(** The search predicate throws exactly when the search text is not empty
    and the ticker or the company does not convert to a string. *)
Lemma matches_search_is_ok (q : string) (r : PriceRow) :
  is_ok (matches_search q r)
  = String.eqb q "" || (printable (ticker r) && printable (company r)).
Proof.
  unfold matches_search, printable. destruct (String.eqb q ""); [reflexivity | ].
  destruct (ToString (ticker r)); cbn [rbind is_ok andb orb]; [ | reflexivity].
  destruct (ToString (company r)); reflexivity.
Qed.

(** When the watchlist is computed: with a search text, every row that the
    search filter sees must have a ticker and a company that convert to
    strings; without one, the tickers are converted only to sort two rows
    or more. *)
Definition watchlist_computed (prices : list PriceRow) (chosen q : string)
  : bool :=
  let seen := sector_rows prices chosen in
  if String.eqb q ""
  then (List.length seen <=? 1)%nat
       || forallb (fun r => printable (ticker r)) seen
  else forallb (fun r => printable (ticker r) && printable (company r)) seen.

Lemma watchlist_rows_is_ok (prices : list PriceRow) (chosen q : string) :
  is_ok (watchlist_rows prices chosen q) = watchlist_computed prices chosen q.
Proof.
  unfold watchlist_rows, watchlist_computed. cbv zeta.
  fold (sector_rows prices chosen). set (seen := sector_rows prices chosen).
  destruct (String.eqb q "") eqn:Eq.
  - rewrite filterM_all.
    + cbn [rbind].
      apply (sort_is_ok by_ticker (fun r => printable (ticker r))
               by_ticker_is_ok).
    + intros r. unfold matches_search. rewrite Eq. reflexivity.
  - pose proof (filterM_is_ok (matches_search q) seen) as K.
    assert (E : forallb (fun x => is_ok (matches_search q x)) seen
                = forallb (fun r => printable (ticker r)
                                    && printable (company r)) seen).
    { apply forallb_same. intros r. rewrite matches_search_is_ok, Eq.
      reflexivity. }
    rewrite E in K. clear E.
    destruct (filterM (matches_search q) seen) as [l3 | e] eqn:F;
      cbn [rbind is_ok] in *; [ | exact K].
    rewrite <- K.
    rewrite (sort_is_ok by_ticker (fun r => printable (ticker r))
               by_ticker_is_ok).
    assert (G : forallb (fun r => printable (ticker r)) l3 = true).
    { apply forallb_forall. intros r Hr.
      apply (filterM_spec _ _ _ F) in Hr. destruct Hr as [Hr _].
      symmetry in K. rewrite forallb_forall in K.
      apply K in Hr. apply Bool.andb_true_iff in Hr. apply Hr. }
    rewrite G. apply Bool.orb_true_r.
Qed.

(** C5 (as amended).  The watchlist is computed unless a conversion to a
    string throws, which [watchlist_computed] tells.  When it is computed,
    it holds a row exactly when the row is among the prices, its ticker is
    truthy, the sector select is on "all" or its value is the row's sector,
    and the search text, trimmed and upper-cased, is empty or occurs in the
    upper-cased text made of the ticker, one space and the company. *)
Theorem watchlist_membership (prices : list PriceRow) (chosen typed : string) :
  let q := toUpperCase (trim typed) in
  is_ok (watchlist_rows prices chosen q) = watchlist_computed prices chosen q
  /\ forall rows,
       watchlist_rows prices chosen q = Ok rows ->
       forall r,
         In r rows <->
         In r prices
         /\ ToBoolean (ticker r) = true
         /\ (chosen = "" \/ strict_equals (sector r) (Str chosen) = true)
         /\ (q = ""
             \/ exists t c,
                  ToString (ticker r) = Ok t /\ ToString (company r) = Ok c
                  /\ includes (toUpperCase (t ++ " " ++ c)) q = true).
Proof.
  cbv zeta. set (q := toUpperCase (trim typed)).
  split; [apply watchlist_rows_is_ok | ].
  intros rows H. unfold watchlist_rows in H. cbv zeta in H.
  set (l2 := filter _ (filter _ prices)) in H.
  assert (H2 : forall r, In r l2 <->
                 In r prices /\ ToBoolean (ticker r) = true
                 /\ (chosen = "" \/ strict_equals (sector r) (Str chosen) = true)).
  { intros r. unfold l2. rewrite !filter_In, Bool.orb_true_iff, String.eqb_eq.
    tauto. }
  bind_ok H as l3 F.
  pose proof (filterM_spec _ _ _ F) as H3.
  pose proof (sort_perm _ _ _ H) as Perm.
  intros r. rewrite <- matches_search_true, <- and_assoc, <- and_assoc.
  rewrite (and_assoc (In r prices)), <- H2, <- H3.
  split; intros K.
  - apply (Permutation_in _ (Permutation_sym Perm)). exact K.
  - apply (Permutation_in _ Perm). exact K.
Qed.

End Watchlist.

(** A row with ticker [AA] and company [BB], and one of the sector Energy
    whose company does not convert to a string. *)
Definition aa_bb_row : PriceRow :=
  {| ticker := Str "AA"; company := Str "BB"; sector := Str "";
     last := None; prev := None; chg := None; pctChg := None; volume := None;
     timestamp := Str ""; regime := Str ""; macro_headline := Str "";
     series := None;
     raw := Obj 50 [("ticker", Str "AA"); ("company", Str "BB")] |}.

Definition odd_company_row : PriceRow :=
  {| ticker := Str "OIL"; company := Obj 52 [("toString", Null)];
     sector := Str "Energy";
     last := None; prev := None; chg := None; pctChg := None; volume := None;
     timestamp := Str ""; regime := Str ""; macro_headline := Str "";
     series := None;
     raw := Obj 51 [("ticker", Str "OIL");
                    ("company", Obj 52 [("toString", Null)]);
                    ("sector", Str "Energy")] |}.

Lemma watchlist_membership_witness :
  watchlist_rows [aa_bb_row; odd_company_row] "" (toUpperCase (trim " aa "))
  = Throw (TypeError "Cannot convert object to primitive value")
  /\ watchlist_rows [aa_bb_row; odd_company_row] "Tech"
       (toUpperCase (trim " aa ")) = Ok []
  /\ exists rows,
       watchlist_rows [aa_bb_row] "" (toUpperCase (trim " aa ")) = Ok rows
       /\ In aa_bb_row rows.
Proof.
  split; [reflexivity | ]. split; [reflexivity | ].
  assert (E : exists rows,
             watchlist_rows [aa_bb_row] "" (toUpperCase (trim " aa "))
             = Ok rows) by (eexists; reflexivity).
  destruct E as [rows E]. exists rows. split; [exact E | ].
  apply (proj2 (watchlist_membership [aa_bb_row] "" " aa ") rows E).
  split; [left; reflexivity | ].
  split; [reflexivity | ].
  split; [left; reflexivity | ].
  right. exists "AA", "BB". repeat split; reflexivity.
Defined.

(** C5, as stated, fails: the search text [a b] is in neither the ticker
    [AA] nor the company [BB], whatever the case, and the row is in the
    watchlist, because the text is found across the two fields. *)
Lemma watchlist_membership_counterexample :
  let q := toUpperCase (trim "a b") in
  watchlist_rows [aa_bb_row] "" q = Ok [aa_bb_row]
  /\ includes (toUpperCase "AA") q = false
  /\ includes (toUpperCase "BB") q = false.
Proof. vm_compute. repeat split; reflexivity. Qed.

(** ** The span of the sparkline *)

(** A finite number is a zero or has a mantissa and an exponent. *)
Definition sf_regular (x : spec_float) : bool :=
  match x with
  | S754_zero _ | S754_finite _ _ _ => true
  | _ => false
  end.

Lemma finite_regular (x : number) :
  is_finite x = true -> sf_regular (Prim2SF x) = true.
Proof.
  unfold is_finite. rewrite Bool.negb_true_iff, Bool.orb_false_iff.
  intros [Hn Hi]. unfold Prim2SF. rewrite Hn.
  destruct (is_zero x); [reflexivity | ]. rewrite Hi.
  destruct (Z.frexp x) as [r e].
  destruct (shr_fexp prec emax _ _ _) as [shr e'].
  destruct (shr_m shr); reflexivity.
Qed.

Lemma finite_not_nan (x : number) : is_finite x = true -> is_nan x = false.
Proof.
  unfold is_finite. rewrite Bool.negb_true_iff, Bool.orb_false_iff. tauto.
Qed.

(** [x - x] is zero for every finite [x]. *)
Lemma sub_diag_zero (x : number) :
  is_finite x = true -> is_zero (x - x) = true.
Proof.
  intros Hf. apply finite_regular in Hf.
  unfold is_zero. rewrite FloatAxioms.eqb_spec, sub_spec.
  destruct (Prim2SF x) as [s | s | | s m e]; try discriminate Hf.
  - destruct s; reflexivity.
  - unfold SF64sub, SFsub. cbv zeta. rewrite Z.sub_diag. reflexivity.
Qed.

Lemma ltb_infinity (x : number) : (infinity <? x)%float = false.
Proof.
  rewrite ltb_spec. change (Prim2SF infinity) with (S754_infinity false).
  destruct (Prim2SF x) as [s | s | | s m e]; try reflexivity.
  destruct s; reflexivity.
Qed.

Lemma ltb_neg_infinity (x : number) : (x <? neg_infinity)%float = false.
Proof.
  rewrite ltb_spec. change (Prim2SF neg_infinity) with (S754_infinity true).
  destruct (Prim2SF x) as [s | s | | s m e]; try reflexivity;
    destruct s; reflexivity.
Qed.

Lemma min2_same (v : number) : is_nan v = false -> min2 v v = v.
Proof.
  intros Hn. unfold min2. rewrite Hn. cbn [orb].
  destruct (v <? v)%float; [reflexivity | ].
  destruct (get_sign v); reflexivity.
Qed.

Lemma max2_same (v : number) : is_nan v = false -> max2 v v = v.
Proof.
  intros Hn. unfold max2. rewrite Hn. cbn [orb].
  destruct (v <? v)%float; [reflexivity | ].
  destruct (get_sign v); reflexivity.
Qed.

Lemma Math_min_flat (v : number) (n : nat) :
  is_nan v = false -> Math_min (repeat v (S n)) = v.
Proof.
  intros Hn. unfold Math_min. cbn [repeat fold_left].
  assert (E : min2 infinity v = v).
  { unfold min2. rewrite Hn, ltb_infinity.
    change (is_nan infinity) with false. cbn [orb].
    change (get_sign infinity) with false.
    destruct (v <? infinity)%float; reflexivity. }
  rewrite E. induction n as [ | n IH]; [reflexivity | ].
  cbn [repeat fold_left]. rewrite (min2_same v Hn). exact IH.
Qed.

Lemma Math_max_flat (v : number) (n : nat) :
  is_nan v = false -> Math_max (repeat v (S n)) = v.
Proof.
  intros Hn. unfold Math_max. cbn [repeat fold_left].
  assert (E : max2 neg_infinity v = v).
  { unfold max2. rewrite Hn, ltb_neg_infinity.
    change (is_nan neg_infinity) with false. cbn [orb].
    change (get_sign neg_infinity) with true.
    destruct (neg_infinity <? v)%float; reflexivity. }
  rewrite E. induction n as [ | n IH]; [reflexivity | ].
  cbn [repeat fold_left]. rewrite (max2_same v Hn). exact IH.
Qed.

(** C7 (as amended).  The span is [max - min], except that it is 1 when
    that difference is zero or [NaN]: a difference between 0 and 1 is kept
    as it is, not raised to 1.  So the span is never zero and never [NaN],
    and it is 1 for every flat series of a finite value. *)
Theorem spark_span_spec (series : list number) :
  let min := Math_min series in
  let max := Math_max series in
  let d := (max - min)%float in
  spark_span min max = (if is_zero d || is_nan d then 1%float else d)
  /\ is_zero (spark_span min max) = false
  /\ is_nan (spark_span min max) = false
  /\ (forall v n,
        series = repeat v (S n) -> is_finite v = true ->
        spark_span min max = 1%float).
Proof.
  cbv zeta. unfold spark_span. cbv zeta. cbn [ToBoolean].
  set (d := (Math_max series - Math_min series)%float).
  split; [destruct (is_zero d || is_nan d); reflexivity | ].
  split; [ | split].
  - destruct (is_zero d || is_nan d) eqn:E; cbn [negb];
      [reflexivity | ].
    apply Bool.orb_false_iff in E. apply E.
  - destruct (is_zero d || is_nan d) eqn:E; cbn [negb];
      [reflexivity | ].
    apply Bool.orb_false_iff in E. apply E.
  - intros v n -> Hf. unfold d.
    rewrite (Math_min_flat v n (finite_not_nan v Hf)).
    rewrite (Math_max_flat v n (finite_not_nan v Hf)).
    rewrite (sub_diag_zero v Hf). reflexivity.
Qed.

Lemma spark_span_spec_witness :
  spark_span (Math_min (repeat 101%float 24)) (Math_max (repeat 101%float 24))
  = 1%float.
Proof.
  exact (proj2 (proj2 (proj2 (spark_span_spec (repeat 101%float 24))))
           101%float 23%nat eq_refl eq_refl).
Defined.

(** C7, as stated, fails: on the series 1, 1.5 the difference of maximum
    and minimum is 0.5, below 1, and the span is 0.5, not 1; the second
    point is drawn at the full height of the chart. *)
Lemma spark_span_counterexample :
  let series := [1%float; 1.5%float] in
  (Math_max series - Math_min series)%float = 0.5%float
  /\ (0.5 <? 1)%float = true
  /\ spark_span (Math_min series) (Math_max series) = 0.5%float
  /\ spark_points series = [(14%float, 206%float); (586%float, 14%float)].
Proof. vm_compute. repeat split; reflexivity. Qed.

(** ** The sparkline *)

Local Open Scope list_scope.

Lemma mapM_ok {A B} (f : A -> result B) (l : list A) :
  (forall x, In x l -> exists y, f x = Ok y) ->
  exists ys, mapM f l = Ok ys.
Proof.
  induction l as [ | a l IH]; intros H; simpl; [eauto | ].
  destruct (H a (or_introl eq_refl)) as [y ->]. cbn [rbind].
  destruct IH as [ys ->]; [intros x Hx; apply H; right; exact Hx | ].
  cbn [rbind]. eauto.
Qed.

Lemma find_replace (d : Dom) (id : string) (e0 e : Element) :
  find_element d id = Some e0 ->
  find_element (replace_element d id e) id = Some e.
Proof.
  induction d as [ | [k x] rest IH]; simpl; [discriminate | ].
  destruct (String.eqb k id) eqn:E; simpl; rewrite E; [reflexivity | exact IH].
Qed.

Lemma write_run (id prop : string) (f : Element -> Element) (s : State)
      (d : Dom) (e : Element) :
  find_element d id = Some e ->
  write id prop f {| state := s; dom := d |}
  = (Ok tt, {| state := s; dom := replace_element d id (f e) |}).
Proof. intros H. unfold write. cbn [dom state]. rewrite H. reflexivity. Qed.

Lemma spark_points_length (series : list number) :
  List.length (spark_points series) = List.length series.
Proof.
  unfold spark_points. cbv zeta.
  rewrite length_map, length_combine, length_seq. apply Nat.min_id.
Qed.

(** The points that a path passes through, in order. *)
Fixpoint vertices (cs : list command) : list (number * number) :=
  match cs with
  | [] => []
  | MoveTo x y :: rest | LineTo x y :: rest => (x, y) :: vertices rest
  | ClosePath :: rest => vertices rest
  end.

Definition is_line (c : command) : bool :=
  match c with LineTo _ _ => true | _ => false end.

(** One closed outline: a move, then lines, then the closing command. *)
Definition closed_outline (cs : list command) : Prop :=
  exists x y lines,
    cs = MoveTo x y :: lines ++ [ClosePath] /\ forallb is_line lines = true.

(** One open polyline: a move, then lines. *)
Definition polyline (cs : list command) : Prop :=
  exists x y lines, cs = MoveTo x y :: lines /\ forallb is_line lines = true.

Definition lines_to (pts : list (number * number)) : list command :=
  List.map (fun p => LineTo (fst p) (snd p)) pts.

Lemma lines_to_lines (pts : list (number * number)) :
  forallb is_line (lines_to pts) = true.
Proof. induction pts as [ | p pts IH]; [reflexivity | exact IH]. Qed.

Lemma vertices_lines_to (pts : list (number * number)) :
  vertices (lines_to pts) = pts.
Proof.
  induction pts as [ | [x y] pts IH]; [reflexivity | ].
  simpl. rewrite IH. reflexivity.
Qed.

Lemma vertices_app (a b : list command) :
  vertices (a ++ b) = vertices a ++ vertices b.
Proof.
  induction a as [ | c a IH]; [reflexivity | ].
  destruct c; simpl; rewrite IH; reflexivity.
Qed.

Definition baseline : number := (spark_h - spark_pad)%float.

Lemma area_commands_shape (p0 : number * number) (rest : list (number * number)) :
  exists area,
    area_commands (p0 :: rest) = Ok area
    /\ closed_outline area
    /\ vertices area
       = (fst p0, baseline) :: (p0 :: rest)
         ++ [(fst (List.last (p0 :: rest) p0), baseline)].
Proof.
  eexists. split; [reflexivity | ]. split.
  - exists (fst p0), baseline,
      (LineTo (fst p0) (snd p0) :: lines_to rest
       ++ [LineTo (fst (List.last (p0 :: rest) p0)) baseline]).
    split.
    + cbn [app]. rewrite <- app_assoc. reflexivity.
    + cbn [forallb is_line andb]. rewrite forallb_app, lines_to_lines.
      reflexivity.
  - cbn [app vertices]. rewrite vertices_app.
    change (List.map (fun p => LineTo (fst p) (snd p)) rest) with (lines_to rest).
    rewrite vertices_lines_to. destruct p0 as [x y]. reflexivity.
Qed.

Lemma line_commands_shape (p0 : number * number) (rest : list (number * number)) :
  polyline (line_commands (p0 :: rest))
  /\ vertices (line_commands (p0 :: rest)) = p0 :: rest.
Proof.
  split.
  - exists (fst p0), (snd p0), (lines_to rest).
    split; [reflexivity | apply lines_to_lines].
  - cbn [line_commands vertices].
    change (List.map (fun p => LineTo (fst p) (snd p)) rest) with (lines_to rest).
    rewrite vertices_lines_to. destruct p0; reflexivity.
Qed.

(** The flat series: 24 points at the last price, at 100 without one. *)
Definition flat_series (priceRow : PriceRow) : list number :=
  repeat (match last priceRow with Some x => x | None => 100%float end) 24.

(** The entries of the row's series; none for a row without a series. *)
Definition series_entries (priceRow : PriceRow) : list value :=
  match series priceRow with Some entries => entries | None => [] end.

(** The series that is drawn when the entries convert to the numbers [xs]:
    the finite ones when there are two or more of them, and the flat series
    otherwise. *)
Definition drawn_series (priceRow : PriceRow) (xs : list number) : list number :=
  if (List.length (filter is_finite xs) <? 2)%nat then flat_series priceRow
  else filter is_finite xs.

Lemma spark_series_drawn (priceRow : PriceRow) (xs : list number) :
  mapM ToNumber (series_entries priceRow) = Ok xs ->
  spark_series priceRow = Ok (drawn_series priceRow xs)
  /\ (2 <= List.length (drawn_series priceRow xs))%nat.
Proof.
  intros Hx.
  assert (Hlen : (2 <= List.length (drawn_series priceRow xs))%nat).
  { unfold drawn_series.
    destruct (List.length (filter is_finite xs) <? 2)%nat eqn:El.
    - unfold flat_series. rewrite repeat_length. repeat constructor.
    - apply Nat.ltb_ge. exact El. }
  split; [ | exact Hlen].
  unfold spark_series, series_entries, drawn_series in *.
  destruct (series priceRow) as [[ | v entries] | ].
  - inversion Hx; subst xs. reflexivity.
  - cbn [List.length Nat.eqb negb]. rewrite Hx. cbn [rbind].
    destruct (List.length (filter is_finite xs) <? 2)%nat; reflexivity.
  - inversion Hx; subst xs. reflexivity.
Qed.

(** An entry that does not convert makes [drawSpark] throw. *)
Lemma spark_series_throw (priceRow : PriceRow) (e : error) :
  mapM ToNumber (series_entries priceRow) = Throw e ->
  spark_series priceRow = Throw e.
Proof.
  unfold spark_series, series_entries.
  destruct (series priceRow) as [[ | v entries] | ]; try discriminate.
  intros Hx. cbn [List.length Nat.eqb negb]. rewrite Hx. reflexivity.
Qed.

Section Sparkline.

Context {host : Host}.

(** C6 (as amended).  On a page that has the chart, for a price row whose
    series entries all convert to numbers without throwing (a row without a
    series is one).  The series that [drawSpark] draws is the row's own,
    converted, with the non-finite entries dropped, when that leaves two
    points or more, and otherwise 24 copies of the last price (of 100
    without one); so it has at least two points.  When it has no more
    points than a call takes arguments, [drawSpark] returns normally and
    leaves the state alone, and the chart holds three nodes: the area, one
    closed outline that starts on the baseline under the first point,
    passes through every point and ends on the baseline under the last
    point; the line, one open polyline through every point; and the dot at
    the last point.  When it has more, [drawSpark] throws a [RangeError]. *)
Theorem drawSpark_draws (priceRow : PriceRow) (w : World) (svg : Element)
        (xs : list number) :
  find_element (dom w) "spark" = Some svg ->
  mapM ToNumber (series_entries priceRow) = Ok xs ->
  let values := drawn_series priceRow xs in
  spark_series priceRow = Ok values
  /\ (2 <= List.length values)%nat
  /\ if (Z.of_nat (List.length values) <=? argument_limit)%Z
     then
       exists p0 rest area w',
         spark_points values = p0 :: rest
         /\ List.length (p0 :: rest) = List.length values
         /\ area_commands (p0 :: rest) = Ok area
         /\ closed_outline area
         /\ vertices area
            = (fst p0, baseline) :: (p0 :: rest)
              ++ [(fst (List.last (p0 :: rest) p0), baseline)]
         /\ polyline (line_commands (p0 :: rest))
         /\ vertices (line_commands (p0 :: rest)) = p0 :: rest
         /\ drawSpark priceRow w = (Ok tt, w')
         /\ state w' = state w
         /\ option_map el_children (find_element (dom w') "spark")
            = Some [area_node (show_path area);
                    line_node (show_path (line_commands (p0 :: rest)));
                    dot_node (List.last (p0 :: rest) p0)]
     else
       fst (drawSpark priceRow w)
       = Throw (RangeError "Maximum call stack size exceeded").
Proof.
  intros Hsvg Hx. cbv zeta.
  destruct (spark_series_drawn priceRow xs Hx) as [Ev Hlen].
  set (values := drawn_series priceRow xs) in *.
  split; [exact Ev | ]. split; [exact Hlen | ].
  destruct w as [s d]. cbn [dom state] in *.
  destruct (Z.of_nat (List.length values) <=? argument_limit)%Z eqn:Elim.
  - pose proof (spark_points_length values) as Hpl.
    destruct (spark_points values) as [ | p0 rest] eqn:Ep.
    { simpl in Hpl. rewrite <- Hpl in Hlen. inversion Hlen. }
    destruct (area_commands_shape p0 rest) as (area & Ea & Hout & Hva).
    destruct (line_commands_shape p0 rest) as [Hpoly Hvl].
    assert (Hrev : exists init, rev (p0 :: rest)
                                = List.last (p0 :: rest) p0 :: init).
    { destruct (exists_last (l := p0 :: rest)) as (init & final & E);
        [discriminate | ].
      rewrite E, last_last, rev_app_distr. simpl. eauto. }
    destruct Hrev as [init Hrev].
    exists p0, rest, area.
    eexists.
    repeat (split; [first [ eassumption | exact Hpl | reflexivity ] | ]).
    pose proof (find_replace _ _ _ (set_innerHTML "" svg) Hsvg) as H1.
    pose proof (find_replace _ _ _
                  (appendChild (area_node (show_path area))
                     (set_innerHTML "" svg)) H1) as H2.
    pose proof (find_replace _ _ _
                  (appendChild (line_node (show_path (line_commands (p0 :: rest))))
                     (appendChild (area_node (show_path area))
                        (set_innerHTML "" svg))) H2) as H3.
    unfold drawSpark.
    unfold bind at 1. rewrite (write_run _ _ _ _ _ _ Hsvg).
    unfold bind at 1. unfold lift at 1. rewrite Ev.
    unfold bind at 1. unfold lift at 1. unfold spread. rewrite Elim.
    cbv zeta. rewrite Ep.
    unfold bind at 1. unfold lift at 1. rewrite Ea.
    unfold bind at 1. rewrite (write_run _ _ _ _ _ _ H1).
    unfold bind at 1. rewrite (write_run _ _ _ _ _ _ H2).
    rewrite Hrev. rewrite (write_run _ _ _ _ _ _ H3).
    split; [reflexivity | ]. split; [reflexivity | ].
    cbn [dom]. rewrite (find_replace _ _ _ _ H3). reflexivity.
  - unfold drawSpark.
    unfold bind at 1. rewrite (write_run _ _ _ _ _ _ Hsvg).
    unfold bind at 1. unfold lift at 1. rewrite Ev.
    unfold bind at 1. unfold lift at 1. unfold spread. rewrite Elim.
    reflexivity.
Qed.

End Sparkline.

Local Open Scope string_scope.

(** A row with a history of three prices and one entry that is no number. *)
Definition history_record : value :=
  Obj 60 [("ticker", Str "HIS");
          ("series", Arr 61 [Num 1; Str "n/a"; Num 1.5; Num 3])].

Definition history_row : PriceRow :=
  {| ticker := Str "HIS"; company := Str ""; sector := Str "";
     last := None; prev := None; chg := None; pctChg := None; volume := None;
     timestamp := Str ""; regime := Str ""; macro_headline := Str "";
     series := Some [Num 1; Str "n/a"; Num 1.5; Num 3];
     raw := history_record |}.

Lemma drawSpark_draws_witness :
  normalizePriceRow history_record = Ok history_row
  /\ spark_series history_row = Ok [1%float; 1.5%float; 3%float]
  /\ exists area w',
       area_commands (spark_points [1%float; 1.5%float; 3%float]) = Ok area
       /\ closed_outline area
       /\ drawSpark history_row start = (Ok tt, w')
       /\ state w' = state start.
Proof.
  split; [reflexivity | ]. split; [reflexivity | ].
  destruct (drawSpark_draws history_row start empty_element
              [1%float; nan; 1.5%float; 3%float] eq_refl eq_refl)
    as (_ & _ & H).
  change (drawn_series history_row [1%float; nan; 1.5%float; 3%float])
    with [1%float; 1.5%float; 3%float] in H.
  change (Z.of_nat (List.length [1%float; 1.5%float; 3%float])
          <=? argument_limit)%Z with true in H.
  destruct H as (p0 & rest & area & w' & Ep & _ & Ea & Ho & _ & _ & _ & Hd
                 & Hs & _).
  exists area, w'. rewrite Ep.
  repeat split; assumption.
Defined.

(** A record whose two prices, 1e308 and -1e308, are finite and further
    apart than the largest number, and its row. *)
Definition wide_series_record : value :=
  Obj 73 [("ticker", Str "WIDE");
          ("series", Arr 74 [Num 0x1.1ccf385ebc8ap+1023; Num (-0x1.1ccf385ebc8ap+1023)])].

Definition wide_series_row : PriceRow :=
  {| ticker := Str "WIDE"; company := Str ""; sector := Str "";
     last := None; prev := None; chg := None; pctChg := None; volume := None;
     timestamp := Str ""; regime := Str ""; macro_headline := Str "";
     series := Some [Num 0x1.1ccf385ebc8ap+1023; Num (-0x1.1ccf385ebc8ap+1023)];
     raw := wide_series_record |}.

(** The [d] attribute of the [n]-th node of the chart. *)
Definition chart_path (w : World) (n : nat) : option string :=
  match find_element (dom w) "spark" with
  | Some svg =>
      match nth_error (el_children svg) n with
      | Some node => Some (option_value node)
      | None => None
      end
  | None => None
  end.

(** C6, as stated, fails.  The normaliser accepts the first record, and
    [drawSpark] throws on its row, at [Number] of the first entry.  It
    accepts the second, whose series has two finite entries, and draws it:
    the difference of the two overflows, and both paths hold [NaN] where a
    coordinate belongs, so neither is a valid path. *)
Lemma drawSpark_counterexample :
  normalizePriceRow odd_series_record = Ok odd_series_row
  /\ fst (drawSpark odd_series_row start)
     = Throw (TypeError "Cannot convert object to primitive value")
  /\ normalizePriceRow wide_series_record = Ok wide_series_row
  /\ fst (drawSpark wide_series_row start) = Ok tt
  /\ chart_path (snd (drawSpark wide_series_row start)) 0
     = Some "M 14 206 L 14 14 L 586 NaN L 586 206 Z"
  /\ chart_path (snd (drawSpark wide_series_row start)) 1
     = Some "M 14 14 L 586 NaN".
Proof. vm_compute. repeat split; reflexivity. Qed.

(** ** The order body *)

(** The value of the form field [id]. *)
Definition field (w : World) (id : string) : option string :=
  option_map el_value (find_element (dom w) id).

Lemma read_field (w : World) (id prop v : string) :
  field w id = Some v -> read id prop el_value w = (Ok v, w).
Proof.
  unfold field, read. destruct (find_element (dom w) id); simpl;
    intros H; inversion H; reflexivity.
Qed.

Lemma str_empty (l : list ascii) : str l = "" -> l = [].
Proof. destruct l; simpl; [reflexivity | discriminate]. Qed.

(** A blank text converts to zero. *)
Lemma StringToNumber_blank (s : string) : trim s = "" -> StringToNumber s = zero.
Proof.
  unfold trim, StringToNumber. intros H. apply str_empty in H.
  rewrite H. reflexivity.
Qed.

(** The text of the quantity line for the field value [fQty]:
    [`${Number(fQty || 0)}`]. *)
Definition qty_text (fQty : string) : string :=
  if String.eqb fQty "" then "0" else NumberToString (StringToNumber fQty).

Section OrderBody.

Context {host : Host}.

(** C8 (as amended).  The body is the lines [team], [side], [ticker],
    [qty], [order_type] in that order, then [limit_price] only when the
    order type is [LIMIT] and the trimmed limit is not empty, then [notes]
    only when the trimmed notes are not empty, joined by line feeds.  The
    team is trimmed and is [team1] when blank; the ticker is trimmed and
    upper-cased; the quantity is the decimal text of [Number] of the field,
    which is [0] when the field is blank.  Reading the form changes
    nothing. *)
Theorem issueBodyFromForm_lines
        (w : World) (fTeam side fTicker fQty type fLimit fNotes : string) :
  field w "fTeam" = Some fTeam ->
  field w "fSide" = Some side ->
  field w "fTicker" = Some fTicker ->
  field w "fQty" = Some fQty ->
  field w "fType" = Some type ->
  field w "fLimit" = Some fLimit ->
  field w "fNotes" = Some fNotes ->
  issueBodyFromForm w
  = (Ok (join nl
           ([ ("team: " ++ (if String.eqb (trim fTeam) "" then "team1"
                            else trim fTeam))%string;
              ("side: " ++ side)%string;
              ("ticker: " ++ toUpperCase (trim fTicker))%string;
              ("qty: " ++ qty_text fQty)%string;
              ("order_type: " ++ type)%string ]
            ++ (if String.eqb type "LIMIT" && negb (String.eqb (trim fLimit) "")
                then [("limit_price: " ++ trim fLimit)%string] else [])
            ++ (if negb (String.eqb (trim fNotes) "")
                then [("notes: " ++ trim fNotes)%string] else []))%list), w)
  /\ (trim fQty = "" -> qty_text fQty = "0").
Proof.
  intros H1 H2 H3 H4 H5 H6 H7. split.
  - unfold issueBodyFromForm.
    unfold bind at 1. rewrite (read_field _ _ _ _ H1).
    unfold bind at 1. rewrite (read_field _ _ _ _ H2).
    unfold bind at 1. rewrite (read_field _ _ _ _ H3).
    unfold bind at 1. rewrite (read_field _ _ _ _ H4).
    unfold bind at 1. unfold lift at 1.
    assert (Eq : ToNumber (or_else (Str fQty) (Num zero))
                 = Ok (if String.eqb fQty "" then zero
                       else StringToNumber fQty)).
    { unfold or_else. cbn [ToBoolean].
      destruct (String.eqb fQty ""); reflexivity. }
    rewrite Eq.
    unfold bind at 1. rewrite (read_field _ _ _ _ H5).
    unfold bind at 1. rewrite (read_field _ _ _ _ H6).
    unfold bind at 1. rewrite (read_field _ _ _ _ H7).
    unfold ret, or_string, qty_text.
    destruct (String.eqb fQty ""); reflexivity.
  - intros Hb. unfold qty_text. rewrite (StringToNumber_blank _ Hb).
    destruct (String.eqb fQty ""); reflexivity.
Qed.

End OrderBody.

(** The page with the trade form filled in. *)
Definition fill (id v : string) (d : Dom) : Dom :=
  replace_element d id (set_value v empty_element).

Definition form (team side ticker qty type limit notes : string) : World :=
  {| state := initial_state;
     dom := fill "fTeam" team
              (fill "fSide" side
                 (fill "fTicker" ticker
                    (fill "fQty" qty
                       (fill "fType" type
                          (fill "fLimit" limit (fill "fNotes" notes page)))))) |}.

Lemma issueBodyFromForm_lines_witness :
  fst (issueBodyFromForm (form "" "BUY" "xyz" "10" "LIMIT" "42.5" ""))
  = Ok (join nl [ "team: team1"; "side: BUY"; "ticker: XYZ"; "qty: 10";
                  "order_type: LIMIT"; "limit_price: 42.5" ])
  /\ fst (issueBodyFromForm (form " desk " "SELL" " abc " "   " "MARKET" "7" " "))
     = Ok (join nl [ "team: desk"; "side: SELL"; "ticker: ABC"; "qty: 0";
                     "order_type: MARKET" ]).
Proof.
  split.
  - rewrite (proj1 (issueBodyFromForm_lines
                      (form "" "BUY" "xyz" "10" "LIMIT" "42.5" "")
                      "" "BUY" "xyz" "10" "LIMIT" "42.5" ""
                      eq_refl eq_refl eq_refl eq_refl eq_refl eq_refl eq_refl)).
    reflexivity.
  - rewrite (proj1 (issueBodyFromForm_lines
                      (form " desk " "SELL" " abc " "   " "MARKET" "7" " ")
                      " desk " "SELL" " abc " "   " "MARKET" "7" " "
                      eq_refl eq_refl eq_refl eq_refl eq_refl eq_refl eq_refl)).
    reflexivity.
Defined.

(** C8, as stated, fails: a quantity that is not a number gives the line
    [qty: NaN], not [qty: 0]. *)
Lemma issueBodyFromForm_counterexample :
  fst (issueBodyFromForm (form "" "BUY" "xyz" "abc" "MARKET" "" ""))
  = Ok (join nl [ "team: team1"; "side: BUY"; "ticker: XYZ"; "qty: NaN";
                  "order_type: MARKET" ]).
Proof. vm_compute. reflexivity. Qed.

(** ** Markup in the watchlist *)

(** A price row and a news item of a company whose name is markup. *)
Definition markup : string := "<img src=x onerror=alert(1)>".

Definition markup_row : PriceRow :=
  {| ticker := Str "IMG"; company := Str markup; sector := Str "";
     last := None; prev := None; chg := None; pctChg := None; volume := None;
     timestamp := Str ""; regime := Str ""; macro_headline := Str "";
     series := None;
     raw := Obj 80 [("ticker", Str "IMG"); ("company", Str markup)] |}.

Definition markup_news : News.row :=
  {| News.ticker := Str "IMG"; News.company := Str markup;
     News.headline := Str markup; News.timestamp := Str "";
     News.eventType := Str ""; News.sentiment := Str "";
     News.regime := Str "";
     News.raw := Obj 81 [("ticker", Str "IMG"); ("company_name", Str markup);
                         ("headline", Str markup)] |}.

Section WatchlistMarkup.

Context {host : Host}.

(** C4: the code on the failing input.  [escapeHtml] rewrites the markup,
    and the news item carries it rewritten; the watchlist row carries the
    company name as it came, tag and all. *)
Theorem watchlist_row_html_raw :
  escapeHtml (Str markup) = Ok "&lt;img src=x onerror=alert(1)&gt;"
  /\ (exists html,
         news_item_html markup_news = Ok html
         /\ includes html "<img" = false
         /\ includes html "&lt;img src=x onerror=alert(1)&gt;" = true)
  /\ (exists html,
         watchlist_row_html markup_row = Ok html
         /\ includes html markup = true).
Proof.
  split; [reflexivity | ].
  split; eexists; (split; [reflexivity | ]); vm_compute; repeat split.
Qed.

End WatchlistMarkup.

(** ** Sorting rows that share a ticker *)

Definition twin_first : PriceRow :=
  {| ticker := Str "DUP"; company := Str "first"; sector := Str "";
     last := None; prev := None; chg := None; pctChg := None; volume := None;
     timestamp := Str ""; regime := Str ""; macro_headline := Str "";
     series := None;
     raw := Obj 90 [("ticker", Str "DUP"); ("company", Str "first")] |}.

Definition twin_second : PriceRow :=
  {| ticker := Str "DUP"; company := Str "second"; sector := Str "";
     last := None; prev := None; chg := None; pctChg := None; volume := None;
     timestamp := Str ""; regime := Str ""; macro_headline := Str "";
     series := None;
     raw := Obj 91 [("ticker", Str "DUP"); ("company", Str "second")] |}.

Section Twins.

Context {host : Host}.

(** C9: the code on the failing input.  For two rows with one ticker the
    comparator answers -1 whichever comes first; the sort swaps them, and
    sorting its own result swaps them back. *)
Theorem sort_by_ticker_twins :
  by_ticker twin_first twin_second = Ok (- one)%float
  /\ by_ticker twin_second twin_first = Ok (- one)%float
  /\ watchlist_rows [twin_first; twin_second] "" ""
     = Ok [twin_second; twin_first]
  /\ sort by_ticker [twin_first; twin_second] = Ok [twin_second; twin_first]
  /\ sort by_ticker [twin_second; twin_first] = Ok [twin_first; twin_second].
Proof. vm_compute. repeat split; reflexivity. Qed.

End Twins.

(** ** Sorting with a comparator that decides a total preorder

    When [before] decides a transitive relation [leq] on the elements, the
    run that [sort] finds and every insertion keep the array ascending. *)

Local Open Scope list_scope.

Section SortedFacts.

Context {A : Type} (comparefn : A -> A -> result number) (leq : A -> A -> bool).

(** [leq] is transitive. *)
Hypothesis le_trans : forall x y z, leq x y = true -> leq y z = true -> leq x z = true.

Definition ascending (l : list A) : Prop := StronglySorted (fun x y => leq x y = true) l.
Definition descending (l : list A) : Prop := StronglySorted (fun x y => leq y x = true) l.

Lemma ascending_snoc (l : list A) (x : A) :
  ascending l -> Forall (fun y => leq y x = true) l -> ascending (l ++ [x]).
Proof.
  unfold ascending. induction l as [ | a l IH]; intros Hs Hf; simpl.
  - repeat constructor.
  - inversion Hs; subst. inversion Hf; subst. constructor.
    + apply IH; assumption.
    + apply Forall_app. split; [assumption | repeat constructor; assumption].
Qed.

Lemma descending_rev (l : list A) : descending l -> ascending (rev l).
Proof.
  unfold descending. induction l as [ | a l IH]; intros Hs; simpl.
  - constructor.
  - inversion Hs; subst. apply ascending_snoc; [apply IH; assumption | ].
    apply Forall_rev. assumption.
Qed.

Lemma ascending_middle (l1 l2 : list A) (x : A) :
  ascending (l1 ++ l2) ->
  Forall (fun y => leq y x = true) l1 -> Forall (fun y => leq x y = true) l2 ->
  ascending (l1 ++ x :: l2).
Proof.
  unfold ascending. induction l1 as [ | a l1 IH]; intros Hs H1 H2; simpl in *.
  - constructor; assumption.
  - inversion Hs; subst. inversion H1; subst. constructor.
    + apply IH; assumption.
    + apply Forall_app. apply Forall_app in H4 as [Ha Hb].
      split; [assumption | constructor; assumption].
Qed.

Lemma ascending_split (l1 l2 : list A) (m : A) :
  ascending (l1 ++ m :: l2) ->
  Forall (fun y => leq y m = true) l1 /\ Forall (fun y => leq m y = true) l2.
Proof.
  unfold ascending. induction l1 as [ | a l1 IH]; intros Hs; simpl in *.
  - inversion Hs; subst. split; [constructor | assumption].
  - inversion Hs; subst. destruct (IH H1) as [Ha Hb].
    split; [ | assumption]. constructor; [ | assumption].
    apply Forall_app in H2 as [_ H2]. inversion H2; assumption.
Qed.

Variable L : list A.

(** The comparator decides [leq] on [L]: where it puts [x] before [y],
    [leq x y]; where it does not, [leq y x].  A comparator that answers 0
    on a tie and one that never does are both of this kind. *)
Hypothesis before_le :
  forall x y, In x L -> In y L ->
    exists b, before comparefn x y = Ok b
              /\ (if b then leq x y = true else leq y x = true).

Lemma extend_run_sorted :
  forall (l : list A) (desc : bool) (prev : A) (acc : list A),
    In prev L -> incl l L ->
    (if desc then ascending (prev :: acc) else descending (prev :: acc)) ->
    exists run rest,
      extend_run comparefn desc prev l (prev :: acc) = Ok (run, rest)
      /\ Permutation (run ++ rest) ((prev :: acc) ++ l)
      /\ (if desc then ascending run else descending run).
Proof.
  induction l as [ | x l' IH]; intros desc prev acc Hp Hl Hs; cbn [extend_run].
  - exists (prev :: acc), []. split; [reflexivity | ].
    split; [apply Permutation_refl | exact Hs].
  - assert (Hx : In x L) by (apply Hl; left; reflexivity).
    destruct (before_le x prev Hx Hp) as (b & -> & Hb). cbn [rbind].
    destruct (Bool.eqb b desc) eqn:E.
    + apply Bool.eqb_prop in E. subst b.
      destruct (IH desc x (prev :: acc) Hx) as (run & rest & Er & P & S).
      { intros y Hy. apply Hl. right. exact Hy. }
      { destruct desc.
        - unfold ascending in *. constructor; [exact Hs | ].
          inversion Hs; subst. constructor; [exact Hb | ].
          eapply Forall_impl; [ | eassumption]. intros y Hy. cbv beta in Hy.
          eapply le_trans; eassumption.
        - unfold descending in *. constructor; [exact Hs | ].
          inversion Hs; subst. constructor; [exact Hb | ].
          eapply Forall_impl; [ | eassumption]. intros y Hy. cbv beta in Hy.
          eapply le_trans; eassumption. }
      exists run, rest. split; [exact Er | ]. split; [ | exact S].
      eapply Permutation_trans; [exact P | ].
      change ((x :: prev :: acc) ++ l') with (x :: (prev :: acc) ++ l').
      apply Permutation_middle.
    + exists (prev :: acc), (x :: l'). split; [reflexivity | ].
      split; [apply Permutation_refl | exact Hs].
Qed.

Lemma skipn_length_app (l1 l2 : list A) : skipn (List.length l1) (l1 ++ l2) = l2.
Proof. induction l1 as [ | a l1 IH]; [reflexivity | exact IH]. Qed.

Lemma firstn_length_app (l1 l2 : list A) : firstn (List.length l1) (l1 ++ l2) = l1.
Proof.
  induction l1 as [ | a l1 IH]; [reflexivity | ]. simpl. rewrite IH. reflexivity.
Qed.

Lemma firstn_S_length_app (l1 l2 : list A) (m : A) :
  firstn (S (List.length l1)) (l1 ++ m :: l2) = l1 ++ [m].
Proof.
  induction l1 as [ | a l1 IH]; [reflexivity | ].
  change (firstn (S (List.length (a :: l1))) ((a :: l1) ++ m :: l2))
    with (a :: firstn (S (List.length l1)) (l1 ++ m :: l2)).
  rewrite IH. reflexivity.
Qed.

(** The binary search keeps the elements at most the pivot to its left and
    the elements at least the pivot to its right. *)
Lemma search_spec (pivot : A) (sorted : list A) :
  In pivot L -> incl sorted L -> ascending sorted ->
  forall (fuel left right : nat),
    (left <= right <= List.length sorted)%nat ->
    (right - left < fuel)%nat ->
    Forall (fun e => leq e pivot = true) (firstn left sorted) ->
    Forall (fun e => leq pivot e = true) (skipn right sorted) ->
    exists i,
      search comparefn fuel pivot sorted left right = Ok i
      /\ Forall (fun e => leq e pivot = true) (firstn i sorted)
      /\ Forall (fun e => leq pivot e = true) (skipn i sorted).
Proof.
  intros Hp Hs Ha. induction fuel as [ | fuel IH];
    intros left right Hb Hf Hl Hr; [lia | ].
  cbn [search]. destruct (left <? right)%nat eqn:Elr.
  - apply Nat.ltb_lt in Elr.
    set (mid := (left + Nat.div2 (right - left))%nat).
    assert (Hmid : (left <= mid < right)%nat).
    { unfold mid. assert (H0 : (0 < right - left)%nat) by lia.
      apply Nat.lt_div2 in H0. revert H0. generalize (Nat.div2 (right - left)).
      intros k Hk. lia. }
    destruct (nth_error sorted mid) as [m | ] eqn:Em.
    + destruct (nth_error_split _ _ Em) as (l1 & l2 & Es & El1).
      assert (Hm : In m L) by (apply Hs; eapply nth_error_In; exact Em).
      destruct (before_le pivot m Hp Hm) as (b & -> & Hpm). cbn [rbind].
      rewrite Es in Ha. destruct (ascending_split _ _ _ Ha) as [Hlow Hhigh].
      destruct b.
      * apply IH; [lia | lia | exact Hl | ].
        rewrite Es, <- El1, skipn_length_app. constructor; [exact Hpm | ].
        eapply Forall_impl; [ | exact Hhigh]. intros e He. cbv beta in He.
        eapply le_trans; eassumption.
      * apply IH; [lia | lia | | exact Hr].
        rewrite Es, <- El1, firstn_S_length_app. apply Forall_app. split.
        -- eapply Forall_impl; [ | exact Hlow]. intros e He. cbv beta in He.
           eapply le_trans; eassumption.
        -- repeat constructor. exact Hpm.
    + apply nth_error_None in Em. lia.
  - apply Nat.ltb_ge in Elr. assert (left = right) by lia. subst right.
    exists left. split; [reflexivity | ]. split; assumption.
Qed.

Lemma insert_all_sorted :
  forall (rest sorted : list A),
    incl sorted L -> incl rest L -> ascending sorted ->
    exists out,
      insert_all comparefn sorted rest = Ok out
      /\ Permutation out (sorted ++ rest)
      /\ ascending out.
Proof.
  induction rest as [ | pivot rest IH]; intros sorted Hs Hr Ha; cbn [insert_all].
  - exists sorted. split; [reflexivity | ].
    rewrite app_nil_r. split; [apply Permutation_refl | exact Ha].
  - assert (Hp : In pivot L) by (apply Hr; left; reflexivity).
    destruct (search_spec pivot sorted Hp Hs Ha (S (List.length sorted)) 0
                (List.length sorted)) as (i & E & Hlow & Hhigh).
    + lia.
    + lia.
    + constructor.
    + rewrite skipn_all. constructor.
    + rewrite E. cbn [rbind].
      assert (P : Permutation (firstn i sorted ++ pivot :: skipn i sorted)
                    (pivot :: sorted)).
      { apply Permutation_sym.
        rewrite <- (firstn_skipn i sorted) at 1. apply Permutation_middle. }
      destruct (IH (firstn i sorted ++ pivot :: skipn i sorted))
        as (out & Eo & Po & Ao).
      * intros y Hy. apply (Permutation_in _ P) in Hy.
        destruct Hy as [<- | Hy]; [exact Hp | apply Hs, Hy].
      * intros y Hy. apply Hr. right. exact Hy.
      * apply ascending_middle; [ | exact Hlow | exact Hhigh].
        rewrite firstn_skipn. exact Ha.
      * exists out. split; [exact Eo | ]. split; [ | exact Ao].
        eapply Permutation_trans; [exact Po | ].
        eapply Permutation_trans; [apply Permutation_app_tail; exact P | ].
        simpl. apply Permutation_middle.
Qed.

(** With a comparator that decides a total preorder on the elements,
    [sort] returns them in ascending order. *)
Lemma sort_sorted (l : list A) :
  incl l L ->
  exists out,
    sort comparefn l = Ok out /\ Permutation l out /\ ascending out.
Proof.
  intros Hl. destruct l as [ | a [ | b rest]].
  - exists []. split; [reflexivity | ]. split; [apply Permutation_refl | constructor].
  - exists [a]. split; [reflexivity | ].
    split; [apply Permutation_refl | repeat constructor].
  - unfold sort.
    assert (Ha : In a L) by (apply Hl; left; reflexivity).
    assert (Hb : In b L) by (apply Hl; right; left; reflexivity).
    destruct (before_le b a Hb Ha) as (d & -> & Hd). cbn [rbind].
    destruct (extend_run_sorted rest d b [a] Hb)
      as (run & rest' & E & P & S).
    { intros y Hy. apply Hl. right. right. exact Hy. }
    { destruct d; repeat constructor; exact Hd. }
    rewrite E. cbn [rbind fst snd].
    assert (Pl : Permutation (run ++ rest') (a :: b :: rest)).
    { eapply Permutation_trans; [exact P | ]. simpl. apply perm_swap. }
    assert (Pr : Permutation (if d then run else rev run) run)
      by (destruct d;
          [apply Permutation_refl | apply Permutation_sym, Permutation_rev]).
    destruct (insert_all_sorted rest' (if d then run else rev run))
      as (out & Eo & Po & Ao).
    + intros y Hy. apply Hl. apply (Permutation_in _ Pl). apply in_or_app.
      left. apply (Permutation_in _ Pr). exact Hy.
    + intros y Hy. apply Hl. apply (Permutation_in _ Pl). apply in_or_app.
      right. exact Hy.
    + destruct d; [exact S | apply descending_rev, S].
    + exists out. split; [exact Eo | ]. split; [ | exact Ao].
      apply Permutation_sym.
      eapply Permutation_trans; [exact Po | ].
      eapply Permutation_trans; [apply Permutation_app_tail; exact Pr | ].
      exact Pl.
Qed.

End SortedFacts.

(** *** The order of tickers that are strings *)

Lemma lt_chars_asym (a b : list ascii) :
  lt_chars a b = true -> lt_chars b a = false.
Proof.
  revert b. induction a as [ | x a IH]; intros [ | y b]; simpl;
    try discriminate; try reflexivity.
  destruct (Z.ltb_spec (unit_rank x) (unit_rank y)),
    (Z.ltb_spec (unit_rank y) (unit_rank x));
    try lia; try discriminate; try reflexivity.
  apply IH.
Qed.

Lemma lt_chars_cotrans (a b c : list ascii) :
  lt_chars a c = true -> lt_chars a b = true \/ lt_chars b c = true.
Proof.
  revert b c. induction a as [ | x a IH]; intros [ | y b] [ | z c]; simpl;
    try discriminate; auto.
  destruct (Z.ltb_spec (unit_rank x) (unit_rank z)),
    (Z.ltb_spec (unit_rank z) (unit_rank x)),
    (Z.ltb_spec (unit_rank x) (unit_rank y)),
    (Z.ltb_spec (unit_rank y) (unit_rank x)),
    (Z.ltb_spec (unit_rank y) (unit_rank z)),
    (Z.ltb_spec (unit_rank z) (unit_rank y));
    try lia; try discriminate; auto.
Qed.

Lemma code_inj (x y : ascii) : code x = code y -> x = y.
Proof.
  unfold code. intros H. apply N2Z.inj in H.
  rewrite <- (ascii_N_embedding x), <- (ascii_N_embedding y), H. reflexivity.
Qed.

Lemma code_range (x : ascii) : 0 <= code x < 256.
Proof.
  unfold code. pose proof (N_ascii_bounded x) as H. lia.
Qed.

(** Two bytes of one rank are the same byte: the order is total. *)
Lemma unit_rank_inj (x y : ascii) : unit_rank x = unit_rank y -> x = y.
Proof.
  intros H. apply code_inj. revert H. unfold unit_rank. cbv zeta.
  pose proof (code_range x) as Hx. pose proof (code_range y) as Hy.
  destruct (Z.leb_spec 238 (code x)), (Z.leb_spec (code x) 239),
    (Z.leb_spec 240 (code x)), (Z.leb_spec 238 (code y)),
    (Z.leb_spec (code y) 239), (Z.leb_spec 240 (code y));
    cbn [andb]; lia.
Qed.

Lemma lt_chars_antisym (a b : list ascii) :
  lt_chars a b = false -> lt_chars b a = false -> a = b.
Proof.
  revert b. induction a as [ | x a IH]; intros [ | y b]; simpl;
    try discriminate; try reflexivity.
  destruct (Z.ltb_spec (unit_rank x) (unit_rank y)),
    (Z.ltb_spec (unit_rank y) (unit_rank x));
    try lia; try discriminate.
  intros H1 H2. rewrite (unit_rank_inj x y) by lia.
  rewrite (IH b H1 H2). reflexivity.
Qed.

(** The order at the one place where code units and code points part: the
    face U+1F600, whose first code unit is D83D, is below the tilde U+FF5E
    and above U+D7FF and every ASCII letter. *)
Example string_lt_code_units :
  string_lt "😀" "～" = true
  /\ string_lt "～" "😀" = false
  /\ string_lt "퟿" "😀" = true
  /\ string_lt "z" "😀" = true.
Proof. vm_compute. repeat split; reflexivity. Qed.

Lemma chars_inj (a b : string) : chars a = chars b -> a = b.
Proof.
  intros H. rewrite <- (string_of_list_ascii_of_string a),
    <- (string_of_list_ascii_of_string b). unfold chars in H. rewrite H.
  reflexivity.
Qed.

Definition ticker_key (r : PriceRow) : string :=
  match ticker r with Str s => s | _ => "" end.

Definition string_ticker (r : PriceRow) : bool :=
  match ticker r with Str _ => true | _ => false end.

Definition ticker_le (a b : PriceRow) : bool :=
  negb (string_lt (ticker_key b) (ticker_key a)).

Lemma ticker_le_total (x y : PriceRow) :
  ticker_le x y = true \/ ticker_le y x = true.
Proof.
  unfold ticker_le, string_lt.
  destruct (lt_chars (chars (ticker_key y)) (chars (ticker_key x))) eqn:E;
    [ | left; reflexivity].
  right. rewrite (lt_chars_asym _ _ E). reflexivity.
Qed.

Lemma ticker_le_trans (x y z : PriceRow) :
  ticker_le x y = true -> ticker_le y z = true -> ticker_le x z = true.
Proof.
  unfold ticker_le, string_lt. rewrite !Bool.negb_true_iff. intros H1 H2.
  destruct (lt_chars (chars (ticker_key z)) (chars (ticker_key x))) eqn:E;
    [ | reflexivity].
  destruct (lt_chars_cotrans _ (chars (ticker_key y)) _ E); congruence.
Qed.

Lemma ticker_le_antisym (x y : PriceRow) :
  ticker_le x y = true -> ticker_le y x = true -> ticker_key x = ticker_key y.
Proof.
  unfold ticker_le, string_lt. rewrite !Bool.negb_true_iff. intros H1 H2.
  apply chars_inj. apply lt_chars_antisym; assumption.
Qed.

Lemma by_ticker_before (x y : PriceRow) :
  string_ticker x = true -> string_ticker y = true ->
  before by_ticker x y = Ok (ticker_le x y).
Proof.
  unfold string_ticker, before, by_ticker, ticker_le, ticker_key, greater_than.
  destruct (ticker x); try discriminate. destruct (ticker y); try discriminate.
  intros _ _. cbn [ToPrimitive rbind].
  destruct (string_lt s0 s); reflexivity.
Qed.

Lemma by_ticker_decides (x y : PriceRow) :
  string_ticker x = true -> string_ticker y = true ->
  exists b, before by_ticker x y = Ok b
            /\ (if b then ticker_le x y = true else ticker_le y x = true).
Proof.
  intros Hx Hy. exists (ticker_le x y).
  split; [apply by_ticker_before; assumption | ].
  destruct (ticker_le x y) eqn:E; [reflexivity | ].
  destruct (ticker_le_total x y) as [K | K]; [congruence | exact K].
Qed.

Lemma ascending_unique {A} (leq : A -> A -> bool) (l1 : list A) :
  forall l2,
    ascending leq l1 -> ascending leq l2 -> Permutation l1 l2 ->
    (forall x y, In x l1 -> In y l1 ->
                 leq x y = true -> leq y x = true -> x = y) ->
    l1 = l2.
Proof.
  unfold ascending. induction l1 as [ | a l1 IH]; intros l2 H1 H2 P Hanti.
  - apply Permutation_nil in P. auto.
  - destruct l2 as [ | b l2];
      [apply Permutation_sym, Permutation_nil in P; discriminate | ].
    inversion H1 as [ | ? ? S1 F1]; subst. inversion H2 as [ | ? ? S2 F2]; subst.
    assert (Hab : a = b).
    { assert (Hb : In b (a :: l1))
        by (apply (Permutation_in _ (Permutation_sym P)); left; reflexivity).
      assert (Ha : In a (b :: l2))
        by (apply (Permutation_in _ P); left; reflexivity).
      destruct Hb as [Hb | Hb]; [exact Hb | ].
      destruct Ha as [Ha | Ha]; [symmetry; exact Ha | ].
      apply Hanti; [left; reflexivity | right; exact Hb | | ].
      - rewrite Forall_forall in F1. apply F1, Hb.
      - rewrite Forall_forall in F2. apply F2, Ha. }
    subst b. f_equal. apply IH; try assumption.
    + apply Permutation_cons_inv in P. exact P.
    + intros x y Hx Hy. apply Hanti; right; assumption.
Qed.

Definition string_tickers (l : list PriceRow) : Prop :=
  forall r, In r l -> string_ticker r = true.

(** X1.  The rows of the watchlist are in ascending order of ticker: when
    the tickers are strings, with or without duplicates, the sort of the
    watchlist returns the rows it was given, each ticker not greater, by
    code units, than those after it. *)
Theorem sort_by_ticker_ascending (l : list PriceRow) :
  string_tickers l ->
  exists out,
    sort by_ticker l = Ok out
    /\ Permutation l out
    /\ StronglySorted
         (fun a b => string_lt (ticker_key b) (ticker_key a) = false) out.
Proof.
  intros Hs.
  destruct (sort_sorted by_ticker ticker_le ticker_le_trans l)
    with (l := l) as (out & E & P & S).
  - intros x y Hx Hy. apply by_ticker_decides; apply Hs; assumption.
  - intros x Hx. exact Hx.
  - exists out. split; [exact E | ]. split; [exact P | ].
    unfold ascending, ticker_le in S.
    eapply StronglySorted_ind with (P := fun l => StronglySorted _ l);
      [ constructor | | exact S ].
    intros a l0 _ IH F. constructor; [exact IH | ].
    eapply Forall_impl; [ | exact F]. intros b Hb. cbv beta in Hb.
    apply Bool.negb_true_iff in Hb. exact Hb.
Qed.

Lemma sort_by_ticker_ascending_witness :
  exists out,
    sort by_ticker [abc_row; aa_bb_row; twin_first; aa_bb_row] = Ok out
    /\ Permutation [abc_row; aa_bb_row; twin_first; aa_bb_row] out
    /\ StronglySorted
         (fun a b => string_lt (ticker_key b) (ticker_key a) = false) out.
Proof.
  apply sort_by_ticker_ascending.
  intros r [<- | [<- | [<- | [<- | []]]]]; reflexivity.
Defined.

(** X2.  When the tickers are strings and no two rows share one, sorting
    the sorted rows again returns them unchanged. *)
Theorem sort_by_ticker_idempotent (l out : list PriceRow) :
  string_tickers l ->
  (forall x y, In x l -> In y l -> ticker x = ticker y -> x = y) ->
  sort by_ticker l = Ok out ->
  sort by_ticker out = Ok out.
Proof.
  intros Hs Hd E.
  assert (Hb : forall x y, In x l -> In y l ->
                 exists b, before by_ticker x y = Ok b
                           /\ (if b then ticker_le x y = true
                               else ticker_le y x = true))
    by (intros x y Hx Hy; apply by_ticker_decides; apply Hs; assumption).
  destruct (sort_sorted by_ticker ticker_le ticker_le_trans
              l Hb l (fun x Hx => Hx)) as (out1 & E1 & P1 & S1).
  rewrite E in E1. inversion E1; subst out1; clear E1.
  destruct (sort_sorted by_ticker ticker_le ticker_le_trans
              l Hb out) as (out2 & E2 & P2 & S2).
  { intros x Hx. apply (Permutation_in _ (Permutation_sym P1)). exact Hx. }
  rewrite E2. f_equal. symmetry.
  apply (ascending_unique ticker_le out out2 S1 S2 P2).
  intros x y Hx Hy Hxy Hyx.
  apply (Permutation_in _ (Permutation_sym P1)) in Hx, Hy.
  apply Hd; try assumption.
  pose proof (ticker_le_antisym x y Hxy Hyx) as K.
  pose proof (Hs x Hx) as Sx. pose proof (Hs y Hy) as Sy.
  unfold string_ticker, ticker_key in *.
  destruct (ticker x); try discriminate. destruct (ticker y); try discriminate.
  rewrite K. reflexivity.
Qed.

Lemma sort_by_ticker_idempotent_witness :
  sort by_ticker [aa_bb_row; abc_row; twin_first]
  = Ok [aa_bb_row; abc_row; twin_first].
Proof.
  apply (sort_by_ticker_idempotent [twin_first; abc_row; aa_bb_row]).
  - intros r [<- | [<- | [<- | []]]]; reflexivity.
  - intros x y [<- | [<- | [<- | []]]] [<- | [<- | [<- | []]]] H;
      first [reflexivity | discriminate H].
  - vm_compute. reflexivity.
Defined.

(** ** What [escapeHtml] returns *)

(** The replacement of one character. *)
Definition escape_char (c : ascii) : list ascii :=
  if Ascii.eqb c "&" then chars "&amp;"
  else if Ascii.eqb c "<" then chars "&lt;"
  else if Ascii.eqb c ">" then chars "&gt;"
  else if Ascii.eqb c "034" then chars "&quot;"
  else if Ascii.eqb c "'" then chars "&#039;"
  else [c].

(** A character that opens or closes neither a tag nor an attribute
    value. *)
Definition inert (c : ascii) : bool :=
  negb (Ascii.eqb c "<" || Ascii.eqb c ">" || Ascii.eqb c "034"
        || Ascii.eqb c "'").

Lemma chars_str (l : list ascii) : chars (str l) = l.
Proof. apply list_ascii_of_string_of_list_ascii. Qed.

Lemma flat_map_compose {A B C} (f : A -> list B) (g : B -> list C)
      (l : list A) :
  flat_map g (flat_map f l) = flat_map (fun x => flat_map g (f x)) l.
Proof.
  induction l as [ | a l IH]; [reflexivity | ].
  simpl. rewrite flat_map_app, IH. reflexivity.
Qed.

Lemma replaceAll_chars (s : string) (pat : ascii) (by_ : string) :
  chars (replaceAll s pat by_)
  = flat_map (fun c => if Ascii.eqb c pat then chars by_ else [c]) (chars s).
Proof. unfold replaceAll. apply chars_str. Qed.

(** The five replacements in a row amount to one pass that replaces each
    of the five characters: no replacement text holds a character that a
    later replacement rewrites. *)
Lemma escapeHtml_chars (s : string) :
  escapeHtml (Str s) = Ok (str (flat_map escape_char (chars s))).
Proof.
  unfold escapeHtml. cbn [coalesce nullish ToString rbind]. f_equal.
  unfold replaceAll at 1. f_equal.
  rewrite !replaceAll_chars. rewrite !flat_map_compose.
  apply flat_map_ext. intros c. unfold escape_char.
  destruct (Ascii.eqb c "&"); [reflexivity | ].
  cbn [flat_map]. rewrite app_nil_r.
  destruct (Ascii.eqb c "<"); [reflexivity | ].
  cbn [flat_map]. rewrite app_nil_r.
  destruct (Ascii.eqb c ">"); [reflexivity | ].
  cbn [flat_map]. rewrite app_nil_r.
  destruct (Ascii.eqb c "034"); [reflexivity | ].
  cbn [flat_map]. rewrite app_nil_r. reflexivity.
Qed.

Lemma escape_char_inert (c : ascii) : forallb inert (escape_char c) = true.
Proof.
  unfold escape_char.
  destruct (Ascii.eqb c "&"); [reflexivity | ].
  destruct (Ascii.eqb c "<") eqn:E2; [reflexivity | ].
  destruct (Ascii.eqb c ">") eqn:E3; [reflexivity | ].
  destruct (Ascii.eqb c "034") eqn:E4; [reflexivity | ].
  destruct (Ascii.eqb c "'") eqn:E5; [reflexivity | ].
  cbn [forallb]. unfold inert. rewrite E2, E3, E4, E5. reflexivity.
Qed.

(** X3.  [escapeHtml] covers the five characters: for every text it
    returns the text with each [&], [<], [>], double quote and single quote
    replaced by its entity, and the result holds no [<], [>], double quote
    or single quote. *)
Theorem escapeHtml_inert (s : string) :
  escapeHtml (Str s) = Ok (str (flat_map escape_char (chars s)))
  /\ forallb inert (flat_map escape_char (chars s)) = true.
Proof.
  split; [apply escapeHtml_chars | ].
  induction (chars s) as [ | c l IH]; [reflexivity | ].
  cbn [flat_map]. rewrite forallb_app, escape_char_inert, IH. reflexivity.
Qed.

(** ** The shapes of a snapshot *)

(** X4.  [asArray] never throws.  An array is returned as it is; an object
    gives the array under [data], else the array under [rows], else the
    array under [items]; anything else gives the empty array. *)
Theorem asArray_shapes (obj : value) :
  (exists l, asArray obj = Ok l)
  /\ (forall id l, obj = Arr id l -> asArray obj = Ok l)
  /\ (forall id props,
        obj = Obj id props ->
        asArray obj
        = Ok (if isArray (lookup props "data")
              then elements (lookup props "data")
              else if isArray (lookup props "rows")
                   then elements (lookup props "rows")
                   else if isArray (lookup props "items")
                        then elements (lookup props "items")
                        else []))
  /\ (primitive obj = true -> asArray obj = Ok []).
Proof.
  split; [ | split; [ | split]].
  - unfold asArray, wraps.
    destruct (isArray obj); [eauto | ].
    destruct (ToBoolean obj) eqn:T; [ | cbn [rbind]; eauto].
    assert (Hn : nullish obj = false)
      by (destruct obj; try discriminate; reflexivity).
    rewrite !(get_ok obj _ Hn). cbn [rbind].
    destruct (isArray (prop obj "data")); cbn [rbind]; [eauto | ].
    destruct (isArray (prop obj "rows")); cbn [rbind]; [eauto | ].
    destruct (isArray (prop obj "items")); cbn [rbind]; eauto.
  - intros id l ->. reflexivity.
  - intros id props ->. unfold asArray, wraps.
    cbn [isArray ToBoolean get rbind].
    destruct (isArray (lookup props "data")); cbn [rbind]; [reflexivity | ].
    destruct (isArray (lookup props "rows")); cbn [rbind]; [reflexivity | ].
    destruct (isArray (lookup props "items")); reflexivity.
  - destruct obj; try discriminate; intros _; unfold asArray, wraps;
      cbn [isArray ToBoolean get rbind]; try reflexivity.
    + destruct b; reflexivity.
    + destruct (negb (is_zero x || is_nan x)); reflexivity.
    + destruct (negb (String.eqb s "")); reflexivity.
Qed.

Lemma asArray_shapes_witness :
  asArray (Obj 1 [("rows", Arr 2 [Num 1]); ("items", Arr 3 [Num 2])])
  = Ok [Num 1]
  /\ asArray (Str "rows") = Ok [].
Proof.
  split.
  - rewrite (proj1 (proj2 (proj2 (asArray_shapes _))) 1%nat _ eq_refl).
    reflexivity.
  - exact (proj2 (proj2 (proj2 (asArray_shapes (Str "rows")))) eq_refl).
Defined.

(** ** Rows without a ticker *)

Lemma normalizePriceRow_ticker (r : value) (row : PriceRow) :
  normalizePriceRow r = Ok row ->
  nullish r = false /\ ticker row = first_of r ticker_aliases.
Proof.
  intros H.
  assert (Hr : nullish r = false).
  { destruct (nullish r) eqn:Hn; [ | reflexivity].
    destruct (normalizePriceRow_nullish r Hn) as [e He].
    rewrite He in H. discriminate. }
  split; [exact Hr | ].
  unfold normalizePriceRow in H.
  rewrite (first_defined_ok r ticker_aliases Hr) in H. cbn [rbind] in H.
  bind_ok H as c Ec. bind_ok H as s Es.
  bind_ok H as lr Elr. bind_ok H as ln Eln.
  bind_ok H as pr Epr. bind_ok H as pn Epn.
  bind_ok H as vr Evr. bind_ok H as vn Evn.
  bind_ok H as ts Ets.
  bind_ok H as ch Ech. bind_ok H as pc Epc.
  bind_ok H as se Ese. bind_ok H as sr Esr.
  bind_ok H as rg Erg. bind_ok H as mh Emh.
  inversion H. reflexivity.
Qed.

(** X5.  A record that has none of the ticker aliases normalises to a row
    without a ticker, and such rows are left out: every row of the price
    collection that [refresh] stores has a truthy ticker. *)
Theorem rows_without_ticker_excluded :
  (forall (r : value) (row : PriceRow),
      normalizePriceRow r = Ok row ->
      (forall n, In n ticker_aliases -> prop r n = Undefined) ->
      ToBoolean (ticker row) = false)
  /\ (forall (localeCompare : string -> string -> number)
             (pRaw nRaw lRaw : value) (pArr : list PriceRow)
             (nArr : list News.row) (lArr : list Leader.row),
         normalize_snapshots localeCompare pRaw nRaw lRaw
         = Ok (pArr, nArr, lArr) ->
         forall r, In r pArr -> ToBoolean (ticker r) = true).
Proof.
  split.
  - intros r row H Ha.
    destruct (normalizePriceRow_ticker r row H) as [_ ->].
    rewrite (first_of_absent r ticker_aliases Ha). reflexivity.
  - intros lc pRaw nRaw lRaw pArr nArr lArr H r Hr.
    pose proof (normalize_snapshots_tickers lc _ _ _ _ _ _ H) as F.
    rewrite Forall_forall in F. apply F, Hr.
Qed.

Lemma rows_without_ticker_excluded_witness :
  (exists row,
      normalizePriceRow (Obj 2 [("close", Num 5)]) = Ok row
      /\ ToBoolean (ticker row) = false)
  /\ (exists pArr,
         normalize_snapshots ordinal_compare
           (Arr 1 [abc_record; Obj 2 [("close", Num 5)]]) no_rows no_rows
         = Ok (pArr, [], [])
         /\ List.length pArr = 1%nat
         /\ forall r, In r pArr -> ToBoolean (ticker r) = true).
Proof.
  split.
  - assert (E : exists row, normalizePriceRow (Obj 2 [("close", Num 5)]) = Ok row)
      by (eexists; vm_compute; reflexivity).
    destruct E as [row E]. exists row. split; [exact E | ].
    apply (proj1 rows_without_ticker_excluded _ row E).
    intros n [<- | [<- | [<- | [<- | [<- | []]]]]]; reflexivity.
  - assert (E : normalize_snapshots ordinal_compare
                  (Arr 1 [abc_record; Obj 2 [("close", Num 5)]]) no_rows no_rows
                = Ok ([abc_row], [], [])) by (vm_compute; reflexivity).
    exists [abc_row]. split; [exact E | ]. split; [reflexivity | ].
    exact (proj2 rows_without_ticker_excluded _ _ _ _ _ _ _ E).
Defined.

(** ** The leaderboard of the third scenario *)

Definition leader (team : string) (nav : number) : Leader.row :=
  {| Leader.team := Str team; Leader.nav := nav; Leader.cash := nan;
     Leader.realized_pnl := nan |}.

(** Teams A with 120, B with 150 and C without a value are normalised and
    shown in the order B, A, C: the NaN of C ties with everything. *)
Example leaderboard_scenario :
  mapM normalizeLeaderRow
    [ Obj 1 [("team", Str "A"); ("nav", Num 120)];
      Obj 2 [("team", Str "B"); ("nav", Num 150)];
      Obj 3 [("team", Str "C")] ]
  = Ok [leader "A" 120; leader "B" 150; leader "C" nan]
  /\ sort by_nav [leader "A" 120; leader "B" 150; leader "C" nan]
     = Ok [leader "B" 150; leader "A" 120; leader "C" nan].
Proof. split; vm_compute; reflexivity. Qed.

Local Open Scope string_scope.

(** ** Invariants of a normalised price row *)

(** A numeric field holds a finite number or nothing. *)
Definition finite_or_absent (x : option number) : bool :=
  match x with
  | Some v => is_finite v
  | None => true
  end.

Lemma finite_or_null_finite (x : number) :
  finite_or_absent (finite_or_null x) = true.
Proof.
  unfold finite_or_null. destruct (is_finite x) eqn:E; [exact E | reflexivity].
Qed.

Lemma coalesce_defined (v : value) : nullish (coalesce v (Str "")) = false.
Proof. unfold coalesce. destruct (nullish v) eqn:E; [reflexivity | exact E]. Qed.

Lemma finite_field_numeric (r : value) (field : string) (o : option number) :
  nullish r = false ->
  finite_field r field = Ok o -> o = numeric (prop r field).
Proof.
  intros Hr. unfold finite_field, isFinite, numeric, finite_or_null.
  rewrite (get_ok r field Hr). cbn [rbind].
  destruct (ToNumber (prop r field)) as [x | e]; cbn [rbind]; [ | discriminate].
  destruct (is_finite x); intros H; inversion H; reflexivity.
Qed.

Lemma numeric_finite (v : value) : finite_or_absent (numeric v) = true.
Proof.
  unfold numeric. destruct (ToNumber v); [apply finite_or_null_finite | reflexivity].
Qed.

(** X6.  Every numeric field of a normalised price row (last, previous
    close, change, percent change, volume) is either absent or a finite
    number: never NaN and never an infinity. *)
Theorem normalizePriceRow_finite (r : value) (row : PriceRow) :
  normalizePriceRow r = Ok row ->
  finite_or_absent (last row) = true
  /\ finite_or_absent (prev row) = true
  /\ finite_or_absent (chg row) = true
  /\ finite_or_absent (pctChg row) = true
  /\ finite_or_absent (volume row) = true.
Proof.
  unfold normalizePriceRow. intros H.
  bind_ok H as t Et. bind_ok H as c Ec. bind_ok H as s Es.
  bind_ok H as lr Elr. bind_ok H as ln Eln.
  bind_ok H as pr Epr. bind_ok H as pn Epn.
  bind_ok H as vr Evr. bind_ok H as vn Evn.
  bind_ok H as ts Ets.
  bind_ok H as ch Ech. bind_ok H as pc Epc.
  bind_ok H as se Ese. bind_ok H as sr Esr.
  bind_ok H as rg Erg. bind_ok H as mh Emh.
  inversion H; subst row; clear H. cbn [last prev chg pctChg volume].
  repeat split; try apply finite_or_null_finite.
  - destruct ch; [apply finite_or_null_finite | reflexivity].
  - destruct pc; [apply finite_or_null_finite | reflexivity].
Qed.

Lemma normalizePriceRow_finite_witness :
  finite_or_absent (last abc_row) = true
  /\ finite_or_absent (prev abc_row) = true
  /\ finite_or_absent (chg abc_row) = true
  /\ finite_or_absent (pctChg abc_row) = true
  /\ finite_or_absent (volume abc_row) = true.
Proof. exact (normalizePriceRow_finite abc_record abc_row eq_refl). Defined.

(** The fields of a row that the normaliser returned, read off the record. *)
Lemma normalizePriceRow_fields (r : value) (row : PriceRow) :
  normalizePriceRow r = Ok row ->
  nullish r = false
  /\ ticker row = first_of r ticker_aliases
  /\ company row = coalesce (first_of r company_aliases) (Str "")
  /\ sector row = coalesce (first_of r sector_aliases) (Str "")
  /\ timestamp row = coalesce (first_of r timestamp_aliases) (Str "")
  /\ regime row = coalesce (prop r "regime") (Str "")
  /\ macro_headline row = coalesce (prop r "macro_headline") (Str "")
  /\ last row = numeric (first_of r last_aliases)
  /\ prev row = numeric (first_of r prev_aliases)
  /\ volume row = numeric (first_of r volume_aliases)
  /\ series row
     = (if isArray (prop r "series") then Some (elements (prop r "series"))
        else if isArray (prop r "history")
             then Some (elements (prop r "history")) else None)
  /\ raw row = r.
Proof.
  intros H.
  assert (Hr : nullish r = false).
  { destruct (nullish r) eqn:Hn; [ | reflexivity].
    destruct (normalizePriceRow_nullish r Hn) as [e He].
    rewrite He in H. discriminate. }
  split; [exact Hr | ].
  unfold normalizePriceRow in H.
  rewrite !(first_defined_ok r _ Hr) in H. rewrite !(get_ok r _ Hr) in H.
  cbn [rbind] in H.
  bind_ok H as ln Eln. bind_ok H as pn Epn. bind_ok H as vn Evn.
  bind_ok H as ch Ech. bind_ok H as pc Epc. bind_ok H as se Ese.
  inversion H; subst row; clear H.
  cbn [ticker company sector timestamp regime macro_headline last prev volume
       series raw].
  unfold numeric. rewrite Eln, Epn, Evn.
  repeat split.
  destruct (isArray (prop r "series")); inversion Ese; reflexivity.
Qed.

(** X7.  In a normalised price row the fields company, sector, timestamp,
    regime and macro headline are never null or undefined (a missing one is
    the empty string), the raw record is kept as it came, and the series is
    the array under [series], else the array under [history], else
    absent. *)
Theorem normalizePriceRow_texts (r : value) (row : PriceRow) :
  normalizePriceRow r = Ok row ->
  nullish (company row) = false
  /\ nullish (sector row) = false
  /\ nullish (timestamp row) = false
  /\ nullish (regime row) = false
  /\ nullish (macro_headline row) = false
  /\ raw row = r
  /\ series row
     = (if isArray (prop r "series") then Some (elements (prop r "series"))
        else if isArray (prop r "history")
             then Some (elements (prop r "history")) else None).
Proof.
  intros H.
  destruct (normalizePriceRow_fields r row H)
    as (_ & _ & -> & -> & -> & -> & -> & _ & _ & _ & Hs & Hraw).
  repeat split; try apply coalesce_defined; assumption.
Qed.

Definition history_only_record : value :=
  Obj 100 [("ticker", Str "H"); ("company", Null); ("series", Str "none");
           ("history", Arr 101 [Num 1; Num 2])].

Lemma normalizePriceRow_texts_witness :
  exists row,
    normalizePriceRow history_only_record = Ok row
    /\ company row = Str ""
    /\ series row = Some [Num 1; Num 2].
Proof.
  assert (E : exists row, normalizePriceRow history_only_record = Ok row)
    by (eexists; vm_compute; reflexivity).
  destruct E as [row E]. exists row. split; [exact E | ].
  destruct (normalizePriceRow_texts _ row E) as (_ & _ & _ & _ & _ & _ & Hs).
  split; [ | exact Hs].
  vm_compute in E. inversion E. reflexivity.
Defined.

Lemma numeric_idem (v : value) :
  match numeric v with Some c => finite_or_null c | None => None end = numeric v.
Proof.
  pose proof (numeric_finite v) as H. destruct (numeric v) as [c | ]; [ | reflexivity].
  simpl in H. unfold finite_or_null. rewrite H. reflexivity.
Qed.

Lemma finite_or_null_none (x : number) :
  finite_or_null x = None -> is_finite x = false.
Proof. unfold finite_or_null. destruct (is_finite x); [discriminate | reflexivity]. Qed.

(** X8.  The fall-backs of the derived fields: when the last price or the
    previous close is absent, the change is [Number] of the record's own
    [change] field when that is finite, and absent otherwise; when the
    previous close is absent or zero, the percent change is [Number] of the
    record's own [pct_change] field when that is finite, and absent
    otherwise. *)
Theorem normalizePriceRow_fallback (r : value) (row : PriceRow) :
  normalizePriceRow r = Ok row ->
  (last row = None \/ prev row = None -> chg row = numeric (prop r "change"))
  /\ (match prev row with
      | Some p => (p =? zero)%float = true
      | None => True
      end -> pctChg row = numeric (prop r "pct_change")).
Proof.
  intros H.
  assert (Hr : nullish r = false) by apply (normalizePriceRow_fields r row H).
  unfold normalizePriceRow in H.
  bind_ok H as t Et. bind_ok H as c Ec. bind_ok H as s Es.
  bind_ok H as lr Elr. bind_ok H as ln Eln.
  bind_ok H as pr Epr. bind_ok H as pn Epn.
  bind_ok H as vr Evr. bind_ok H as vn Evn.
  bind_ok H as ts Ets.
  bind_ok H as ch Ech. bind_ok H as pc Epc.
  bind_ok H as se Ese. bind_ok H as sr Esr.
  bind_ok H as rg Erg. bind_ok H as mh Emh.
  inversion H; subst row; clear H. cbn [last prev chg pctChg].
  split.
  - intros Hmiss.
    assert (F : is_finite ln && is_finite pn = false).
    { destruct Hmiss as [K | K]; apply finite_or_null_none in K; rewrite K;
        [reflexivity | apply Bool.andb_false_r]. }
    rewrite F in Ech. apply (finite_field_numeric r _ _ Hr) in Ech. subst ch.
    apply numeric_idem.
  - intros Hprev.
    assert (F : is_finite pn && negb (pn =? zero)%float = false).
    { unfold finite_or_null in Hprev. destruct (is_finite pn); [ | reflexivity].
      rewrite Hprev. reflexivity. }
    rewrite F in Epc.
    assert (K : finite_field r "pct_change" = Ok pc) by (destruct ch; exact Epc).
    apply (finite_field_numeric r _ _ Hr) in K. subst pc.
    apply numeric_idem.
Qed.

Definition flat_open_record : value :=
  Obj 110 [("ticker", Str "Z"); ("prev_close", Num 0); ("change", Str "1.5");
           ("pct_change", Num 5)].

Lemma normalizePriceRow_fallback_witness :
  exists row,
    normalizePriceRow flat_open_record = Ok row
    /\ chg row = Some 1.5%float
    /\ pctChg row = Some 5%float.
Proof.
  assert (E : exists row, normalizePriceRow flat_open_record = Ok row
                          /\ last row = None /\ prev row = Some 0%float)
    by (eexists; vm_compute; repeat split; reflexivity).
  destruct E as (row & E & Hl & Hp). exists row. split; [exact E | ].
  destruct (normalizePriceRow_fallback _ row E) as [Hc Hq].
  split.
  - rewrite (Hc (or_introl Hl)). reflexivity.
  - rewrite Hq; [reflexivity | rewrite Hp; reflexivity].
Defined.

(** ** The news and leaderboard normalisers *)

(** X9.  [normalizeNewsRow] throws exactly on null and undefined.  On
    every other value it returns a row that keeps the raw record, takes each
    field from the first alias that is present ([ticker] before [symbol],
    [headline] before [title], [timestamp] before [time] before [date],
    [event_type] before [type]), and has no field that is null or
    undefined. *)
Theorem normalizeNewsRow_total (n : value) :
  is_ok (normalizeNewsRow n) = negb (nullish n)
  /\ forall row,
       normalizeNewsRow n = Ok row ->
       News.raw row = n
       /\ News.ticker row = coalesce (first_of n ["ticker"; "symbol"]) (Str "")
       /\ News.headline row = coalesce (first_of n ["headline"; "title"]) (Str "")
       /\ News.timestamp row
          = coalesce (first_of n ["timestamp"; "time"; "date"]) (Str "")
       /\ News.eventType row
          = coalesce (first_of n ["event_type"; "type"]) (Str "")
       /\ nullish (News.ticker row) = false
       /\ nullish (News.company row) = false
       /\ nullish (News.headline row) = false
       /\ nullish (News.timestamp row) = false
       /\ nullish (News.eventType row) = false
       /\ nullish (News.sentiment row) = false
       /\ nullish (News.regime row) = false.
Proof.
  destruct (nullish n) eqn:Hn.
  - destruct (get_nullish n "ticker" Hn) as [e He].
    assert (E : normalizeNewsRow n = Throw e).
    { unfold normalizeNewsRow. cbn [first_defined]. rewrite He. reflexivity. }
    rewrite E. split; [reflexivity | ]. intros row H. discriminate H.
  - unfold normalizeNewsRow.
    rewrite !(first_defined_ok n _ Hn), !(get_ok n _ Hn). cbn [rbind].
    split; [reflexivity | ].
    intros row H. inversion H; subst row; clear H.
    cbn [News.raw News.ticker News.company News.headline News.timestamp
         News.eventType News.sentiment News.regime].
    repeat split; apply coalesce_defined.
Qed.

Lemma normalizeNewsRow_total_witness :
  exists row,
    normalizeNewsRow (Obj 120 [("symbol", Str "ABC"); ("title", Num 7)]) = Ok row
    /\ News.ticker row = Str "ABC"
    /\ News.headline row = Num 7
    /\ nullish (News.timestamp row) = false.
Proof.
  eexists. split; [reflexivity | ].
  destruct (proj2 (normalizeNewsRow_total
                     (Obj 120 [("symbol", Str "ABC"); ("title", Num 7)]))
              _ eq_refl)
    as (_ & Ht & Hh & _ & _ & _ & _ & _ & Hts & _).
  split; [exact Ht | ]. split; [exact Hh | exact Hts].
Defined.

Definition leader_nav_aliases : list string := ["nav"; "NAV"; "value"; "Value"].

(** X10.  [normalizeLeaderRow] returns a row only for a record that is
    neither null nor undefined; the team is never null or undefined; the NAV
    is [Number] of the first alias present among [nav], [NAV], [value],
    [Value]; and a record with none of them gets the NAV NaN, which the
    leaderboard shows as a dash. *)
Theorem normalizeLeaderRow_missing (r : value) (row : Leader.row) :
  normalizeLeaderRow r = Ok row ->
  nullish r = false
  /\ nullish (Leader.team row) = false
  /\ ToNumber (first_of r leader_nav_aliases) = Ok (Leader.nav row)
  /\ ((forall n, In n leader_nav_aliases -> prop r n = Undefined) ->
      is_nan (Leader.nav row) = true
      /\ finite_cell (Leader.nav row) = Ok "—").
Proof.
  intros H.
  assert (Hr : nullish r = false).
  { destruct (nullish r) eqn:Hn; [ | reflexivity].
    destruct (get_nullish r "team" Hn) as [e He].
    unfold normalizeLeaderRow in H. cbn [first_defined] in H.
    rewrite He in H. discriminate H. }
  split; [exact Hr | ].
  unfold normalizeLeaderRow in H.
  rewrite !(first_defined_ok r _ Hr) in H. cbn [rbind] in H.
  bind_ok H as nv En. bind_ok H as cs Ec. bind_ok H as pl Ep.
  inversion H; subst row; clear H. cbn [Leader.team Leader.nav].
  split; [apply coalesce_defined | ]. split; [exact En | ].
  intros Ha. unfold leader_nav_aliases in Ha.
  rewrite (first_of_absent r _ Ha) in En. inversion En. split; reflexivity.
Qed.

Lemma normalizeLeaderRow_missing_witness :
  exists row,
    normalizeLeaderRow (Obj 3 [("team", Str "C")]) = Ok row
    /\ is_nan (Leader.nav row) = true
    /\ finite_cell (Leader.nav row) = Ok "—".
Proof.
  eexists. split; [reflexivity | ].
  apply (normalizeLeaderRow_missing (Obj 3 [("team", Str "C")]) _ eq_refl).
  intros n [<- | [<- | [<- | [<- | []]]]]; reflexivity.
Defined.

(** ** The sectors of the filter *)

Lemma nan_not_equal (x y : number) : is_nan y = true -> (x =? y)%float = false.
Proof.
  unfold is_nan. rewrite Bool.negb_true_iff, !FloatAxioms.eqb_spec. intros H.
  destruct (sf_nan (Prim2SF y)) eqn:N.
  - destruct (Prim2SF y); try discriminate N.
    unfold SFeqb, SFcompare. destruct (Prim2SF x) as [ [ | ] | [ | ] | | [ | ] ? ?];
      reflexivity.
  - rewrite (SFeqb_refl _ N) in H. discriminate H.
Qed.

Lemma same_value_zero_refl (v : value) : same_value_zero v v = true.
Proof.
  unfold same_value_zero. destruct v; simpl; try reflexivity.
  - rewrite Bool.eqb_reflx. reflexivity.
  - unfold is_nan. destruct (x =? x)%float; reflexivity.
  - rewrite String.eqb_refl. reflexivity.
  - rewrite Nat.eqb_refl. reflexivity.
  - rewrite Nat.eqb_refl. reflexivity.
Qed.

Lemma same_value_zero_sym (a b : value) :
  same_value_zero a b = true -> same_value_zero b a = true.
Proof.
  unfold same_value_zero. rewrite !Bool.orb_true_iff. intros [H | H].
  - left. apply strict_equals_sym, H.
  - right. destruct a, b; try discriminate H.
    rewrite Bool.andb_comm. exact H.
Qed.

Lemma same_value_zero_trans (a b c : value) :
  same_value_zero a b = true -> same_value_zero b c = true ->
  same_value_zero a c = true.
Proof.
  unfold same_value_zero. rewrite !Bool.orb_true_iff. intros [H1 | H1] [H2 | H2].
  - left. eapply strict_equals_trans; eassumption.
  - destruct b, c; try discriminate H2. apply Bool.andb_true_iff in H2 as [Nb Nc].
    destruct a; try discriminate H1. simpl in H1.
    rewrite (nan_not_equal _ _ Nb) in H1. discriminate H1.
  - destruct a, b; try discriminate H1. apply Bool.andb_true_iff in H1 as [Na Nb].
    destruct c; try discriminate H2.
    apply strict_equals_sym in H2. simpl in H2.
    rewrite (nan_not_equal _ _ Nb) in H2. discriminate H2.
  - right. destruct a, b; try discriminate H1. destruct c; try discriminate H2.
    apply Bool.andb_true_iff in H1 as [Na _].
    apply Bool.andb_true_iff in H2 as [_ Nc]. rewrite Na, Nc. reflexivity.
Qed.

Lemma same_value_zero_false_sym (a b : value) :
  same_value_zero a b = false -> same_value_zero b a = false.
Proof.
  intros H. destruct (same_value_zero b a) eqn:E; [ | reflexivity].
  apply same_value_zero_sym in E. congruence.
Qed.

(** No two members of [l] are the same value. *)
Definition distinct_values (l : list value) : Prop :=
  ForallOrdPairs (fun a b => same_value_zero a b = false) l.

Lemma distinct_values_snoc (s : list value) (v : value) :
  distinct_values s -> existsb (same_value_zero v) s = false ->
  distinct_values (s ++ [v]).
Proof.
  unfold distinct_values. induction 1 as [ | a s Ha Hs IH]; intros Hv; simpl.
  - repeat constructor.
  - simpl in Hv. apply Bool.orb_false_iff in Hv as [Hva Hvs].
    constructor; [ | apply IH, Hvs].
    apply Forall_app. split; [exact Ha | ].
    repeat constructor. apply same_value_zero_false_sym, Hva.
Qed.

Lemma existsb_same_value_zero (v x : value) (s : list value) :
  same_value_zero v x = true ->
  existsb (same_value_zero x) s = existsb (same_value_zero v) s.
Proof.
  intros E. induction s as [ | a s IH]; [reflexivity | ]. simpl. rewrite IH.
  f_equal. destruct (same_value_zero x a) eqn:Ex.
  - symmetry. eapply same_value_zero_trans; eassumption.
  - destruct (same_value_zero v a) eqn:Ev; [ | reflexivity].
    rewrite (same_value_zero_trans _ _ _ (same_value_zero_sym _ _ E) Ev) in Ex.
    discriminate Ex.
Qed.

Lemma Set_add_members (s : list value) (x v : value) :
  existsb (same_value_zero v) (Set_add s x)
  = existsb (same_value_zero v) s || same_value_zero v x.
Proof.
  unfold Set_add. destruct (existsb (same_value_zero x) s) eqn:E.
  - destruct (same_value_zero v x) eqn:Ev; [ | rewrite Bool.orb_false_r; reflexivity].
    rewrite <- (existsb_same_value_zero v x s Ev), E. reflexivity.
  - rewrite existsb_app. simpl. rewrite Bool.orb_false_r. reflexivity.
Qed.

Lemma fold_Set_add (l s : list value) :
  distinct_values s ->
  distinct_values (fold_left Set_add l s)
  /\ (forall v, existsb (same_value_zero v) (fold_left Set_add l s)
                = existsb (same_value_zero v) s || existsb (same_value_zero v) l)
  /\ (forall v, In v (fold_left Set_add l s) -> In v s \/ In v l).
Proof.
  revert s. induction l as [ | x l IH]; intros s Hs; simpl.
  - split; [exact Hs | ]. split; [ | auto].
    intros v. rewrite Bool.orb_false_r. reflexivity.
  - assert (Hd : distinct_values (Set_add s x)).
    { unfold Set_add. destruct (existsb (same_value_zero x) s) eqn:E;
        [exact Hs | apply distinct_values_snoc; assumption]. }
    destruct (IH _ Hd) as (H1 & H2 & H3). split; [exact H1 | ]. split.
    + intros v. rewrite H2, Set_add_members, Bool.orb_assoc. reflexivity.
    + intros v Hv. destruct (H3 v Hv) as [K | K]; [ | auto].
      unfold Set_add in K. destruct (existsb (same_value_zero x) s); [auto | ].
      apply in_app_or in K. destruct K as [K | [<- | []]]; auto.
Qed.

Lemma new_Set_spec (l : list value) :
  distinct_values (new_Set l)
  /\ (forall v, existsb (same_value_zero v) (new_Set l)
                = existsb (same_value_zero v) l)
  /\ (forall v, In v (new_Set l) -> In v l).
Proof.
  destruct (fold_Set_add l [] (FOP_nil _)) as (H1 & H2 & H3).
  split; [exact H1 | ]. split; [exact H2 | ].
  intros v Hv. destruct (H3 v Hv) as [[] | K]. exact K.
Qed.

(** ** Running the script on a page *)

Lemma find_replace_eqb (d : Dom) (id id' : string) (e : Element) :
  find_element (replace_element d id e) id'
  = if String.eqb id id'
    then match find_element d id with Some _ => Some e | None => None end
    else find_element d id'.
Proof.
  induction d as [ | [k x] rest IH]; simpl.
  - destruct (String.eqb id id'); reflexivity.
  - destruct (String.eqb_spec k id) as [-> | Hk]; simpl.
    + destruct (String.eqb id id'); reflexivity.
    + rewrite IH. destruct (String.eqb_spec id id') as [-> | Hi].
      * apply String.eqb_neq in Hk. rewrite Hk. reflexivity.
      * reflexivity.
Qed.

Lemma replace_replace (d : Dom) (id : string) (e1 e2 : Element) :
  replace_element (replace_element d id e1) id e2 = replace_element d id e2.
Proof.
  induction d as [ | [k x] rest IH]; simpl; [reflexivity | ].
  destruct (String.eqb k id) eqn:E; simpl; rewrite E; [reflexivity | ].
  rewrite IH. reflexivity.
Qed.

Lemma replace_found (d : Dom) (id : string) (e : Element) :
  find_element d id = Some e -> replace_element d id e = d.
Proof.
  induction d as [ | [k x] rest IH]; simpl; [reflexivity | ].
  destruct (String.eqb k id); intros H.
  - inversion H. reflexivity.
  - rewrite (IH H). reflexivity.
Qed.

Lemma replace_swap (d : Dom) (a b : string) (e1 e2 : Element) :
  String.eqb a b = false ->
  replace_element (replace_element d a e1) b e2
  = replace_element (replace_element d b e2) a e1.
Proof.
  intros Hab. induction d as [ | [k x] rest IH]; simpl; [reflexivity | ].
  destruct (String.eqb_spec k a) as [-> | Ha].
  - rewrite Hab. simpl. rewrite Hab, String.eqb_refl. reflexivity.
  - destruct (String.eqb_spec k b) as [-> | Hb]; simpl.
    + apply String.eqb_neq in Ha. rewrite String.eqb_refl, Ha. reflexivity.
    + apply String.eqb_neq in Ha, Hb. rewrite Ha, Hb, IH. reflexivity.
Qed.

Lemma bind_read {A B} (id prop : string) (f : Element -> A) (k : A -> M B)
      (w : World) (e : Element) :
  find_element (dom w) id = Some e ->
  bind (read id prop f) k w = k (f e) w.
Proof. intros H. unfold bind, read. rewrite H. reflexivity. Qed.

Lemma bind_write {B} (id prop : string) (f : Element -> Element)
      (k : unit -> M B) (w : World) (e : Element) :
  find_element (dom w) id = Some e ->
  bind (write id prop f) k w
  = k tt {| state := state w; dom := replace_element (dom w) id (f e) |}.
Proof. intros H. unfold bind, write. rewrite H. reflexivity. Qed.

Lemma bind_write_text {B} (id prop : string) (t : string)
      (f : string -> Element -> Element) (k : unit -> M B) (w : World)
      (e : Element) :
  find_element (dom w) id = Some e ->
  bind (write_text id prop (Ok t) f) k w
  = k tt {| state := state w; dom := replace_element (dom w) id (f t e) |}.
Proof. intros H. unfold bind, write_text. rewrite H. reflexivity. Qed.

(** Decides which element an id names on a page that was written to. *)
Ltac find_tac :=
  cbn [dom state];
  repeat (rewrite find_replace_eqb;
          match goal with
          | |- context [String.eqb ?a ?b] =>
              let v := eval vm_compute in (String.eqb a b) in
              change (String.eqb a b) with v
          end; cbv iota);
  repeat match goal with
         | H : find_element _ _ = Some _ |- _ => rewrite H
         end;
  try reflexivity.

(** ** The trade dialog *)

Lemma modal_round_trip (w : World) (backdrop dialog : Element) :
  find_element (dom w) "modalBackdrop" = Some backdrop ->
  find_element (dom w) "tradeModal" = Some dialog ->
  exists w1 w2,
    openTradeModal w = (Ok tt, w1)
    /\ option_map el_hidden (find_element (dom w1) "modalBackdrop") = Some false
    /\ option_map el_hidden (find_element (dom w1) "tradeModal") = Some false
    /\ closeTradeModal w1 = (Ok tt, w2)
    /\ option_map el_hidden (find_element (dom w2) "modalBackdrop") = Some true
    /\ option_map el_hidden (find_element (dom w2) "tradeModal") = Some true
    /\ (el_hidden backdrop = true -> el_hidden dialog = true -> w2 = w).
Proof.
  intros Hb Hd. destruct w as [s d]. cbn [dom] in Hb, Hd.
  eexists. eexists.
  split.
  { unfold openTradeModal. erewrite bind_write by (cbn [dom]; exact Hb).
    unfold write. cbn [dom state]. rewrite find_replace_eqb. cbn. rewrite Hd.
    reflexivity. }
  split; [find_tac | ]. split; [find_tac | ].
  split.
  { unfold closeTradeModal. erewrite bind_write by find_tac.
    unfold write. cbn [dom state]. 
    assert (E : find_element
                  (replace_element
                     (replace_element
                        (replace_element d "modalBackdrop" (set_hidden false backdrop))
                        "tradeModal" (set_hidden false dialog))
                     "modalBackdrop"
                     (set_hidden true (set_hidden false backdrop))) "tradeModal"
                = Some (set_hidden false dialog)) by find_tac.
    rewrite E. reflexivity. }
  split; [find_tac | ]. split; [find_tac | ].
  intros Eb Ed. f_equal. cbn [dom state].
  rewrite (replace_swap _ "tradeModal" "modalBackdrop") by reflexivity.
  rewrite !replace_replace.
  assert (Kb : set_hidden true (set_hidden false backdrop) = backdrop)
    by (destruct backdrop; cbn in Eb |- *; rewrite Eb; reflexivity).
  assert (Kd : set_hidden true (set_hidden false dialog) = dialog)
    by (destruct dialog; cbn in Ed |- *; rewrite Ed; reflexivity).
  rewrite Kb, Kd, (replace_found _ _ _ Hb). apply replace_found, Hd.
Qed.

(** X11.  On a page that has the backdrop: if it also has the dialog,
    [openTradeModal] shows both and [closeTradeModal] hides both again, which
    gives back a page where both were hidden before; if the dialog is
    missing, [openTradeModal] throws after it has already shown the
    backdrop. *)
Theorem modal_open_close (w : World) (backdrop : Element) :
  find_element (dom w) "modalBackdrop" = Some backdrop ->
  (forall dialog,
      find_element (dom w) "tradeModal" = Some dialog ->
      exists w1 w2,
        openTradeModal w = (Ok tt, w1)
        /\ option_map el_hidden (find_element (dom w1) "modalBackdrop")
           = Some false
        /\ option_map el_hidden (find_element (dom w1) "tradeModal")
           = Some false
        /\ closeTradeModal w1 = (Ok tt, w2)
        /\ option_map el_hidden (find_element (dom w2) "modalBackdrop")
           = Some true
        /\ option_map el_hidden (find_element (dom w2) "tradeModal")
           = Some true
        /\ (el_hidden backdrop = true -> el_hidden dialog = true -> w2 = w))
  /\ (find_element (dom w) "tradeModal" = None ->
      exists e w1,
        openTradeModal w = (Throw e, w1)
        /\ option_map el_hidden (find_element (dom w1) "modalBackdrop")
           = Some false).
Proof.
  intros Hb. split.
  - intros dialog Hd. apply modal_round_trip; assumption.
  - intros Hd. destruct w as [s d]. cbn [dom] in Hb, Hd.
    eexists. eexists. split.
    + unfold openTradeModal. erewrite bind_write by (cbn [dom]; exact Hb).
      unfold write. cbn [dom state]. rewrite find_replace_eqb. cbn. rewrite Hd.
      reflexivity.
    + find_tac.
Qed.

(** ** What the renderers leave on the page *)

(** [e] with the nodes [nodes] appended, in order. *)
Definition append_all (nodes : list Node) (e : Element) : Element :=
  fold_left (fun acc n => appendChild n acc) nodes e.

Lemma append_all_children (nodes : list Node) (e : Element) :
  el_children (append_all nodes e) = (el_children e ++ nodes)%list
  /\ el_innerHTML (append_all nodes e) = el_innerHTML e
  /\ el_value (append_all nodes e) = el_value e
  /\ el_textContent (append_all nodes e) = el_textContent e.
Proof.
  revert e. induction nodes as [ | n nodes IH]; intros e; simpl.
  - rewrite app_nil_r. repeat split.
  - destruct (IH (appendChild n e)) as (H1 & H2 & H3 & H4).
    unfold append_all in *. rewrite H1, H2, H3, H4. cbn.
    rewrite <- app_assoc. repeat split.
Qed.

(** A loop whose body appends one node to the element [id]. *)
Lemma for_of_appendChild {A} (id : string) (body : A -> M unit)
      (node : A -> Node) (l : list A) :
  (forall x s d e,
      In x l -> find_element d id = Some e ->
      body x {| state := s; dom := d |}
      = (Ok tt, {| state := s;
                   dom := replace_element d id (appendChild (node x) e) |})) ->
  forall s d e,
    find_element d id = Some e ->
    for_of l body {| state := s; dom := d |}
    = (Ok tt, {| state := s;
                 dom := replace_element d id
                          (append_all (List.map node l) e) |}).
Proof.
  induction l as [ | x l IH]; intros Hb s d e He; simpl.
  - unfold ret. rewrite (replace_found _ _ _ He). reflexivity.
  - unfold bind. rewrite (Hb x s d e (or_introl eq_refl) He).
    rewrite (IH (fun y s0 d0 e0 Hy => Hb y s0 d0 e0 (or_intror Hy)) s _
               (appendChild (node x) e)).
    + rewrite replace_replace. reflexivity.
    + rewrite find_replace_eqb, String.eqb_refl, He. reflexivity.
Qed.

Lemma printable_or_else (a b : value) :
  printable a = true -> printable b = true -> printable (or_else a b) = true.
Proof. unfold or_else. destruct (ToBoolean a); auto. Qed.

Lemma escapeHtml_ok (v : value) :
  printable v = true -> exists s, escapeHtml v = Ok s.
Proof.
  intros H. unfold escapeHtml.
  assert (K : printable (coalesce v (Str "")) = true)
    by (unfold coalesce; destruct (nullish v); [reflexivity | exact H]).
  destruct (printable_ok _ K) as [t ->]. cbn [rbind]. eauto.
Qed.

(** The fields of a news row that [renderNews] prints. *)
Definition news_printable (n : News.row) : Prop :=
  printable (News.ticker n) = true /\ printable (News.company n) = true
  /\ printable (News.timestamp n) = true /\ printable (News.eventType n) = true
  /\ printable (News.regime n) = true /\ printable (News.headline n) = true.

Lemma news_item_html_ok (n : News.row) :
  news_printable n -> exists html, news_item_html n = Ok html.
Proof.
  intros (Ht & Hc & Hts & He & Hr & Hh). unfold news_item_html.
  destruct (printable_ok _ Ht) as [t Et]. destruct (printable_ok _ Hc) as [c Ec].
  assert (E1 : exists title,
             (if ToBoolean (News.company n)
              then t0 <- ToString (News.ticker n) ;;
                   c0 <- ToString (News.company n) ;;
                   Ok (t0 ++ " (" ++ c0 ++ ")")
              else ToString (News.ticker n))%js = Ok title).
  { rewrite Et, Ec. cbn [rbind]. destruct (ToBoolean (News.company n)); eauto. }
  destruct E1 as [title ->]. cbn [rbind].
  destruct (escapeHtml_ok (Str title) eq_refl) as [head ->]. cbn [rbind].
  destruct (escapeHtml_ok _ (printable_or_else _ (Str "") Hts eq_refl)) as [meta ->].
  cbn [rbind].
  destruct (escapeHtml_ok _ (printable_or_else _ (Str "") He eq_refl)) as [type ->].
  cbn [rbind].
  assert (E2 : exists regime,
             (if ToBoolean (News.regime n)
              then r <- escapeHtml (News.regime n) ;; Ok (" • " ++ r)
              else Ok "")%js = Ok regime).
  { destruct (escapeHtml_ok _ Hr) as [r ->]. cbn [rbind].
    destruct (ToBoolean (News.regime n)); eauto. }
  destruct E2 as [regime ->]. cbn [rbind].
  destruct (escapeHtml_ok _ (printable_or_else _ (Str "") Hh eq_refl)) as [body ->].
  cbn [rbind]. eauto.
Qed.

(** The node that [renderNews] appends for the item [n], given its markup. *)
Definition news_node (n : News.row) (html : string) : Node :=
  {| tag := "div"; attributes := [("class", "news-item")]; content := html;
     onclick := if ToBoolean (News.ticker n) then Some (News.ticker n) else None |}.

(** The text of a conversion that returned, and nothing otherwise. *)
Definition or_blank (r : result string) : string :=
  match r with Ok text => text | Throw _ => "" end.

(** X12.  [renderNews] on a page with the news list, when the fields of the
    shown items convert to text: it ends normally and changes only the news
    list, which holds the placeholder "No news yet." when there is no news,
    and otherwise one child per item, in order, for the first 50 items at
    most (a child is clickable exactly when the item has a ticker). *)
Theorem renderNews_page (w : World) (box : Element) :
  find_element (dom w) "newsList" = Some box ->
  (forall n, In n (firstn 50 (news (state w))) -> news_printable n) ->
  let shown := firstn 50 (news (state w)) in
  let box' :=
    match shown with
    | [] => set_innerHTML ("<div " ++ attr "class" "muted" ++ ">No news yet.</div>") box
    | _ =>
        append_all (List.map (fun n => news_node n (or_blank (news_item_html n))) shown)
          (set_innerHTML "" box)
    end in
  renderNews w
  = (Ok tt, {| state := state w; dom := replace_element (dom w) "newsList" box' |})
  /\ List.length (el_children box') = Nat.min 50 (List.length (news (state w))).
Proof.
  intros Hbox Hp. cbv zeta. destruct w as [s d]. cbn [dom state] in *.
  split.
  - unfold renderNews. unfold bind at 1. unfold get_state. cbn [state].
    erewrite bind_write by (cbn [dom]; exact Hbox). cbn [dom state].
    destruct (firstn 50 (news s)) as [ | n0 rest] eqn:E.
    + unfold write. cbn [dom state]. rewrite find_replace_eqb, String.eqb_refl, Hbox.
      rewrite replace_replace. reflexivity.
    + rewrite (for_of_appendChild "newsList" _
                 (fun n => news_node n (or_blank (news_item_html n))) (n0 :: rest)
                 ) with (e := set_innerHTML "" box).
      * rewrite replace_replace. reflexivity.
      * intros x s0 d0 e0 Hx He.
        destruct (news_item_html_ok x (Hp x Hx)) as [html Eh].
        unfold bind, lift, or_blank. rewrite Eh.
        unfold write. cbn [dom state]. rewrite He. reflexivity.
      * rewrite find_replace_eqb, String.eqb_refl, Hbox. reflexivity.
  - destruct (firstn 50 (news s)) as [ | n0 rest] eqn:E.
    + cbn [set_innerHTML el_children List.length].
      rewrite <- (length_firstn 50 (news s)), E. reflexivity.
    + destruct (append_all_children
                  (List.map (fun n => news_node n (or_blank (news_item_html n)))
                     (n0 :: rest)) (set_innerHTML "" box)) as (-> & _).
      cbn [el_children set_innerHTML app]. rewrite length_map, <- E.
      apply length_firstn.
Qed.

(** ** Markup of a news item *)

Lemma Ok_inj {A} (a b : A) : @Ok A a = Ok b -> a = b.
Proof. intros H. inversion H. reflexivity. Qed.

(** How often the character [c] occurs in [s]. *)
Definition occurrences (c : ascii) (s : string) : nat :=
  List.length (filter (Ascii.eqb c) (chars s)).

Lemma chars_app (a b : string) : chars (a ++ b) = (chars a ++ chars b)%list.
Proof. induction a as [ | c a IH]; simpl; [reflexivity | rewrite IH; reflexivity]. Qed.

Lemma occurrences_app (c : ascii) (a b : string) :
  occurrences c (a ++ b) = (occurrences c a + occurrences c b)%nat.
Proof. unfold occurrences. rewrite chars_app, filter_app, length_app. reflexivity. Qed.

Lemma inert_occurrences (l : list ascii) :
  forallb inert l = true ->
  occurrences "<" (str l) = 0%nat /\ occurrences ">" (str l) = 0%nat
  /\ occurrences "034" (str l) = 0%nat /\ occurrences "'" (str l) = 0%nat.
Proof.
  unfold occurrences. rewrite chars_str.
  induction l as [ | c l IH]; [repeat split | ].
  cbn [forallb]. rewrite Bool.andb_true_iff. intros [Hc Hl].
  destruct (IH Hl) as (H1 & H2 & H3 & H4). unfold inert in Hc.
  rewrite Bool.negb_true_iff, !Bool.orb_false_iff in Hc.
  destruct Hc as (((C1 & C2) & C3) & C4).
  cbn [filter]. rewrite (Ascii.eqb_sym "<" c), (Ascii.eqb_sym ">" c),
    (Ascii.eqb_sym "034" c), (Ascii.eqb_sym "'" c), C1, C2, C3, C4.
  repeat split; assumption.
Qed.

Lemma flat_map_inert (l : list ascii) : forallb inert (flat_map escape_char l) = true.
Proof.
  induction l as [ | c l IH]; [reflexivity | ].
  cbn [flat_map]. rewrite forallb_app, escape_char_inert, IH. reflexivity.
Qed.

(** Whatever [escapeHtml] returns holds none of [<], [>] and the quotes. *)
Lemma escapeHtml_occurrences (v : value) (out : string) :
  escapeHtml v = Ok out ->
  occurrences "<" out = 0%nat /\ occurrences ">" out = 0%nat
  /\ occurrences "034" out = 0%nat /\ occurrences "'" out = 0%nat.
Proof.
  intros H.
  assert (E : exists t, escapeHtml (Str t) = Ok out).
  { unfold escapeHtml in H. bind_ok H as t Et. exists t. exact H. }
  destruct E as [t E]. rewrite escapeHtml_chars in E. inversion E.
  apply inert_occurrences, flat_map_inert.
Qed.

(** X13.  Whatever the fields of a news item contain, its markup has
    exactly the ten [<], ten [>] and ten double quotes of the template, and
    no single quote: no field can open or close a tag or an attribute. *)
Theorem news_item_html_tags (n : News.row) (html : string) :
  news_item_html n = Ok html ->
  occurrences "<" html = 10%nat /\ occurrences ">" html = 10%nat
  /\ occurrences "034" html = 10%nat /\ occurrences "'" html = 0%nat.
Proof.
  unfold news_item_html. intros H.
  bind_ok H as title Et. bind_ok H as head Eh. bind_ok H as meta Em.
  bind_ok H as type Ety. bind_ok H as regime Er. bind_ok H as body Eb.
  apply Ok_inj in H. subst html.
  destruct (escapeHtml_occurrences _ _ Eh) as (H1 & H2 & H3 & H4).
  destruct (escapeHtml_occurrences _ _ Em) as (M1 & M2 & M3 & M4).
  destruct (escapeHtml_occurrences _ _ Ety) as (T1 & T2 & T3 & T4).
  destruct (escapeHtml_occurrences _ _ Eb) as (B1 & B2 & B3 & B4).
  assert (R : occurrences "<" regime = 0%nat /\ occurrences ">" regime = 0%nat
              /\ occurrences "034" regime = 0%nat
              /\ occurrences "'" regime = 0%nat).
  { destruct (ToBoolean (News.regime n)).
    - bind_ok Er as r Err. apply Ok_inj in Er. subst regime.
      destruct (escapeHtml_occurrences _ _ Err) as (R1 & R2 & R3 & R4).
      rewrite !occurrences_app, R1, R2, R3, R4. repeat split.
    - inversion Er. repeat split. }
  destruct R as (R1 & R2 & R3 & R4).
  unfold attr. rewrite !occurrences_app.
  rewrite H1, H2, H3, H4, M1, M2, M3, M4, T1, T2, T3, T4, B1, B2, B3, B4,
    R1, R2, R3, R4.
  repeat split.
Qed.

Lemma news_item_html_tags_witness :
  exists html,
    news_item_html markup_news = Ok html
    /\ occurrences "<" html = 10%nat /\ occurrences ">" html = 10%nat.
Proof.
  assert (E : exists html, news_item_html markup_news = Ok html)
    by (eexists; vm_compute; reflexivity).
  destruct E as [html E]. exists html. split; [exact E | ].
  destruct (news_item_html_tags _ _ E) as (H1 & H2 & _). split; assumption.
Defined.

(** ** The watchlist on the page *)

Lemma fmtNum_number (x : number) (digits : Z) :
  fmtNum (Num x) digits = if is_nan x then Ok "—" else toFixed x digits.
Proof. unfold fmtNum. cbn. destruct (is_nan x); reflexivity. Qed.


Section WatchlistPage.

Context {host : Host}.








End WatchlistPage.

(** ** The leaderboard on the page *)






(** ** Ordering by a text key *)

Section KeyOrder.

Context {A : Type} (key : A -> string).

Definition key_le (a b : A) : bool := negb (string_lt (key b) (key a)).

Lemma key_le_trans (x y z : A) :
  key_le x y = true -> key_le y z = true -> key_le x z = true.
Proof.
  unfold key_le, string_lt. rewrite !Bool.negb_true_iff. intros H1 H2.
  destruct (lt_chars (chars (key z)) (chars (key x))) eqn:E; [ | reflexivity].
  destruct (lt_chars_cotrans _ (chars (key y)) _ E); congruence.
Qed.

(** A comparator that puts [x] before [y] exactly when the key of [x] is
    less than the key of [y] decides [key_le]. *)
Lemma key_lt_decides (comparefn : A -> A -> result number) (x y : A) :
  before comparefn x y = Ok (string_lt (key x) (key y)) ->
  exists b, before comparefn x y = Ok b
            /\ (if b then key_le x y = true else key_le y x = true).
Proof.
  intros E. exists (string_lt (key x) (key y)). split; [exact E | ].
  unfold key_le. destruct (string_lt (key x) (key y)) eqn:L; [ | reflexivity].
  unfold string_lt in *. rewrite (lt_chars_asym _ _ L). reflexivity.
Qed.

End KeyOrder.

(** ** The sector filter on the page *)

(** The text of a value that converts to a string. *)
Definition text (v : value) : string := or_blank (ToString v).

Definition option_node (v : value) : Node :=
  {| tag := "option"; attributes := [("value", text v)]; content := text v;
     onclick := None |}.

Lemma default_compare_before (x y : value) :
  printable x = true -> printable y = true ->
  before default_compare x y = Ok (string_lt (text x) (text y)).
Proof.
  intros Hx Hy. unfold before, default_compare, text, or_blank.
  destruct (printable_ok _ Hx) as [xs ->]. destruct (printable_ok _ Hy) as [ys ->].
  cbn [rbind]. destruct (string_lt xs ys); [reflexivity | ].
  destruct (string_lt ys xs); reflexivity.
Qed.

(** X16.  [fillSectorFilter] on a page with the sector filter, when the
    sectors convert to text: the filter gets the option "All sectors"
    followed by one option per sector in ascending order of the sectors'
    text, and keeps its current value when that is still one of the options,
    else falls back to the empty value; nothing else changes. *)
Theorem fillSectorFilter_page (w : World) (select : Element) :
  find_element (dom w) "sectorFilter" = Some select ->
  (forall v, In v (sectors (state w)) -> printable v = true) ->
  exists sorted,
    sort default_compare (sectors (state w)) = Ok sorted
    /\ Permutation (sectors (state w)) sorted
    /\ StronglySorted (fun a b => string_lt (text b) (text a) = false) sorted
    /\ fillSectorFilter w
       = (Ok tt,
          {| state := state w;
             dom :=
               replace_element (dom w) "sectorFilter"
                 (set_value
                    (if existsb (String.eqb (el_value select))
                          ("" :: List.map text sorted)
                     then el_value select else "")
                    (append_all (List.map option_node sorted)
                       (set_innerHTML
                          ("<option " ++ attr "value" "" ++ ">All sectors</option>")
                          select))) |}).
Proof.
  intros Hs Hp. destruct w as [s d]. cbn [dom state] in *.
  destruct (sort_sorted default_compare (key_le text) (key_le_trans text)
              (sectors s)) with (l := sectors s) as (sorted & E & P & S).
  { intros x y Hx Hy. apply key_lt_decides.
    apply default_compare_before; apply Hp; assumption. }
  { intros x Hx. exact Hx. }
  exists sorted. split; [exact E | ]. split; [exact P | ]. split.
  { unfold ascending, key_le in S.
    eapply StronglySorted_ind with (P := fun l => StronglySorted _ l);
      [ constructor | | exact S ].
    intros a l0 _ IH F. constructor; [exact IH | ].
    eapply Forall_impl; [ | exact F]. intros b Hb. cbv beta in Hb.
    apply Bool.negb_true_iff in Hb. exact Hb. }
  unfold fillSectorFilter.
  erewrite bind_read by (cbn [dom]; exact Hs).
  erewrite bind_write by (cbn [dom]; exact Hs). cbn [dom state].
  unfold bind at 1. unfold get_state. cbn [state].
  unfold bind at 1. unfold lift at 1. rewrite E.
  unfold bind at 1.
  rewrite (for_of_appendChild "sectorFilter" _ option_node sorted)
    with (e := set_innerHTML
                 ("<option " ++ attr "value" "" ++ ">All sectors</option>") select).
  - rewrite replace_replace. unfold write. cbn [dom state].
    rewrite find_replace_eqb, String.eqb_refl, Hs, replace_replace.
    destruct (append_all_children (List.map option_node sorted)
                (set_innerHTML
                   ("<option " ++ attr "value" "" ++ ">All sectors</option>")
                   select)) as (-> & _).
    cbn [set_innerHTML el_children app]. rewrite map_map.
    reflexivity.
  - intros x s0 d0 e0 Hx He.
    assert (Hin : In x (sectors s))
      by (apply (Permutation_in _ (Permutation_sym P)); exact Hx).
    unfold bind, lift, option_node, text, or_blank.
    destruct (printable_ok _ (Hp x Hin)) as [t ->].
    unfold write. cbn [dom state]. rewrite He. reflexivity.
  - rewrite find_replace_eqb, String.eqb_refl, Hs. reflexivity.
Qed.

(** ** Selecting a ticker that is there *)

Section Selecting.

Context {host : Host}.

(** X17.  [selectTicker] of a ticker that no price row has changes neither
    the state nor the page.  Otherwise the first row with that ticker becomes
    the selection, even when drawing the detail panel throws afterwards, and
    when the call ends normally the ticker field of the trade form holds that
    ticker. *)
Theorem selectTicker_effect (t : value) (w : World) :
  match find (fun x => strict_equals (ticker x) t) (prices (state w)) with
  | None => selectTicker t w = (Ok tt, w)
  | Some r =>
      let w' := snd (selectTicker t w) in
      state w' = set_selected (Some r) (state w)
      /\ (fst (selectTicker t w) = Ok tt ->
          exists s,
            ToString (or_else (ticker r) (Str "")) = Ok s
            /\ field w' "fTicker" = Some s)
  end.
Proof.
  destruct (find (fun x => strict_equals (ticker x) t) (prices (state w)))
    as [r | ] eqn:Hr.
  - cbv zeta. split.
    + rewrite selectTicker_state. unfold select_in. rewrite Hr. reflexivity.
    + destruct (selectTicker t w) as [res w'] eqn:R. cbn [fst snd]. intros ->.
      unfold selectTicker in R. unfold bind at 1 in R. unfold get_state in R.
      cbn [state] in R. rewrite Hr in R.
      do 19 (apply bind_run in R; destruct R as (? & ? & _ & R)).
      match type of R with
      | prefillTradeForm _ ?v = _ => rename v into before_last
      end.
      unfold prefillTradeForm, write_text in R.
      destruct (find_element (dom before_last) "fTicker") as [e | ] eqn:Ef;
        [ | discriminate R].
      destruct (ToString (or_else (ticker r) (Str ""))) as [s | ];
        [ | discriminate R].
      exists s. split; [reflexivity | ].
      inversion R. unfold field. cbn [dom].
      rewrite find_replace_eqb, String.eqb_refl, Ef. reflexivity.
  - unfold selectTicker. unfold bind at 1. unfold get_state.
    cbn [state]. rewrite Hr. reflexivity.
Qed.

End Selecting.

(** ** More on refresh *)

Lemma asArray_total (obj : value) : exists l, asArray obj = Ok l.
Proof.
  unfold asArray, wraps.
  destruct (isArray obj); [eauto | ].
  destruct (ToBoolean obj) eqn:T; [ | cbn [rbind]; eauto].
  assert (Hn : nullish obj = false)
    by (destruct obj; try discriminate; reflexivity).
  rewrite !(get_ok obj _ Hn). cbn [rbind].
  destruct (isArray (prop obj "data")); cbn [rbind]; [eauto | ].
  destruct (isArray (prop obj "rows")); cbn [rbind]; [eauto | ].
  destruct (isArray (prop obj "items")); cbn [rbind]; eauto.
Qed.

(** The rows of a snapshot. *)
Definition rows_of (snapshot : value) : list value :=
  match asArray snapshot with
  | Ok l => l
  | Throw _ => []
  end.

Lemma asArray_rows_of (snapshot : value) :
  asArray snapshot = Ok (rows_of snapshot).
Proof.
  unfold rows_of. destruct (asArray_total snapshot) as [l ->]. reflexivity.
Qed.

Lemma mapM_throw {A B} (f : A -> result B) (l : list A) (x : A) :
  In x l -> is_ok (f x) = false -> is_ok (mapM f l) = false.
Proof.
  induction l as [ | a l IH]; intros Hx Hf; [destruct Hx | ].
  simpl. destruct (f a) as [b | e] eqn:Ea; [ | reflexivity]. cbn [rbind].
  destruct Hx as [-> | Hx]; [rewrite Ea in Hf; discriminate Hf | ].
  specialize (IH Hx Hf). destruct (mapM f l); [discriminate IH | reflexivity].
Qed.

Lemma nullish_throws (v : value) (name : string) :
  nullish v = true -> is_ok (get v name) = false.
Proof. destruct v; simpl; intros H; try discriminate; reflexivity. Qed.

Lemma normalizePriceRow_null (v : value) :
  nullish v = true -> is_ok (normalizePriceRow v) = false.
Proof.
  intros H. destruct (normalizePriceRow_nullish v H) as [e ->]. reflexivity.
Qed.

Lemma normalizeNewsRow_null (v : value) :
  nullish v = true -> is_ok (normalizeNewsRow v) = false.
Proof.
  intros H. destruct (get_nullish v "ticker" H) as [e He].
  unfold normalizeNewsRow. cbn [first_defined]. rewrite He. reflexivity.
Qed.

Lemma normalizeLeaderRow_null (v : value) :
  nullish v = true -> is_ok (normalizeLeaderRow v) = false.
Proof.
  intros H. destruct (get_nullish v "team" H) as [e He].
  unfold normalizeLeaderRow. cbn [first_defined]. rewrite He. reflexivity.
Qed.

Section RefreshMore.

Context {host : Host}.

Variable localeCompare : string -> string -> number.

(** What [refresh] leaves of the state, by how normalising went. *)
Lemma refresh_state_ok (p n l : result value) (w : World)
      (pArr : list PriceRow) (nArr : list News.row) (lArr : list Leader.row) :
  normalize_snapshots localeCompare (or_empty p) (or_empty n) (or_empty l)
  = Ok (pArr, nArr, lArr) ->
  same_collections (assigned pArr nArr lArr (state w))
    (state (snd (refresh localeCompare p n l w))).
Proof.
  intros E. unfold refresh, try_catch.
  rewrite (refresh_try_ok _ _ _ _ _ _ _ _ E).
  pose proof (after_assignments_collections pArr
                {| state := assigned pArr nArr lArr (state w);
                   dom := dom w |}) as H.
  destruct (after_assignments pArr _) as [[[] | e] w1]; cbn [fst snd state] in *.
  - exact H.
  - rewrite <- (page_only_refresh_catch e w1). exact H.
Qed.

Lemma refresh_state_throw (p n l : result value) (w : World) :
  is_ok (normalize_snapshots localeCompare (or_empty p) (or_empty n)
           (or_empty l)) = false ->
  is_ok (fst (refresh_try localeCompare (or_empty p) (or_empty n) (or_empty l) w))
  = false
  /\ state (snd (refresh localeCompare p n l w)) = state w.
Proof.
  intros H.
  destruct (normalize_snapshots localeCompare (or_empty p) (or_empty n)
              (or_empty l)) as [x | e] eqn:E; [discriminate H | ].
  unfold refresh, try_catch. rewrite (refresh_try_throw _ _ _ _ _ _ E).
  split; [reflexivity | ]. symmetry. apply (page_only_refresh_catch e w).
Qed.

(** X18.  One null or undefined entry in any of the three snapshots makes
    the normalisation throw; [refresh] catches it and leaves the state as it
    was. *)
Theorem refresh_null_entry (p n l : result value) (w : World) (v : value) :
  nullish v = true ->
  In v (rows_of (or_empty p)) \/ In v (rows_of (or_empty n))
  \/ In v (rows_of (or_empty l)) ->
  is_ok (fst (refresh_try localeCompare (or_empty p) (or_empty n) (or_empty l) w))
  = false
  /\ state (snd (refresh localeCompare p n l w)) = state w.
Proof.
  intros Hv Hin. apply refresh_state_throw. unfold normalize_snapshots.
  rewrite !asArray_rows_of. cbn [rbind].
  destruct (mapM normalizePriceRow (rows_of (or_empty p))) as [pAll | e] eqn:Ep;
    [ | reflexivity].
  cbn [rbind].
  destruct (mapM normalizeNewsRow (rows_of (or_empty n))) as [nAll | e] eqn:En;
    [ | reflexivity].
  cbn [rbind].
  destruct (mapM normalizeLeaderRow (rows_of (or_empty l))) as [lAll | e] eqn:El;
    [ | reflexivity].
  exfalso. destruct Hin as [H | [H | H]].
  - pose proof (mapM_throw _ _ _ H (normalizePriceRow_null v Hv)) as K.
    rewrite Ep in K. discriminate K.
  - pose proof (mapM_throw _ _ _ H (normalizeNewsRow_null v Hv)) as K.
    rewrite En in K. discriminate K.
  - pose proof (mapM_throw _ _ _ H (normalizeLeaderRow_null v Hv)) as K.
    rewrite El in K. discriminate K.
Qed.

(** X19.  After a refresh whose snapshots normalise, the sectors offered
    are pairwise different, each is the truthy sector of some stored row,
    and the truthy sector of every stored row is among them. *)
Theorem refresh_sectors (p n l : result value) (w : World)
        (pArr : list PriceRow) (nArr : list News.row) (lArr : list Leader.row) :
  normalize_snapshots localeCompare (or_empty p) (or_empty n) (or_empty l)
  = Ok (pArr, nArr, lArr) ->
  let offered := sectors (state (snd (refresh localeCompare p n l w))) in
  distinct_values offered
  /\ (forall v, In v offered ->
                ToBoolean v = true /\ exists r, In r pArr /\ sector r = v)
  /\ (forall r, In r pArr -> ToBoolean (sector r) = true ->
                existsb (same_value_zero (sector r)) offered = true).
Proof.
  intros E. cbv zeta.
  destruct (refresh_state_ok p n l w pArr nArr lArr E) as (_ & _ & _ & <-).
  cbn [sectors assigned set_sectors].
  destruct (new_Set_spec (filter ToBoolean (List.map sector pArr)))
    as (H1 & H2 & H3).
  split; [exact H1 | ]. split.
  - intros v Hv. apply H3 in Hv. apply filter_In in Hv. destruct Hv as [Hv Ht].
    split; [exact Ht | ]. apply in_map_iff in Hv. destruct Hv as (r & <- & Hr).
    exists r. auto.
  - intros r Hr Ht. rewrite H2. apply existsb_exists. exists (sector r).
    split; [ | apply same_value_zero_refl].
    apply filter_In. split; [apply in_map, Hr | exact Ht].
Qed.

End RefreshMore.

(** The inner text of the element [id]. *)
Definition markup_at (w : World) (id : string) : option string :=
  option_map el_innerHTML (find_element (dom w) id).

Definition text_at (w : World) (id : string) : option string :=
  option_map el_textContent (find_element (dom w) id).

Section Offline.

Context {host : Host}.

(** X20.  When all three fetches fail, [refresh] ends normally without
    reporting an error: the three collections and the sectors become empty,
    the selection is kept, and the page shows "No tickers found.",
    "No news yet.", "No leaderboard data yet." and
    "Latest bar: (not available yet)". *)
Theorem refresh_offline (lc : string -> string -> number) (e1 e2 e3 : error)
        (w : World) (select table search box board subtitle : Element) :
  find_element (dom w) "sectorFilter" = Some select ->
  find_element (dom w) "watchlistTable" = Some table ->
  find_element (dom w) "searchInput" = Some search ->
  find_element (dom w) "newsList" = Some box ->
  find_element (dom w) "leaderTable" = Some board ->
  find_element (dom w) "subtitle" = Some subtitle ->
  exists w',
    refresh lc (Throw e1) (Throw e2) (Throw e3) w = (Ok tt, w')
    /\ fst (refresh_try lc (or_empty (Throw e1)) (or_empty (Throw e2))
              (or_empty (Throw e3)) w) = Ok tt
    /\ state w'
       = {| prices := []; news := []; leaderboard := []; sectors := [];
            selected := selected (state w) |}
    /\ markup_at w' "watchlistTable"
       = Some (placeholder_row "5" "No tickers found.")
    /\ markup_at w' "newsList"
       = Some ("<div " ++ attr "class" "muted" ++ ">No news yet.</div>")
    /\ markup_at w' "leaderTable"
       = Some (placeholder_row "4" "No leaderboard data yet.")
    /\ text_at w' "subtitle" = Some "Latest bar: (not available yet)".
Proof.
  intros H1 H2 H3 H4 H5 H6. destruct w as [s d]. cbn [dom state] in *.
  assert (R : exists w',
             refresh_try lc (or_empty (Throw e1)) (or_empty (Throw e2))
               (or_empty (Throw e3)) {| state := s; dom := d |} = (Ok tt, w')
             /\ state w'
                = {| prices := []; news := []; leaderboard := []; sectors := [];
                     selected := selected s |}
             /\ markup_at w' "watchlistTable"
                = Some (placeholder_row "5" "No tickers found.")
             /\ markup_at w' "newsList"
                = Some ("<div " ++ attr "class" "muted" ++ ">No news yet.</div>")
             /\ markup_at w' "leaderTable"
                = Some (placeholder_row "4" "No leaderboard data yet.")
             /\ text_at w' "subtitle" = Some "Latest bar: (not available yet)").
  { eexists. split.
    - unfold refresh_try. unfold bind at 1. unfold lift at 1.
      change (normalize_snapshots lc (or_empty (Throw e1)) (or_empty (Throw e2))
                (or_empty (Throw e3)))
        with (@Ok (list PriceRow * list News.row * list Leader.row)
                ([], [], [])).
      cbv iota beta.
      unfold bind at 1. unfold assign at 1. cbn [state dom].
      unfold bind at 1. unfold assign at 1. cbn [state dom].
      unfold bind at 1. unfold assign at 1. cbn [state dom].
      unfold bind at 1. unfold assign at 1. cbn [state dom].
      (* fillSectorFilter *)
      unfold bind at 1. unfold fillSectorFilter.
      erewrite bind_read by find_tac.
      erewrite bind_write by find_tac. cbn [dom state].
      unfold bind at 1. unfold get_state at 1. cbn [state].
      unfold bind at 1. unfold lift at 1.
      cbn [sectors set_sectors new_Set filter List.map fold_left sort for_of].
      unfold bind at 1. unfold ret at 1.
      unfold write at 1. cbn [dom state].
      rewrite find_replace_eqb, String.eqb_refl, H1.
      (* renderWatchlist *)
      unfold bind at 1. unfold renderWatchlist.
      erewrite bind_read by find_tac.
      erewrite bind_read by find_tac.
      erewrite bind_read by find_tac.
      unfold bind at 1. unfold get_state at 1. cbn [state].
      unfold bind at 1. unfold lift at 1.
      cbn [prices set_sectors set_leaderboard set_news set_prices
           watchlist_rows filter filterM rbind sort].
      erewrite bind_write by find_tac. cbn [dom state].
      unfold write at 1. cbn [dom state].
      match goal with
      | |- context [find_element ?dd "watchlistTable"] =>
          assert (F : find_element dd "watchlistTable"
                      = Some (set_innerHTML "" table)) by find_tac;
          rewrite F; clear F
      end.
      (* renderNews *)
      unfold bind at 1. unfold renderNews.
      unfold bind at 1. unfold get_state at 1. cbn [state].
      cbn [news set_sectors set_leaderboard set_news set_prices firstn].
      erewrite bind_write by find_tac. cbn [dom state].
      unfold write at 1. cbn [dom state].
      match goal with
      | |- context [find_element ?dd "newsList"] =>
          assert (F : find_element dd "newsList"
                      = Some (set_innerHTML "" box)) by find_tac;
          rewrite F; clear F
      end.
      (* renderLeaderboard *)
      unfold bind at 1. unfold renderLeaderboard.
      erewrite bind_read by find_tac.
      unfold bind at 1. unfold get_state at 1. cbn [state].
      unfold bind at 1. unfold lift at 1.
      cbn [leaderboard set_sectors set_leaderboard set_news set_prices
           filter sort].
      erewrite bind_write by find_tac. cbn [dom state].
      unfold write at 1. cbn [dom state].
      match goal with
      | |- context [find_element ?dd "leaderTable"] =>
          assert (F : find_element dd "leaderTable"
                      = Some (set_innerHTML "" board)) by find_tac;
          rewrite F; clear F
      end.
      (* the subtitle and the selection *)
      unfold bind at 1. unfold lift at 1. cbn [latest_bar].
      unfold bind at 1. unfold lift at 1. cbn [ToBoolean String.eqb negb].
      erewrite bind_write by find_tac. cbn [dom state].
      unfold bind at 1. unfold get_state at 1. cbn [state].
      unfold bind at 1.
      assert (K : forall (o : option PriceRow) (x : World),
                 match o, @nil PriceRow with
                 | None, first :: _ => selectTicker (ticker first)
                 | _, _ => ret tt
                 end x = (Ok tt, x)) by (intros [r | ] x; reflexivity).
      rewrite K.
      unfold bind at 1. unfold get_state at 1. cbn [state].
      destruct (selected _); reflexivity.
    - cbn [state]. split; [destruct s; reflexivity | ].
      unfold markup_at, text_at.
      repeat split; find_tac. }
  destruct R as (w' & R & Hst & Hrest).
  exists w'. unfold refresh, try_catch. rewrite R.
  split; [reflexivity | ]. split; [reflexivity | ]. split; assumption.
Qed.

End Offline.

(** ** The address of the prefilled issue *)





Section IssueAddress.

Context {host : Host}.


End IssueAddress.

(** ** [escapeHtml] loses nothing *)

Definition special (c : ascii) : bool :=
  Ascii.eqb c "&" || Ascii.eqb c "<" || Ascii.eqb c ">" || Ascii.eqb c "034"
  || Ascii.eqb c "'".

Lemma escape_char_plain (c : ascii) : special c = false -> escape_char c = [c].
Proof.
  unfold special, escape_char. rewrite !Bool.orb_false_iff.
  intros ((((-> & ->) & ->) & ->) & ->). reflexivity.
Qed.

Lemma escape_char_special (c : ascii) :
  special c = true ->
  exists second rest, escape_char c = "&"%char :: second :: rest
    /\ (forall c', special c' = true ->
          forall second' rest', escape_char c' = "&"%char :: second' :: rest' ->
          second = second' -> c = c' /\ rest = rest').
Proof.
  intros H. exists (hd c (tl (escape_char c))), (tl (tl (escape_char c))).
  unfold special in H. rewrite !Bool.orb_true_iff in H.
  assert (C : c = "&"%char \/ c = "<"%char \/ c = ">"%char \/ c = "034"%char
              \/ c = "'"%char).
  { destruct H as [[[[H | H] | H] | H] | H]; apply Ascii.eqb_eq in H; auto. }
  clear H.
  assert (D : forall c', special c' = true ->
                c' = "&"%char \/ c' = "<"%char \/ c' = ">"%char \/ c' = "034"%char
                \/ c' = "'"%char).
  { intros c' H. unfold special in H. rewrite !Bool.orb_true_iff in H.
    destruct H as [[[[H | H] | H] | H] | H]; apply Ascii.eqb_eq in H; auto. }
  split.
  - destruct C as [-> | [-> | [-> | [-> | ->]]]]; reflexivity.
  - intros c' H' second' rest' E' Es.
    destruct (D c' H') as [-> | [-> | [-> | [-> | ->]]]];
      destruct C as [-> | [-> | [-> | [-> | ->]]]];
      vm_compute in E'; injection E' as E2 E3; subst second' rest';
      vm_compute in Es; first [discriminate Es | split; reflexivity].
Qed.

Lemma escape_chars_injective (a : list ascii) :
  forall b, flat_map escape_char a = flat_map escape_char b -> a = b.
Proof.
  induction a as [ | x a IH]; intros [ | y b] H.
  - reflexivity.
  - cbn [flat_map] in H. destruct (special y) eqn:Sy.
    + destruct (escape_char_special y Sy) as (s & r & E & _).
      rewrite E in H. discriminate H.
    + rewrite (escape_char_plain y Sy) in H. discriminate H.
  - cbn [flat_map] in H. destruct (special x) eqn:Sx.
    + destruct (escape_char_special x Sx) as (s & r & E & _).
      rewrite E in H. discriminate H.
    + rewrite (escape_char_plain x Sx) in H. discriminate H.
  - cbn [flat_map] in H.
    destruct (special x) eqn:Sx, (special y) eqn:Sy.
    + destruct (escape_char_special x Sx) as (s & r & E & U).
      destruct (escape_char_special y Sy) as (s' & r' & E' & _).
      rewrite E, E' in H. cbn [app] in H. injection H as Hs Hr.
      destruct (U y Sy s' r' E' Hs) as [-> ->].
      apply app_inv_head in Hr. rewrite (IH b Hr). reflexivity.
    + destruct (escape_char_special x Sx) as (s & r & E & _).
      rewrite E, (escape_char_plain y Sy) in H. cbn [app] in H.
      injection H as Hy _. subst y. discriminate Sy.
    + destruct (escape_char_special y Sy) as (s & r & E & _).
      rewrite E, (escape_char_plain x Sx) in H. cbn [app] in H.
      injection H as Hx _. subst x. discriminate Sx.
    + rewrite (escape_char_plain x Sx), (escape_char_plain y Sy) in H.
      cbn [app] in H. injection H as -> Hr. rewrite (IH b Hr). reflexivity.
Qed.

Lemma str_inj (a b : list ascii) : str a = str b -> a = b.
Proof.
  intros H. rewrite <- (chars_str a), <- (chars_str b), H. reflexivity.
Qed.

(** X22.  [escapeHtml] loses nothing: two texts with the same escaped form
    are the same text. *)
Theorem escapeHtml_injective (a b : string) :
  escapeHtml (Str a) = escapeHtml (Str b) -> a = b.
Proof.
  rewrite !escapeHtml_chars. intros H. apply Ok_inj, str_inj in H.
  apply chars_inj, escape_chars_injective, H.
Qed.

(** ** The text of a formatted number *)

Definition all_digits (s : string) : bool := forallb is_digit (chars s).

(** A decimal with [f] digits after the point: an optional minus sign,
    one digit or more, the point, [f] digits. *)
Definition fixed_text (f : nat) (s : string) : Prop :=
  exists sign int frac,
    s = sign ++ int ++ "." ++ frac
    /\ (sign = "" \/ sign = "-")
    /\ int <> ""
    /\ all_digits int = true
    /\ all_digits frac = true
    /\ String.length frac = f.

(** The magnitude of [x] is below [bound]. *)
Definition magnitude_below (bound : Z) (x : number) : bool :=
  match Prim2SF x with
  | S754_finite _ m e => let '(p, q) := fraction_of m e in (p <? bound * q)%Z
  | S754_zero _ => true
  | _ => false
  end.

Lemma string_of_uint_digits (d : Decimal.uint) :
  all_digits (NilEmpty.string_of_uint d) = true.
Proof. unfold all_digits. induction d; simpl; auto. Qed.

Lemma digits_of_digits (z : Z) : all_digits (digits_of z) = true /\ digits_of z <> "".
Proof.
  unfold digits_of, NilZero.string_of_uint.
  destruct (N.to_uint (Z.to_N z)) eqn:E;
    (split; [try reflexivity; apply string_of_uint_digits | discriminate]).
Qed.

Lemma length_chars (s : string) : List.length (chars s) = String.length s.
Proof. induction s as [ | c s IH]; simpl; [reflexivity | rewrite IH; reflexivity]. Qed.

Lemma zeros_digits (n : Z) :
  all_digits (zeros n) = true /\ String.length (zeros n) = Z.to_nat n.
Proof.
  unfold zeros, all_digits. rewrite <- length_chars, chars_str, repeat_length.
  split; [ | reflexivity].
  induction (Z.to_nat n) as [ | k IH]; [reflexivity | exact IH].
Qed.

Lemma all_digits_app (a b : string) :
  all_digits (a ++ b) = all_digits a && all_digits b.
Proof. unfold all_digits. rewrite chars_app, forallb_app. reflexivity. Qed.

Lemma forallb_firstn {A} (p : A -> bool) (n : nat) (l : list A) :
  forallb p l = true -> forallb p (firstn n l) = true.
Proof.
  revert n. induction l as [ | a l IH]; intros [ | n] H; try reflexivity.
  simpl in *. apply Bool.andb_true_iff in H as [Ha Hl]. rewrite Ha, (IH n Hl).
  reflexivity.
Qed.

Lemma forallb_skipn {A} (p : A -> bool) (n : nat) (l : list A) :
  forallb p l = true -> forallb p (skipn n l) = true.
Proof.
  revert n. induction l as [ | a l IH]; intros [ | n] H; try reflexivity;
    [exact H | ].
  simpl in *. apply Bool.andb_true_iff in H as [Ha Hl]. apply IH, Hl.
Qed.

Lemma take_drop (n : Z) (s : string) :
  all_digits s = true -> (0 < Z.to_nat n < String.length s)%nat ->
  all_digits (take n s) = true /\ take n s <> ""
  /\ all_digits (drop n s) = true
  /\ String.length (drop n s) = (String.length s - Z.to_nat n)%nat.
Proof.
  unfold take, drop, all_digits. rewrite <- !length_chars, !chars_str.
  intros Hd Hn. rewrite length_skipn.
  split; [apply forallb_firstn, Hd | ].
  split; [ | split; [apply forallb_skipn, Hd | reflexivity]].
  destruct (chars s) as [ | c l]; [simpl in Hn; lia | ].
  destruct (Z.to_nat n); [lia | discriminate].
Qed.

Lemma finite_not_nan_sf (x : number) :
  sf_nan (Prim2SF x) = false -> is_nan x = false.
Proof.
  intros H. unfold is_nan. rewrite FloatAxioms.eqb_spec, (SFeqb_refl _ H).
  reflexivity.
Qed.

Local Open Scope Z_scope.

(** X23.  On a finite number of magnitude below 10^21: for a number of
    digits [f] from 1 to 100, [fmtNum] returns an optional minus sign, at
    least one digit, a point and exactly [f] digits; for a number of digits
    below 0 or above 100 it throws a [RangeError]. *)
Theorem fmtNum_fixed (x : number) (f : Z) :
  magnitude_below (10 ^ 21) x = true ->
  (0 < f <= 100 ->
   exists s, fmtNum (Num x) f = Ok s /\ fixed_text (Z.to_nat f) s)
  /\ (f < 0 \/ 100 < f ->
      exists e, fmtNum (Num x) f = Throw (RangeError e)).
Proof.
  intros Hm. rewrite fmtNum_number.
  assert (Hn : is_nan x = false).
  { apply finite_not_nan_sf. unfold magnitude_below in Hm.
    destruct (Prim2SF x); try discriminate Hm; reflexivity. }
  rewrite Hn. unfold toFixed. split.
  2:{ intros Hf.
      assert (E : (f <? 0) || (100 <? f) = true).
      { apply Bool.orb_true_iff. rewrite Z.ltb_lt, Z.ltb_lt. exact Hf. }
      rewrite E. eauto. }
  intros Hf.
  assert (E : (f <? 0) || (100 <? f) = false).
  { apply Bool.orb_false_iff. rewrite !Z.ltb_ge. lia. }
  rewrite E. eexists. split; [reflexivity | ].
  unfold fixed, magnitude_below in *.
  assert (Ef : (f =? 0) = false) by (apply Z.eqb_neq; lia).
  destruct (Prim2SF x) as [sz | si | | s m e]; try discriminate Hm.
  - rewrite Ef. exists "", "0", (zeros f).
    destruct (zeros_digits f) as [Z1 Z2].
    repeat split; auto. discriminate.
  - destruct (fraction_of m e) as [p q].
    assert (Eb : (10 ^ 21 * q <=? p) = false)
      by (apply Z.leb_gt; apply Z.ltb_lt in Hm; exact Hm).
    rewrite Eb, Ef. cbv zeta.
    set (d0 := digits_of ((2 * p * 10 ^ f + q) / (2 * q))).
    destruct (digits_of_digits ((2 * p * 10 ^ f + q) / (2 * q))) as [D1 D2].
    fold d0 in D1, D2.
    set (d := if Z.of_nat (String.length d0) <=? f
              then zeros (f + 1 - Z.of_nat (String.length d0)) ++ d0 else d0).
    assert (Hd : all_digits d = true /\ (Z.to_nat f < String.length d)%nat).
    { unfold d. destruct (Z.leb_spec (Z.of_nat (String.length d0)) f) as [L | L].
      - destruct (zeros_digits (f + 1 - Z.of_nat (String.length d0))) as [Z1 Z2].
        rewrite all_digits_app, Z1, D1. split; [reflexivity | ].
        rewrite <- length_chars, chars_app, length_app, !length_chars, Z2. lia.
      - split; [exact D1 | lia]. }
    destruct Hd as [Hd1 Hd2].
    destruct (take_drop (Z.of_nat (String.length d) - f) d Hd1) as (T1 & T2 & T3 & T4);
      [lia | ].
    exists (if s then "-" else ""),
      (take (Z.of_nat (String.length d) - f) d),
      (drop (Z.of_nat (String.length d) - f) d).
    split; [reflexivity | ].
    split; [destruct s; auto | ].
    split; [exact T2 | ]. split; [exact T1 | ]. split; [exact T3 | ].
    rewrite T4. lia.
Qed.

Local Open Scope string_scope.

(** ** A flat sparkline *)

Lemma zero_cases (x : number) :
  is_zero x = true -> x = zero \/ x = neg_zero.
Proof.
  unfold is_zero. rewrite FloatAxioms.eqb_spec. intros H.
  rewrite <- (SF2Prim_Prim2SF x).
  change (Prim2SF zero) with (S754_zero false) in H.
  destruct (Prim2SF x) as [[ | ] | [ | ] | | [ | ] m e]; try discriminate H.
  - right. reflexivity.
  - left. reflexivity.
Qed.

(** X24.  Every point of the sparkline of a flat series of finite values
    is drawn at the top padding, [y = 14]. *)
Theorem spark_points_flat (v : number) (n : nat) :
  is_finite v = true ->
  Forall (fun point => snd point = spark_pad) (spark_points (repeat v (S n))).
Proof.
  intros Hf. unfold spark_points. cbv zeta.
  rewrite (Math_min_flat v n (finite_not_nan v Hf)).
  rewrite (Math_max_flat v n (finite_not_nan v Hf)).
  assert (Hs : spark_span v v = 1%float).
  { unfold spark_span. cbv zeta. cbn [ToBoolean].
    rewrite (sub_diag_zero v Hf). reflexivity. }
  rewrite Hs. apply Forall_forall. intros point Hp.
  apply in_map_iff in Hp. destruct Hp as ([i y] & <- & Hin).
  apply in_combine_r in Hin. apply repeat_spec in Hin. subst y. cbn [fst snd].
  destruct (zero_cases _ (sub_diag_zero v Hf)) as [-> | ->]; reflexivity.
Qed.

Local Open Scope Z_scope.

(** ** The sign of a difference of two numbers *)

Lemma digits2_pos_bounds (m : positive) :
  2 ^ (Z.pos (digits2_pos m) - 1) <= Z.pos m < 2 ^ Z.pos (digits2_pos m).
Proof.
  induction m as [m IH | m IH | ]; cbn [digits2_pos].
  - rewrite Pos2Z.inj_succ, Z.pow_succ_r by lia.
    replace (Z.succ (Z.pos (digits2_pos m)) - 1)
      with (Z.succ (Z.pos (digits2_pos m) - 1)) by lia.
    rewrite Z.pow_succ_r by lia. lia.
  - rewrite Pos2Z.inj_succ, Z.pow_succ_r by lia.
    replace (Z.succ (Z.pos (digits2_pos m)) - 1)
      with (Z.succ (Z.pos (digits2_pos m) - 1)) by lia.
    rewrite Z.pow_succ_r by lia. lia.
  - simpl. lia.
Qed.

Lemma shr_1_half (mrs : shr_record) :
  0 <= shr_m mrs -> shr_m (shr_1 mrs) = shr_m mrs / 2.
Proof.
  destruct mrs as [m r s]. cbn [shr_m]. intros H. unfold shr_1.
  destruct m as [ | [p | p | ] | p]; cbn [shr_m]; try lia; try reflexivity;
    first [ apply Z.div_unique with (r := 1); lia
          | apply Z.div_unique with (r := 0); lia ].
Qed.

Lemma iter_shr_1 (p : positive) :
  forall mrs,
    0 <= shr_m mrs ->
    shr_m (iter_pos shr_1 p mrs) = shr_m mrs / 2 ^ Z.pos p.
Proof.
  induction p as [p IH | p IH | ]; intros mrs H; cbn [iter_pos].
  - assert (H1 : 0 <= shr_m (shr_1 mrs))
      by (rewrite shr_1_half by exact H; apply Z.div_pos; lia).
    assert (H2 : 0 <= shr_m (iter_pos shr_1 p (shr_1 mrs)))
      by (rewrite IH by exact H1; apply Z.div_pos; lia).
    rewrite (IH _ H2), (IH _ H1), shr_1_half by exact H.
    rewrite !Z.div_div by lia. f_equal.
    rewrite Pos2Z.inj_xI, Z.pow_add_r, Z.pow_mul_r by lia.
    change (2 ^ 2) with 4. rewrite Z.pow_1_r.
    replace (4 ^ Z.pos p) with (2 ^ Z.pos p * 2 ^ Z.pos p).
    + ring.
    + rewrite <- Z.pow_add_r by lia. replace (Z.pos p + Z.pos p) with (2 * Z.pos p) by lia.
      rewrite Z.pow_mul_r by lia. reflexivity.
  - assert (H1 : 0 <= shr_m (iter_pos shr_1 p mrs))
      by (rewrite IH by exact H; apply Z.div_pos; lia).
    rewrite (IH _ H1), (IH _ H), Z.div_div by lia. f_equal.
    rewrite Pos2Z.inj_xO, <- Z.pow_add_r by lia. f_equal. lia.
  - rewrite shr_1_half by exact H. reflexivity.
Qed.

Lemma shr_record_of_loc_m (m : Z) (l : location) :
  shr_m (shr_record_of_loc m l) = m.
Proof. destruct l as [ | [ | | ]]; reflexivity. Qed.

(** Shifting a positive mantissa to its place leaves it positive, and the
    exponent at least [emin]. *)
Lemma shr_fexp_positive (m : positive) (e : Z) (l : location) :
  emin <= e ->
  0 < shr_m (fst (shr_fexp prec emax (Z.pos m) e l))
  /\ emin <= snd (shr_fexp prec emax (Z.pos m) e l).
Proof.
  intros He. unfold shr_fexp, shr. cbn [Zdigits2].
  destruct (fexp prec emax (Z.pos (digits2_pos m) + e) - e) as [ | n | n] eqn:En;
    cbn [fst snd]; rewrite ?shr_record_of_loc_m; try (split; lia).
  rewrite iter_shr_1 by (rewrite shr_record_of_loc_m; lia).
  rewrite shr_record_of_loc_m.
  unfold fexp, SpecFloat.emin, prec, emax in *.
  pose proof (digits2_pos_bounds m) as [Hlo _].
  assert (Hn : Z.pos n <= Z.pos (digits2_pos m) - 1) by lia.
  split; [ | lia].
  apply Z.div_str_pos. split; [apply Z.pow_pos_nonneg; lia | ].
  eapply Z.le_trans; [ | exact Hlo]. apply Z.pow_le_mono_r; lia.
Qed.

Lemma round_nearest_even_ge (m : Z) (l : location) :
  m <= round_nearest_even m l.
Proof.
  unfold round_nearest_even. destruct l as [ | [ | | ]]; try lia.
  destruct (Z.even m); lia.
Qed.

(** The sign and class of a number: a zero, or a number of sign [s] that
    is not zero. *)
Definition signed (s : bool) (x : spec_float) : bool :=
  match x with
  | S754_finite s' _ _ | S754_infinity s' => Bool.eqb s s'
  | _ => false
  end.

Lemma binary_round_aux_signed (s : bool) (m : positive) (e : Z) (l : location) :
  emin <= e ->
  signed s (binary_round_aux prec emax s (Z.pos m) e l) = true.
Proof.
  intros He. unfold binary_round_aux.
  destruct (shr_fexp_positive m e l He) as [H1 H2].
  destruct (shr_fexp prec emax (Z.pos m) e l) as [mrs' e'] eqn:E1.
  cbn [fst snd] in H1, H2.
  pose proof (round_nearest_even_ge (shr_m mrs') (loc_of_shr_record mrs')) as Hr.
  destruct (round_nearest_even (shr_m mrs') (loc_of_shr_record mrs'))
    as [ | m2 | m2] eqn:E2; try lia.
  destruct (shr_fexp_positive m2 e' loc_Exact H2) as [H3 _].
  destruct (shr_fexp prec emax (Z.pos m2) e' loc_Exact) as [mrs'' e''].
  cbn [fst] in H3.
  destruct (shr_m mrs'') as [ | m3 | m3]; try lia.
  destruct (e'' <=? emax - prec); cbn [signed]; apply Bool.eqb_reflx.
Qed.

Lemma fexp_emin (k : Z) : emin <= fexp prec emax k.
Proof. unfold fexp. apply Z.le_max_r. Qed.

Lemma shl_align_exponent (m : positive) (e e' : Z) :
  emin <= e -> emin <= e' ->
  emin <= snd (shl_align m e e').
Proof. unfold shl_align. destruct (e' - e); cbn [snd]; lia. Qed.

Lemma binary_round_signed (s : bool) (m : positive) (e : Z) :
  emin <= e -> signed s (binary_round prec emax s m e) = true.
Proof.
  intros He. unfold binary_round.
  pose proof (shl_align_exponent m e _ He
                (fexp_emin (Z.pos (digits2_pos m) + e))) as H.
  destruct (shl_align m e _) as [mz ez]. cbn [snd] in H.
  apply binary_round_aux_signed, H.
Qed.

Lemma binary_normalize_sign (m e : Z) :
  emin <= e ->
  SFltb (binary_normalize prec emax m e false) (S754_zero false) = (m <? 0).
Proof.
  intros He. unfold binary_normalize. destruct m as [ | p | p].
  - reflexivity.
  - pose proof (binary_round_signed false p e He) as H.
    destruct (binary_round prec emax false p e) as [ | [ | ] | | [ | ] ? ?];
      try discriminate H; reflexivity.
  - pose proof (binary_round_signed true p e He) as H.
    destruct (binary_round prec emax true p e) as [ | [ | ] | | [ | ] ? ?];
      try discriminate H; reflexivity.
Qed.

(** *** The rank of a number

    Every finite number is a multiple of [2^emin]; its rank is that
    multiple, and the rank of an infinity lies beyond all of them.  Numbers
    compare as their ranks do. *)

Definition magnitude (m : positive) (e : Z) : Z := Z.pos m * 2 ^ (e - emin).

Definition rank (x : spec_float) : Z :=
  match x with
  | S754_zero _ | S754_nan => 0
  | S754_infinity s => cond_Zopp s (2 ^ 2100)
  | S754_finite s m e => cond_Zopp s (magnitude m e)
  end.

Lemma bounded_finite (m : positive) (e : Z) :
  bounded prec emax m e = true ->
  emin <= e <= emax - prec
  /\ Z.pos (digits2_pos m) <= prec
  /\ (emin < e -> Z.pos (digits2_pos m) = prec).
Proof.
  unfold bounded, canonical_mantissa, fexp, SpecFloat.emin, prec, emax.
  rewrite Bool.andb_true_iff, Z.eqb_eq, Z.leb_le. lia.
Qed.

Lemma magnitude_bounds (m : positive) (e : Z) :
  bounded prec emax m e = true -> 0 < magnitude m e < 2 ^ 2100.
Proof.
  intros H. destruct (bounded_finite m e H) as (He & Hd & _).
  pose proof (digits2_pos_bounds m) as [_ Hm]. unfold magnitude.
  unfold SpecFloat.emin, prec, emax in *.
  assert (P : 0 < 2 ^ (e - (3 - 1024 - 53))) by (apply Z.pow_pos_nonneg; lia).
  split; [lia | ].
  assert (M : Z.pos m < 2 ^ 53).
  { eapply Z.lt_le_trans; [exact Hm | ]. apply Z.pow_le_mono_r; lia. }
  assert (E : 2 ^ (e - (3 - 1024 - 53)) <= 2 ^ 2045)
    by (apply Z.pow_le_mono_r; lia).
  replace (2 ^ 2100) with (2 ^ 53 * 2 ^ 2047)
    by (rewrite <- Z.pow_add_r by lia; reflexivity).
  assert (E2 : 2 ^ 2045 < 2 ^ 2047) by (apply Z.pow_lt_mono_r; lia).
  apply Z.mul_lt_mono_nonneg; lia.
Qed.

Lemma magnitude_compare (m1 m2 : positive) (e1 e2 : Z) :
  bounded prec emax m1 e1 = true -> bounded prec emax m2 e2 = true ->
  match e1 ?= e2 with
  | Lt => Lt
  | Gt => Gt
  | Eq => Pos.compare_cont Eq m1 m2
  end = (magnitude m1 e1 ?= magnitude m2 e2).
Proof.
  intros H1 H2.
  assert (Step : forall ma mb ea eb,
             bounded prec emax ma ea = true -> bounded prec emax mb eb = true ->
             ea < eb -> magnitude ma ea < magnitude mb eb).
  { intros ma mb ea eb Ha Hb Hlt.
    destruct (bounded_finite ma ea Ha) as (Hea & Hda & _).
    destruct (bounded_finite mb eb Hb) as (Heb & _ & Hdb).
    pose proof (digits2_pos_bounds ma) as [_ Hma].
    pose proof (digits2_pos_bounds mb) as [Hmb _].
    rewrite Hdb in Hmb by lia. unfold magnitude.
    unfold SpecFloat.emin, prec, emax in *.
    set (k := ea - (3 - 1024 - 53)) in *.
    replace (eb - (3 - 1024 - 53)) with ((eb - ea) + k) by (unfold k; lia).
    rewrite Z.pow_add_r by (unfold k; lia).
    assert (K : 0 < 2 ^ k) by (apply Z.pow_pos_nonneg; unfold k; lia).
    assert (A : Z.pos ma < 2 ^ 53).
    { eapply Z.lt_le_trans; [exact Hma | ]. apply Z.pow_le_mono_r; lia. }
    assert (B : 2 ^ 1 <= 2 ^ (eb - ea)) by (apply Z.pow_le_mono_r; lia).
    change (2 ^ 1) with 2 in B. change (2 ^ (53 - 1)) with (2 ^ 52) in Hmb.
    assert (C : 2 ^ 53 <= Z.pos mb * 2 ^ (eb - ea)).
    { change (2 ^ 53) with (2 ^ 52 * 2). apply Z.mul_le_mono_nonneg; lia. }
    rewrite Z.mul_assoc. apply Z.mul_lt_mono_pos_r; lia. }
  destruct (Z.compare_spec e1 e2) as [-> | Hlt | Hgt].
  - unfold magnitude. rewrite <- Zmult_compare_compat_r; [reflexivity | ].
    apply Z.lt_gt, Z.pow_pos_nonneg; [lia | ].
    destruct (bounded_finite m2 e2 H2) as (He & _). lia.
  - symmetry. apply Z.compare_lt_iff. apply Step; assumption.
  - symmetry. apply Z.compare_gt_iff. apply Step; assumption.
Qed.

Lemma SFcompare_rank (a b : spec_float) :
  valid_binary a = true -> valid_binary b = true ->
  a <> S754_nan -> b <> S754_nan ->
  SFcompare a b = Some (rank a ?= rank b).
Proof.
  intros Va Vb Na Nb.
  destruct a as [sa | sa | | sa ma ea]; [ | | contradiction | ];
    destruct b as [sb | sb | | sb mb eb]; try contradiction;
    cbn [SpecFloat.valid_binary] in Va, Vb; cbn [SFcompare rank]; f_equal;
    try pose proof (magnitude_bounds ma ea Va) as Ba;
    try pose proof (magnitude_bounds mb eb Vb) as Bb;
    assert (P : 0 < 2 ^ 2100) by (apply Z.pow_pos_nonneg; lia).
  all: try (destruct sa; cbn [cond_Zopp]; symmetry;
            first [ apply Z.compare_eq_iff; lia | apply Z.compare_lt_iff; lia
                  | apply Z.compare_gt_iff; lia ]).
  all: try (destruct sb; cbn [cond_Zopp]; symmetry;
            first [ apply Z.compare_eq_iff; lia | apply Z.compare_lt_iff; lia
                  | apply Z.compare_gt_iff; lia ]).
  all: try (destruct sa, sb; cbn [cond_Zopp]; symmetry;
            first [ apply Z.compare_eq_iff; lia | apply Z.compare_lt_iff; lia
                  | apply Z.compare_gt_iff; lia ]).
  destruct sa, sb; cbn [cond_Zopp].
  - rewrite Z.compare_opp, <- (magnitude_compare mb ma eb ea Vb Va).
    rewrite (Z.compare_antisym eb ea).
    destruct (eb ?= ea); cbn [CompOpp]; try reflexivity.
    symmetry. apply ZC4.
  - symmetry. apply Z.compare_lt_iff. lia.
  - symmetry. apply Z.compare_gt_iff. lia.
  - apply magnitude_compare; assumption.
Qed.

Lemma iter_xO (d m : positive) :
  Z.pos (Pos.iter xO m d) = Z.pos m * 2 ^ Z.pos d.
Proof.
  induction d as [ | d IH] using Pos.peano_ind.
  - simpl. lia.
  - rewrite Pos.iter_succ, Pos2Z.inj_xO, IH, Pos2Z.inj_succ, Z.pow_succ_r by lia.
    ring.
Qed.

Lemma shl_align_value (m : positive) (e ez : Z) :
  ez <= e -> Z.pos (fst (shl_align m e ez)) = Z.pos m * 2 ^ (e - ez).
Proof.
  intros H. unfold shl_align.
  destruct (ez - e) as [ | d | d] eqn:E; cbn [fst]; try lia.
  - replace (e - ez) with 0 by lia. lia.
  - rewrite iter_xO. f_equal. f_equal. lia.
Qed.

(** The difference of two numbers is below zero exactly when the rank of
    the first is below the rank of the second. *)
Lemma SFsub_rank (a b : spec_float) :
  valid_binary a = true -> valid_binary b = true ->
  a <> S754_nan -> b <> S754_nan ->
  SFltb (SFsub prec emax a b) (S754_zero false) = (rank a <? rank b).
Proof.
  intros Va Vb Na Nb.
  destruct a as [sa | sa | | sa ma ea]; [ | | contradiction | ];
    destruct b as [sb | sb | | sb mb eb]; try contradiction;
    cbn [SpecFloat.valid_binary] in Va, Vb; cbn [SFsub rank];
    try pose proof (magnitude_bounds ma ea Va) as Ba;
    try pose proof (magnitude_bounds mb eb Vb) as Bb;
    assert (P : 0 < 2 ^ 2100) by (apply Z.pow_pos_nonneg; lia).
  all: try (destruct sa, sb; cbn [cond_Zopp negb SFltb SFcompare];
            symmetry; first [apply Z.ltb_lt; lia | apply Z.ltb_ge; lia]).
  rewrite binary_normalize_sign.
  - destruct (bounded_finite ma ea Va) as (Hea & _).
    destruct (bounded_finite mb eb Vb) as (Heb & _).
    rewrite !shl_align_value by lia.
    set (ez := Z.min ea eb).
    assert (K : 0 < 2 ^ (ez - emin)) by (apply Z.pow_pos_nonneg; unfold ez; lia).
    assert (Ea : magnitude ma ea = Z.pos ma * 2 ^ (ea - ez) * 2 ^ (ez - emin)).
    { unfold magnitude. rewrite <- Z.mul_assoc, <- Z.pow_add_r by (unfold ez; lia).
      f_equal. f_equal. lia. }
    assert (Eb : magnitude mb eb = Z.pos mb * 2 ^ (eb - ez) * 2 ^ (ez - emin)).
    { unfold magnitude. rewrite <- Z.mul_assoc, <- Z.pow_add_r by (unfold ez; lia).
      f_equal. f_equal. lia. }
    rewrite Ea, Eb.
    generalize (Z.pos ma * 2 ^ (ea - ez)) (Z.pos mb * 2 ^ (eb - ez)).
    intros x y.
    assert (Hx : cond_Zopp sa (x * 2 ^ (ez - emin))
                 = cond_Zopp sa x * 2 ^ (ez - emin))
      by (destruct sa; cbn [cond_Zopp]; ring).
    assert (Hy : cond_Zopp sb (y * 2 ^ (ez - emin))
                 = cond_Zopp sb y * 2 ^ (ez - emin))
      by (destruct sb; cbn [cond_Zopp]; ring).
    rewrite Hx, Hy.
    generalize (cond_Zopp sa x) (cond_Zopp sb y). intros u v.
    destruct (Z.ltb_spec (u - v) 0) as [L | L]; symmetry.
    + apply Z.ltb_lt. apply Z.mul_lt_mono_pos_r; lia.
    + apply Z.ltb_ge. apply Z.mul_le_mono_nonneg_r; lia.
  - destruct (bounded_finite ma ea Va) as (Hea & _).
    destruct (bounded_finite mb eb Vb) as (Heb & _). lia.
Qed.

Lemma Prim2SF_nan (x : float) : is_nan x = false -> Prim2SF x <> S754_nan.
Proof.
  unfold is_nan. rewrite Bool.negb_false_iff, FloatAxioms.eqb_spec.
  intros H E. rewrite E in H. discriminate H.
Qed.

(** On numbers that are not [NaN], [<] is the order of the ranks, and a
    difference is negative exactly when its first operand is the smaller. *)
Lemma ltb_rank (x y : float) :
  is_nan x = false -> is_nan y = false ->
  (x <? y)%float = (rank (Prim2SF x) <? rank (Prim2SF y)).
Proof.
  intros Hx Hy. rewrite ltb_spec. unfold SFltb.
  rewrite (SFcompare_rank _ _ (Prim2SF_valid x) (Prim2SF_valid y)
             (Prim2SF_nan x Hx) (Prim2SF_nan y Hy)).
  unfold Z.ltb. destruct (rank (Prim2SF x) ?= rank (Prim2SF y)); reflexivity.
Qed.

Lemma sub_negative (x y : float) :
  is_nan x = false -> is_nan y = false ->
  (x - y <? zero)%float = (x <? y)%float.
Proof.
  intros Hx Hy. rewrite (ltb_rank x y Hx Hy), ltb_spec, sub_spec.
  change (Prim2SF zero) with (S754_zero false).
  apply SFsub_rank;
    [apply Prim2SF_valid | apply Prim2SF_valid
     | apply Prim2SF_nan, Hx | apply Prim2SF_nan, Hy].
Qed.

Local Open Scope string_scope.

(** ** Percentages *)

Local Open Scope Z_scope.

Lemma shr_fexp_nonneg (m e : Z) (l : location) :
  0 <= m -> 0 <= shr_m (fst (shr_fexp prec emax m e l)).
Proof.
  intros H. unfold shr_fexp, shr.
  destruct (fexp prec emax (Zdigits2 m + e) - e) as [ | n | n]; cbn [fst];
    rewrite ?iter_shr_1 by (rewrite shr_record_of_loc_m; exact H);
    rewrite shr_record_of_loc_m; try exact H.
  apply Z.div_pos; [exact H | apply Z.pow_pos_nonneg; lia].
Qed.

(** Rounding a mantissa that is not negative never gives [NaN]. *)
Lemma binary_round_aux_number (s : bool) (m e : Z) (l : location) :
  0 <= m -> sf_nan (binary_round_aux prec emax s m e l) = false.
Proof.
  intros H. unfold binary_round_aux.
  pose proof (shr_fexp_nonneg m e l H) as H1.
  destruct (shr_fexp prec emax m e l) as [mrs' e']. cbn [fst] in H1.
  pose proof (round_nearest_even_ge (shr_m mrs') (loc_of_shr_record mrs')) as Hr.
  pose proof (shr_fexp_nonneg
                (round_nearest_even (shr_m mrs') (loc_of_shr_record mrs'))
                e' loc_Exact (Z.le_trans _ _ _ H1 Hr)) as H2.
  destruct (shr_fexp prec emax _ e' loc_Exact) as [mrs'' e'']. cbn [fst] in H2.
  destruct (shr_m mrs'') as [ | p | p]; try lia; [reflexivity | ].
  destruct (e'' <=? emax - prec); reflexivity.
Qed.

Lemma SFdiv_number (a b : spec_float) :
  sf_regular a = true -> sf_regular b = true -> sf_zero b = false ->
  sf_nan (SFdiv prec emax a b) = false.
Proof.
  destruct a as [sa | sa | | sa ma ea]; try discriminate;
    destruct b as [sb | sb | | sb mb eb]; try discriminate; intros _ _ _;
    try reflexivity.
  cbn [SFdiv]. unfold SFdiv_core_binary. cbv zeta.
  set (m' := match _ - _ - _ with Z0 => Z.pos ma | Z.pos _ => _ | Z.neg _ => 0 end).
  assert (Hm : 0 <= m').
  { unfold m'. destruct (_ - _ - _); try lia. apply Z.shiftl_nonneg. lia. }
  pose proof (Z.div_eucl_eq m' (Z.pos mb) ltac:(lia)) as E.
  pose proof (Z.mod_pos_bound m' (Z.pos mb) ltac:(lia)) as B.
  unfold Z.modulo in B.
  destruct (Z.div_eucl m' (Z.pos mb)) as [q r].
  apply binary_round_aux_number. nia.
Qed.

Lemma SFmul_number (a b : spec_float) :
  sf_nan a = false -> sf_regular b = true -> sf_zero b = false ->
  sf_nan (SFmul prec emax a b) = false.
Proof.
  destruct a as [sa | sa | | sa ma ea]; try discriminate;
    destruct b as [sb | sb | | sb mb eb]; try discriminate; intros _ _ _;
    try reflexivity.
  cbn [SFmul]. apply binary_round_aux_number. lia.
Qed.

Local Open Scope string_scope.

Lemma not_zero_sf (x : number) : is_zero x = false -> sf_zero (Prim2SF x) = false.
Proof.
  unfold is_zero. rewrite FloatAxioms.eqb_spec.
  change (Prim2SF zero) with (S754_zero false).
  destruct (Prim2SF x) as [[ | ] | | | ]; try reflexivity; discriminate.
Qed.

(** X25.  On two numbers [pct] is [a / b * 100] when both are finite and
    [b] is not zero, and null otherwise; a percentage it computes is never
    NaN.  The test [b === 0] does not see a zero given as text: [pct] of 0
    and such a text is NaN, not null. *)
Theorem pct_numbers (a b : number) :
  pct (Num a) (Num b)
  = Ok (if is_finite a && is_finite b && negb (b =? zero)%float
        then Some (a / b * 100)%float else None)
  /\ (is_finite a && is_finite b && negb (b =? zero)%float = true ->
      is_nan (a / b * 100)%float = false)
  /\ (forall s q,
        is_zero (StringToNumber s) = true ->
        pct (Num zero) (Str s) = Ok q ->
        exists x, q = Some x /\ is_nan x = true).
Proof.
  split; [ | split].
  - unfold pct, isFinite. cbn [ToNumber ToPrimitive rbind strict_equals].
    destruct (is_finite a); [ | reflexivity]. cbn [negb andb].
    destruct (is_finite b); [ | reflexivity]. cbn [negb orb andb].
    destruct (b =? zero)%float; reflexivity.
  - rewrite !Bool.andb_true_iff, Bool.negb_true_iff. intros [[Fa Fb] Zb].
    apply finite_not_nan_sf. rewrite mul_spec, div_spec.
    apply SFmul_number; [ | reflexivity | reflexivity].
    apply SFdiv_number;
      [apply finite_regular, Fa | apply finite_regular, Fb | ].
    apply not_zero_sf. exact Zb.
  - intros s q Hz. unfold pct, isFinite.
    cbn [ToNumber ToPrimitive rbind strict_equals].
    change (is_finite zero) with true. cbn [negb orb].
    destruct (zero_cases _ Hz) as [-> | ->];
      intros H; apply Ok_inj in H; subst q; eexists; split; reflexivity.
Qed.

(** ** Sorting keeps ties in their order

    When the comparator answers below zero exactly where [lt] holds, and
    [lt] is a strict weak order, [sort] is stable: the elements that are
    tied with one another come out in the order they went in. *)

Local Open Scope list_scope.

Section StableFacts.

Context {A : Type} (comparefn : A -> A -> result number) (lt : A -> A -> bool).

Hypothesis lt_irrefl : forall x, lt x x = false.
Hypothesis lt_trans : forall x y z, lt x y = true -> lt y z = true -> lt x z = true.
Hypothesis lt_cotrans :
  forall x y z, lt x z = true -> lt x y = true \/ lt y z = true.

Definition not_after (x y : A) : bool := negb (lt y x).

Definition tied (x y : A) : bool := negb (lt x y) && negb (lt y x).

Lemma lt_asym (x y : A) : lt x y = true -> lt y x = false.
Proof.
  intros H. destruct (lt y x) eqn:E; [ | reflexivity].
  rewrite <- (lt_irrefl x). symmetry. eapply lt_trans; eassumption.
Qed.

Lemma not_after_trans (x y z : A) :
  not_after x y = true -> not_after y z = true -> not_after x z = true.
Proof.
  unfold not_after. rewrite !Bool.negb_true_iff. intros H1 H2.
  destruct (lt z x) eqn:E; [ | reflexivity].
  destruct (lt_cotrans z y x E); congruence.
Qed.

Lemma lt_not_after (x y : A) : lt x y = true -> not_after x y = true.
Proof. intros H. unfold not_after. rewrite (lt_asym _ _ H). reflexivity. Qed.

Lemma tied_lt (x a b : A) : tied x a = true -> lt a b = true -> tied x b = false.
Proof.
  unfold tied. rewrite Bool.andb_true_iff, !Bool.negb_true_iff. intros [H1 H2] H.
  destruct (lt_cotrans a x b H) as [K | K]; [congruence | ].
  rewrite K. reflexivity.
Qed.

(** In a strictly ascending list no two elements are tied, so reversing it
    moves no element past one it is tied with. *)
Lemma filter_tied_rev (x : A) (l : list A) :
  StronglySorted (fun a b => lt a b = true) l ->
  filter (tied x) (rev l) = filter (tied x) l.
Proof.
  induction 1 as [ | a l S IH F]; [reflexivity | ].
  cbn [rev]. rewrite filter_app, IH. cbn [filter].
  destruct (tied x a) eqn:T; [ | apply app_nil_r].
  assert (E : filter (tied x) l = []).
  { rewrite Forall_forall in F. clear IH S.
    induction l as [ | b l IHl]; [reflexivity | ]. cbn [filter].
    rewrite (tied_lt x a b T (F b (or_introl eq_refl))).
    apply IHl. intros c Hc. apply F. right. exact Hc. }
  rewrite E. reflexivity.
Qed.

Variable L : list A.
Hypothesis before_lt :
  forall x y, In x L -> In y L -> before comparefn x y = Ok (lt x y).

Lemma extend_run_stable :
  forall (l : list A) (desc : bool) (prev : A) (acc : list A),
    In prev L -> incl l L ->
    (if desc then StronglySorted (fun a b => lt a b = true) (prev :: acc)
     else descending not_after (prev :: acc)) ->
    exists run rest,
      extend_run comparefn desc prev l (prev :: acc) = Ok (run, rest)
      /\ rev run ++ rest = rev (prev :: acc) ++ l
      /\ (if desc then StronglySorted (fun a b => lt a b = true) run
          else descending not_after run).
Proof.
  induction l as [ | x l' IH]; intros desc prev acc Hp Hl Hs; cbn [extend_run].
  - exists (prev :: acc), []. split; [reflexivity | ]. split; [reflexivity | exact Hs].
  - assert (Hx : In x L) by (apply Hl; left; reflexivity).
    rewrite (before_lt x prev Hx Hp). cbn [rbind].
    destruct (Bool.eqb (lt x prev) desc) eqn:E.
    + apply Bool.eqb_prop in E.
      destruct (IH desc x (prev :: acc) Hx) as (run & rest & Er & Eo & S).
      { intros y Hy. apply Hl. right. exact Hy. }
      { destruct desc.
        - constructor; [exact Hs | ].
          inversion Hs; subst. constructor; [exact E | ].
          eapply Forall_impl; [ | eassumption]. intros y Hy. cbv beta in Hy.
          eapply lt_trans; eassumption.
        - unfold descending in *. constructor; [exact Hs | ].
          assert (K : not_after prev x = true)
            by (unfold not_after; rewrite E; reflexivity).
          inversion Hs; subst. constructor; [exact K | ].
          eapply Forall_impl; [ | eassumption]. intros y Hy. cbv beta in Hy.
          eapply not_after_trans; eassumption. }
      exists run, rest. split; [exact Er | ]. split; [ | exact S].
      rewrite Eo. cbn [rev]. rewrite <- !app_assoc. reflexivity.
    + exists (prev :: acc), (x :: l'). split; [reflexivity | ].
      split; [reflexivity | exact Hs].
Qed.

(** The binary search puts the pivot after every element it is not less
    than, and before every element it is less than. *)
Lemma search_stable (pivot : A) (sorted : list A) :
  In pivot L -> incl sorted L -> ascending not_after sorted ->
  forall (fuel left right : nat),
    (left <= right <= List.length sorted)%nat ->
    (right - left < fuel)%nat ->
    Forall (fun e => lt pivot e = false) (firstn left sorted) ->
    Forall (fun e => lt pivot e = true) (skipn right sorted) ->
    exists i,
      search comparefn fuel pivot sorted left right = Ok i
      /\ Forall (fun e => lt pivot e = false) (firstn i sorted)
      /\ Forall (fun e => lt pivot e = true) (skipn i sorted).
Proof.
  intros Hp Hs Ha. induction fuel as [ | fuel IH];
    intros left right Hb Hf Hl Hr; [lia | ].
  cbn [search]. destruct (left <? right)%nat eqn:Elr.
  - apply Nat.ltb_lt in Elr.
    set (mid := (left + Nat.div2 (right - left))%nat).
    assert (Hmid : (left <= mid < right)%nat).
    { unfold mid. assert (H0 : (0 < right - left)%nat) by lia.
      apply Nat.lt_div2 in H0. revert H0. generalize (Nat.div2 (right - left)).
      intros k Hk. lia. }
    destruct (nth_error sorted mid) as [m | ] eqn:Em.
    + destruct (nth_error_split _ _ Em) as (l1 & l2 & Es & El1).
      assert (Hm : In m L) by (apply Hs; eapply nth_error_In; exact Em).
      rewrite (before_lt pivot m Hp Hm). cbn [rbind].
      rewrite Es in Ha.
      destruct (ascending_split not_after _ _ _ Ha) as [Hlow Hhigh].
      destruct (lt pivot m) eqn:Epm.
      * apply IH; [lia | lia | exact Hl | ].
        rewrite Es, <- El1, skipn_length_app. constructor; [exact Epm | ].
        eapply Forall_impl; [ | exact Hhigh]. intros e He. cbv beta in He.
        unfold not_after in He. apply Bool.negb_true_iff in He.
        destruct (lt_cotrans pivot e m Epm); [assumption | congruence].
      * apply IH; [lia | lia | | exact Hr].
        rewrite Es, <- El1, firstn_S_length_app. apply Forall_app. split.
        -- eapply Forall_impl; [ | exact Hlow]. intros e He. cbv beta in He.
           unfold not_after in He. apply Bool.negb_true_iff in He.
           destruct (lt pivot e) eqn:Epe; [ | reflexivity].
           destruct (lt_cotrans pivot m e Epe); congruence.
        -- repeat constructor. exact Epm.
    + apply nth_error_None in Em. lia.
  - apply Nat.ltb_ge in Elr. assert (left = right) by lia. subst right.
    exists left. split; [reflexivity | ]. split; assumption.
Qed.

Lemma insert_all_stable :
  forall (rest sorted done : list A),
    incl sorted L -> incl rest L -> ascending not_after sorted ->
    Permutation sorted done ->
    (forall x, filter (tied x) sorted = filter (tied x) done) ->
    exists out,
      insert_all comparefn sorted rest = Ok out
      /\ Permutation out (done ++ rest)
      /\ ascending not_after out
      /\ (forall x, filter (tied x) out = filter (tied x) (done ++ rest)).
Proof.
  induction rest as [ | pivot rest IH]; intros sorted done Hs Hr Ha Hperm Hf;
    cbn [insert_all].
  - exists sorted. split; [reflexivity | ]. rewrite app_nil_r.
    split; [exact Hperm | ]. split; [exact Ha | exact Hf].
  - assert (Hp : In pivot L) by (apply Hr; left; reflexivity).
    destruct (search_stable pivot sorted Hp Hs Ha (S (List.length sorted)) 0
                (List.length sorted)) as (i & E & Hlow & Hhigh).
    + lia.
    + lia.
    + constructor.
    + rewrite skipn_all. constructor.
    + rewrite E. cbn [rbind].
      assert (P : Permutation (firstn i sorted ++ pivot :: skipn i sorted)
                    (done ++ [pivot])).
      { eapply Permutation_trans;
          [apply Permutation_sym, Permutation_middle | ].
        rewrite firstn_skipn.
        eapply Permutation_trans; [apply perm_skip, Hperm | ].
        apply Permutation_cons_append. }
      destruct (IH (firstn i sorted ++ pivot :: skipn i sorted)
                  (done ++ [pivot])) as (out & Eo & Po & Ao & Fo).
      * intros y Hy. apply (Permutation_in _ P) in Hy.
        apply in_app_or in Hy. destruct Hy as [Hy | [<- | []]]; [ | exact Hp].
        apply Hs. apply (Permutation_in _ (Permutation_sym Hperm)). exact Hy.
      * intros y Hy. apply Hr. right. exact Hy.
      * apply (ascending_middle not_after).
        -- rewrite firstn_skipn. exact Ha.
        -- eapply Forall_impl; [ | exact Hlow]. intros e He. cbv beta in He.
           unfold not_after. rewrite He. reflexivity.
        -- eapply Forall_impl; [ | exact Hhigh]. intros e He.
           apply lt_not_after, He.
      * exact P.
      * intros x. rewrite !filter_app. cbn [filter]. rewrite <- Hf.
        assert (Split : filter (tied x) sorted
                        = filter (tied x) (firstn i sorted)
                          ++ filter (tied x) (skipn i sorted))
          by (rewrite <- filter_app, firstn_skipn; reflexivity).
        rewrite Split.
        destruct (tied x pivot) eqn:T.
        -- assert (K : filter (tied x) (skipn i sorted) = []).
           { clear - Hhigh T lt_cotrans. induction Hhigh as [ | e l He _ IHl];
               [reflexivity | ].
             cbn [filter]. rewrite (tied_lt x pivot e T He). exact IHl. }
           rewrite K, app_nil_r. reflexivity.
        -- rewrite app_nil_r. reflexivity.
      * exists out. split; [exact Eo | ].
        rewrite <- app_assoc in Po, Fo. cbn [app] in Po, Fo.
        split; [exact Po | ]. split; [exact Ao | exact Fo].
Qed.

Lemma sort_stable (l : list A) :
  incl l L ->
  exists out,
    sort comparefn l = Ok out
    /\ Permutation l out
    /\ ascending not_after out
    /\ (forall x, filter (tied x) out = filter (tied x) l).
Proof.
  intros Hl. destruct l as [ | a [ | b rest]].
  - exists []. split; [reflexivity | ]. split; [apply Permutation_refl | ].
    split; [constructor | reflexivity].
  - exists [a]. split; [reflexivity | ]. split; [apply Permutation_refl | ].
    split; [repeat constructor | reflexivity].
  - unfold sort.
    assert (Ha : In a L) by (apply Hl; left; reflexivity).
    assert (Hb : In b L) by (apply Hl; right; left; reflexivity).
    rewrite (before_lt b a Hb Ha). cbn [rbind].
    destruct (extend_run_stable rest (lt b a) b [a] Hb)
      as (run & rest' & E & Eo & S).
    { intros y Hy. apply Hl. right. right. exact Hy. }
    { destruct (lt b a) eqn:Eba.
      - repeat constructor. exact Eba.
      - repeat constructor. unfold not_after. rewrite Eba. reflexivity. }
    rewrite E. cbn [rbind fst snd]. cbn [rev app] in Eo.
    assert (Hrun : incl (rev run) L /\ incl rest' L).
    { split; intros y Hy; apply Hl; rewrite <- Eo; apply in_or_app; auto. }
    destruct Hrun as [Hrun Hrest].
    destruct (insert_all_stable rest' (if lt b a then run else rev run) (rev run))
      as (out & Eout & Po & Ao & Fo).
    + destruct (lt b a); [ | exact Hrun].
      intros y Hy. apply Hrun. apply in_rev in Hy. exact Hy.
    + exact Hrest.
    + destruct (lt b a).
      * unfold ascending. clear - S lt_irrefl lt_trans.
        induction S as [ | x l0 S IH F]; constructor; [exact IH | ].
        eapply Forall_impl; [ | exact F]. intros y Hy. apply lt_not_after, Hy.
      * apply descending_rev, S.
    + destruct (lt b a); [apply Permutation_rev | apply Permutation_refl].
    + intros x. destruct (lt b a); [ | reflexivity].
      symmetry. apply filter_tied_rev, S.
    + exists out. split; [exact Eout | ]. rewrite Eo in Po, Fo.
      split; [apply Permutation_sym, Po | ]. split; [exact Ao | exact Fo].
Qed.

End StableFacts.

Local Open Scope Z_scope.

(** ** The order of the leaderboard *)

Lemma eqb_rank (x y : float) :
  is_nan x = false -> is_nan y = false ->
  (x =? y)%float = (rank (Prim2SF x) =? rank (Prim2SF y)).
Proof.
  intros Hx Hy. rewrite FloatAxioms.eqb_spec. unfold SFeqb.
  rewrite (SFcompare_rank _ _ (Prim2SF_valid x) (Prim2SF_valid y)
             (Prim2SF_nan x Hx) (Prim2SF_nan y Hy)).
  unfold Z.eqb.
  destruct (Z.compare_spec (rank (Prim2SF x)) (rank (Prim2SF y))) as [E | E | E].
  - rewrite E. destruct (rank (Prim2SF y)); try reflexivity.
    + rewrite Pos.eqb_refl. reflexivity.
    + rewrite Pos.eqb_refl. reflexivity.
  - symmetry. change (Z.eqb (rank (Prim2SF x)) (rank (Prim2SF y)) = false).
    apply Z.eqb_neq. lia.
  - symmetry. change (Z.eqb (rank (Prim2SF x)) (rank (Prim2SF y)) = false).
    apply Z.eqb_neq. lia.
Qed.

(** [a] has the greater value. *)
Definition nav_above (a b : Leader.row) : bool :=
  rank (Prim2SF (Leader.nav b)) <? rank (Prim2SF (Leader.nav a)).

Lemma by_nav_before (x y : Leader.row) :
  is_nan (Leader.nav x) = false -> is_nan (Leader.nav y) = false ->
  before by_nav x y = Ok (nav_above x y).
Proof.
  intros Hx Hy. unfold before, by_nav, nav_above. cbn [rbind].
  rewrite (sub_negative _ _ Hy Hx), (ltb_rank _ _ Hy Hx). reflexivity.
Qed.

(** X26.  When no NAV is NaN, the leaderboard sort returns normally a
    permutation of the rows in descending order of NAV (no row has a smaller
    NAV than a row after it), and rows of equal NAV keep the order they
    came in. *)
Theorem sort_by_nav_descending (l : list Leader.row) :
  (forall r, In r l -> is_nan (Leader.nav r) = false) ->
  exists out,
    sort by_nav l = Ok out
    /\ Permutation l out
    /\ StronglySorted
         (fun a b => (Leader.nav a <? Leader.nav b)%float = false) out
    /\ (forall x, In x l ->
          filter (fun r => Leader.nav r =? Leader.nav x)%float out
          = filter (fun r => Leader.nav r =? Leader.nav x)%float l).
Proof.
  intros Hn.
  destruct (sort_stable by_nav nav_above) with (L := l) (l := l)
    as (out & E & P & S & F).
  - intros x. unfold nav_above. apply Z.ltb_irrefl.
  - intros x y z. unfold nav_above. rewrite !Z.ltb_lt. lia.
  - intros x y z. unfold nav_above. rewrite !Z.ltb_lt. lia.
  - intros x y Hx Hy. apply by_nav_before; apply Hn; assumption.
  - intros x Hx. exact Hx.
  - exists out. split; [exact E | ]. split; [exact P | ].
    assert (Hout : forall r, In r out -> is_nan (Leader.nav r) = false)
      by (intros r Hr; apply Hn, (Permutation_in _ (Permutation_sym P)), Hr).
    split.
    + clear E P F. unfold ascending in S.
      induction S as [ | a rest S IH Fa]; [constructor | ].
      constructor.
      * apply IH. intros r Hr. apply Hout. right. exact Hr.
      * rewrite Forall_forall in Fa. apply Forall_forall. intros b Hb.
        rewrite (ltb_rank _ _ (Hout a (or_introl eq_refl))
                   (Hout b (or_intror Hb))).
        specialize (Fa b Hb). unfold not_after, nav_above in Fa.
        apply Bool.negb_true_iff in Fa. exact Fa.
    + intros x Hx.
      assert (T : forall r, is_nan (Leader.nav r) = false ->
                    (Leader.nav r =? Leader.nav x)%float = tied nav_above x r).
      { intros r Hr. rewrite (eqb_rank _ _ Hr (Hn x Hx)).
        unfold tied, nav_above.
        destruct (Z.eqb_spec (rank (Prim2SF (Leader.nav r)))
                    (rank (Prim2SF (Leader.nav x)))) as [Eq | Ne].
        - rewrite Eq, Z.ltb_irrefl. reflexivity.
        - symmetry. apply Bool.andb_false_iff.
          rewrite !Bool.negb_false_iff, !Z.ltb_lt. lia. }
      rewrite (filter_ext_in _ (tied nav_above x) out)
        by (intros r Hr; apply T, Hout, Hr).
      rewrite (filter_ext_in _ (tied nav_above x) l)
        by (intros r Hr; apply T, Hn, Hr).
      apply F.
Qed.

Local Open Scope string_scope.

(** ** The order of the news *)

(** The sign of the collation [lc] is a strict weak order: [lc a b] is
    below zero where [a] sorts before [b]. *)
Definition collates (lc : string -> string -> number) : Prop :=
  (forall a, (lc a a <? zero)%float = false)
  /\ (forall a b c, (lc a b <? zero)%float = true ->
                    (lc b c <? zero)%float = true ->
                    (lc a c <? zero)%float = true)
  /\ (forall a b c, (lc a c <? zero)%float = true ->
                    (lc a b <? zero)%float = true
                    \/ (lc b c <? zero)%float = true).

Definition stamp (n : News.row) : string := text (News.timestamp n).

(** [a] is the newer item. *)
Definition newer (lc : string -> string -> number) (a b : News.row) : bool :=
  (lc (stamp b) (stamp a) <? zero)%float.

Section NewsOrder.

Context {host : Host}.

(** X27.  For a collation that is a strict weak order, after a refresh
    whose snapshots normalise the stored news are a permutation of the
    normalised news, ordered by timestamp text from the newest to the
    oldest, and items whose timestamps collate equal keep the order they
    came in. *)
Theorem refresh_news_newest_first
        (lc : string -> string -> number)
        (p n l : result value) (w : World) (all : list News.row)
        (pArr : list PriceRow) (nArr : list News.row) (lArr : list Leader.row) :
  collates lc ->
  mapM normalizeNewsRow (rows_of (or_empty n)) = Ok all ->
  (forall x, In x all -> printable (News.timestamp x) = true) ->
  normalize_snapshots lc (or_empty p) (or_empty n) (or_empty l)
  = Ok (pArr, nArr, lArr) ->
  news (state (snd (refresh lc p n l w))) = nArr
  /\ Permutation all nArr
  /\ StronglySorted (fun a b => newer lc b a = false) nArr
  /\ (forall x, filter (tied (newer lc) x) nArr = filter (tied (newer lc) x) all).
Proof.
  intros (Hirr & Htrans & Hco) Hall Hp E.
  split.
  { destruct (refresh_state_ok lc p n l w pArr nArr lArr E) as (_ & <- & _).
    reflexivity. }
  unfold normalize_snapshots in E.
  rewrite !asArray_rows_of in E. cbn [rbind] in E.
  bind_ok E as pAll E1. rewrite Hall in E. cbn [rbind] in E.
  bind_ok E as lAll E2. bind_ok E as nSorted E3.
  apply Ok_inj in E. inversion E; subst pArr nArr lArr; clear E.
  destruct (sort_stable (by_newest lc) (newer lc)) with (L := all) (l := all)
    as (out & Eo & P & S & F).
  - intros x. apply Hirr.
  - intros x y z H1 H2. unfold newer in *. eapply Htrans; eassumption.
  - intros x y z H. unfold newer in *.
    destruct (Hco _ (stamp y) _ H); auto.
  - intros x y Hx Hy. unfold before, by_newest, newer, stamp, text, or_blank.
    destruct (printable_ok _ (Hp y Hy)) as [ty ->].
    destruct (printable_ok _ (Hp x Hx)) as [tx ->]. reflexivity.
  - intros x Hx. exact Hx.
  - rewrite E3 in Eo. apply Ok_inj in Eo. subst out.
    split; [exact P | ]. split; [ | exact F].
    unfold ascending, not_after in S.
    eapply StronglySorted_ind with (P := fun l => StronglySorted _ l);
      [ constructor | | exact S ].
    intros a l0 _ IH Fa. constructor; [exact IH | ].
    eapply Forall_impl; [ | exact Fa]. intros b Hb. cbv beta in Hb.
    apply Bool.negb_true_iff in Hb. exact Hb.
Qed.

End NewsOrder.

Lemma ordinal_collates : collates ordinal_compare.
Proof.
  assert (S : forall a b, (ordinal_compare a b <? zero)%float = string_lt a b).
  { intros a b. unfold ordinal_compare.
    destruct (string_lt a b); [reflexivity | ].
    destruct (string_lt b a); reflexivity. }
  split; [ | split].
  - intros a. rewrite S. unfold string_lt.
    destruct (lt_chars (chars a) (chars a)) eqn:E; [ | reflexivity].
    rewrite (lt_chars_asym _ _ E) in E. discriminate E.
  - intros a b c. rewrite !S. unfold string_lt. intros H1 H2.
    destruct (lt_chars_cotrans _ (chars c) _ H1) as [K | K]; [exact K | ].
    rewrite (lt_chars_asym _ _ H2) in K. discriminate K.
  - intros a b c. rewrite !S. unfold string_lt. apply lt_chars_cotrans.
Qed.

(** ** Refreshing twice *)

Lemma selection_after_again (old : option PriceRow) (pArr : list PriceRow) :
  Forall (fun r => ToBoolean (ticker r) = true) pArr ->
  selection_after (selection_after old pArr) pArr = selection_after old pArr.
Proof.
  intros Ht. destruct old as [sel | ].
  - unfold selection_after.
    destruct (find (fun x => strict_equals (ticker x) (ticker sel)) pArr)
      as [still | ] eqn:F.
    + rewrite (find_again _ _ _ F). reflexivity.
    + rewrite F. reflexivity.
  - destruct pArr as [ | first rest]; [reflexivity | ].
    unfold selection_after. cbn [find].
    rewrite strict_equals_refl by (inversion Ht; assumption). reflexivity.
Qed.

Lemma reselect_collections (pArr : list PriceRow) (s : State) :
  same_collections s (reselect pArr s).
Proof.
  assert (K : forall t s0, same_collections s0 (select_in t s0)).
  { intros t s0. unfold select_in. destruct (find _ _); repeat split. }
  unfold reselect. cbv zeta.
  set (s1 := match selected s, pArr with
             | None, first :: _ => select_in (ticker first) s
             | _, _ => s
             end).
  assert (H1 : same_collections s s1).
  { unfold s1. destruct (selected s); [repeat split | ].
    destruct pArr; [repeat split | apply K]. }
  destruct (selected s1); [ | exact H1].
  destruct (find _ pArr); [ | exact H1].
  eapply same_collections_trans; [exact H1 | apply K].
Qed.

Lemma state_eq (a b : State) :
  same_collections a b -> selected a = selected b -> a = b.
Proof.
  destruct a, b. unfold same_collections. cbn.
  intros (-> & -> & -> & ->) ->. reflexivity.
Qed.

Section RefreshTwice.

Context {host : Host}.

(** X28.  A second refresh on the same three snapshots leaves the state
    as the first one left it, when both run without an exception. *)
Theorem refresh_twice (lc : string -> string -> number)
        (p n l : result value) (w : World) :
  let w1 := snd (refresh lc p n l w) in
  fst (refresh_try lc (or_empty p) (or_empty n) (or_empty l) w) = Ok tt ->
  fst (refresh_try lc (or_empty p) (or_empty n) (or_empty l) w1) = Ok tt ->
  state (snd (refresh lc p n l w1)) = state w1.
Proof.
  cbv zeta. intros H1 H2.
  destruct (normalize_snapshots lc (or_empty p) (or_empty n) (or_empty l))
    as [[[pArr nArr] lArr] | e] eqn:E;
    [ | rewrite (refresh_try_throw _ _ _ _ _ _ E) in H1; discriminate H1].
  pose proof (normalize_snapshots_tickers _ _ _ _ _ _ _ E) as Ht.
  assert (Run : forall w0,
             fst (refresh_try lc (or_empty p) (or_empty n) (or_empty l) w0)
             = Ok tt ->
             state (snd (refresh lc p n l w0))
             = reselect pArr (assigned pArr nArr lArr (state w0))).
  { intros w0 H0. unfold refresh, try_catch.
    rewrite (refresh_try_ok _ _ _ _ _ _ _ _ E) in *.
    destruct (after_assignments pArr _) as [[[] | e] w'] eqn:R;
      [ | discriminate H0].
    cbn [snd]. rewrite (after_assignments_state _ _ _ R). reflexivity. }
  rewrite (Run _ H2). rewrite (Run w H1) at 2.
  set (s1 := state (snd (refresh lc p n l w))).
  assert (S1 : selected s1 = selection_after (selected (state w)) pArr).
  { unfold s1. rewrite (Run w H1).
    apply (reselect_assigned pArr nArr lArr (state w) Ht). }
  apply state_eq.
  - destruct (reselect_collections pArr (assigned pArr nArr lArr s1))
      as (a1 & a2 & a3 & a4).
    destruct (reselect_collections pArr (assigned pArr nArr lArr (state w)))
      as (b1 & b2 & b3 & b4).
    unfold same_collections.
    rewrite <- a1, <- a2, <- a3, <- a4, <- b1, <- b2, <- b3, <- b4.
    repeat split.
  - destruct (reselect_assigned pArr nArr lArr s1 Ht) as [_ ->].
    destruct (reselect_assigned pArr nArr lArr (state w) Ht) as [_ ->].
    rewrite S1. apply selection_after_again, Ht.
Qed.

End RefreshTwice.

(** ** The theorems at concrete inputs *)



Definition with_news : World :=
  {| state := set_news [markup_news] initial_state; dom := page |}.

Lemma renderNews_page_witness :
  exists w',
    renderNews with_news = (Ok tt, w')
    /\ option_map (fun e => List.length (el_children e))
         (find_element (dom w') "newsList") = Some 1%nat.
Proof.
  assert (Hp : forall n, In n (firstn 50 (news (state with_news))) ->
                 news_printable n)
    by (intros n [<- | []]; repeat split).
  destruct (renderNews_page with_news empty_element eq_refl Hp) as [H _].
  eexists. split; [exact H | ]. vm_compute. reflexivity.
Defined.



Lemma sort_by_nav_descending_witness :
  sort by_nav [leader "A" 120; leader "B" 150; leader "C" 120]
  = Ok [leader "B" 150; leader "A" 120; leader "C" 120].
Proof.
  destruct (sort_by_nav_descending
              [leader "A" 120; leader "B" 150; leader "C" 120])
    as (out & E & _).
  - intros r [<- | [<- | [<- | []]]]; reflexivity.
  - rewrite E. f_equal. vm_compute in E. apply Ok_inj in E. symmetry. exact E.
Defined.

Definition with_sectors : World :=
  {| state := set_sectors [Str "Tech"; Str "Energy"] initial_state;
     dom := fill "sectorFilter" "Tech" page |}.

Lemma fillSectorFilter_page_witness :
  exists w',
    fillSectorFilter with_sectors = (Ok tt, w')
    /\ option_map (fun e => List.map content (el_children e))
         (find_element (dom w') "sectorFilter") = Some ["Energy"; "Tech"]
    /\ field w' "sectorFilter" = Some "Tech".
Proof.
  assert (Hp : forall v, In v (sectors (state with_sectors)) ->
                 printable v = true)
    by (intros v [<- | [<- | []]]; reflexivity).
  destruct (fillSectorFilter_page with_sectors (set_value "Tech" empty_element)
              eq_refl Hp) as (sorted & E & _ & _ & H).
  assert (R : sorted = [Str "Energy"; Str "Tech"])
    by (vm_compute in E; apply Ok_inj in E; symmetry; exact E).
  subst sorted. eexists. split; [exact H | ]. split; vm_compute; reflexivity.
Defined.

Lemma refresh_null_entry_witness :
  state (snd (refresh ordinal_compare (Ok (Arr 1 [abc_record; Null]))
                (Ok no_rows) (Ok no_rows) abc_selected))
  = state abc_selected.
Proof.
  apply (refresh_null_entry ordinal_compare _ _ _ abc_selected Null eq_refl).
  left. right. left. reflexivity.
Defined.

Definition sector_prices : value :=
  Arr 200 [Obj 201 [("ticker", Str "A"); ("sector", Str "Tech")];
           Obj 202 [("ticker", Str "B"); ("sector", Str "Energy")];
           Obj 203 [("ticker", Str "C"); ("sector", Str "Tech")];
           Obj 204 [("ticker", Str "D")]].

Lemma refresh_sectors_witness :
  sectors (state (snd (refresh ordinal_compare (Ok sector_prices) (Ok no_rows)
                         (Ok no_rows) start)))
  = [Str "Tech"; Str "Energy"]
  /\ distinct_values
       (sectors (state (snd (refresh ordinal_compare (Ok sector_prices)
                               (Ok no_rows) (Ok no_rows) start)))).
Proof.
  split; [vm_compute; reflexivity | ].
  assert (E : exists pArr,
             normalize_snapshots ordinal_compare (or_empty (Ok sector_prices))
               (or_empty (Ok no_rows)) (or_empty (Ok no_rows))
             = Ok (pArr, [], []))
    by (eexists; vm_compute; reflexivity).
  destruct E as [pArr E].
  apply (refresh_sectors ordinal_compare _ _ _ start pArr [] [] E).
Defined.

Definition dated_news : value :=
  Arr 300 [Obj 301 [("ticker", Str "A"); ("timestamp", Str "2024-01-01")];
           Obj 302 [("ticker", Str "B"); ("timestamp", Str "2024-03-01")];
           Obj 303 [("ticker", Str "C"); ("timestamp", Str "2024-01-01")]].

Lemma refresh_news_newest_first_witness :
  List.map News.ticker
    (news (state (snd (refresh ordinal_compare (Ok no_rows) (Ok dated_news)
                         (Ok no_rows) start))))
  = [Str "B"; Str "A"; Str "C"].
Proof.
  assert (A : exists all,
             mapM normalizeNewsRow (rows_of (or_empty (Ok dated_news))) = Ok all
             /\ forall x, In x all -> printable (News.timestamp x) = true).
  { eexists. split; [vm_compute; reflexivity | ].
    intros x [<- | [<- | [<- | []]]]; reflexivity. }
  destruct A as (all & Hall & Hp).
  assert (E : exists nArr,
             normalize_snapshots ordinal_compare (or_empty (Ok no_rows))
               (or_empty (Ok dated_news)) (or_empty (Ok no_rows))
             = Ok ([], nArr, [])
             /\ List.map News.ticker nArr = [Str "B"; Str "A"; Str "C"])
    by (eexists; split; vm_compute; reflexivity).
  destruct E as (nArr & E & Ht).
  destruct (refresh_news_newest_first ordinal_compare (Ok no_rows)
              (Ok dated_news) (Ok no_rows) start all [] nArr []
              ordinal_collates Hall Hp E) as (-> & _).
  exact Ht.
Defined.

Lemma refresh_offline_witness :
  exists w',
    refresh ordinal_compare (Throw (TypeError "Failed to fetch"))
      (Throw (TypeError "Failed to fetch")) (Throw (TypeError "Failed to fetch"))
      abc_selected = (Ok tt, w')
    /\ prices (state w') = []
    /\ option_map ticker (selected (state w')) = Some (Str "ABC")
    /\ text_at w' "subtitle" = Some "Latest bar: (not available yet)".
Proof.
  assert (F : forall id, In id ["sectorFilter"; "watchlistTable"; "searchInput";
                                "newsList"; "leaderTable"; "subtitle"] ->
                exists e, find_element (dom abc_selected) id = Some e).
  { intros id [<- | [<- | [<- | [<- | [<- | [<- | []]]]]]];
      eexists; vm_compute; reflexivity. }
  destruct (F "sectorFilter") as [e1 H1]; [simpl; auto | ].
  destruct (F "watchlistTable") as [e2 H2]; [simpl; auto | ].
  destruct (F "searchInput") as [e3 H3]; [simpl; auto | ].
  destruct (F "newsList") as [e4 H4]; [simpl; auto 6 | ].
  destruct (F "leaderTable") as [e5 H5]; [simpl; auto 6 | ].
  destruct (F "subtitle") as [e6 H6]; [simpl; auto 7 | ].
  destruct (refresh_offline ordinal_compare (TypeError "Failed to fetch")
              (TypeError "Failed to fetch") (TypeError "Failed to fetch")
              abc_selected e1 e2 e3 e4 e5 e6 H1 H2 H3 H4 H5 H6)
    as (w' & R & _ & S & _ & _ & _ & T).
  exists w'. split; [exact R | ]. rewrite S. split; [reflexivity | ].
  split; [vm_compute; reflexivity | exact T].
Defined.

Lemma refresh_twice_witness :
  state (snd (refresh ordinal_compare (Ok abc_prices) (Ok no_rows)
                (Ok no_rows) abc_selected))
  = state abc_selected.
Proof.
  apply (refresh_twice ordinal_compare (Ok abc_prices) (Ok no_rows)
           (Ok no_rows) start); vm_compute; reflexivity.
Defined.

Lemma escapeHtml_injective_witness : "a<b" = "a<b".
Proof. apply (escapeHtml_injective "a<b" "a<b"). reflexivity. Defined.

Lemma fmtNum_fixed_witness :
  fmtNum (Num 101.5) 2 = Ok "101.50" /\ fixed_text 2 "101.50"
  /\ exists e, fmtNum (Num 101.5) 101 = Throw (RangeError e).
Proof.
  destruct (proj1 (fmtNum_fixed 101.5 2 eq_refl)) as (s & E & F); [lia | ].
  assert (R : s = "101.50")
    by (vm_compute in E; apply Ok_inj in E; symmetry; exact E).
  subst s. split; [exact E | ]. split; [exact F | ].
  apply (proj2 (fmtNum_fixed 101.5 101 eq_refl)). right. lia.
Defined.

Lemma spark_points_flat_witness :
  Forall (fun point => snd point = spark_pad)
    (spark_points (repeat 101%float 24)).
Proof. apply (spark_points_flat 101 23). reflexivity. Defined.

Lemma modal_open_close_witness :
  exists w1 w2,
    openTradeModal start = (Ok tt, w1)
    /\ option_map el_hidden (find_element (dom w1) "tradeModal") = Some false
    /\ closeTradeModal w1 = (Ok tt, w2)
    /\ option_map el_hidden (find_element (dom w2) "tradeModal") = Some true.
Proof.
  destruct (proj1 (modal_open_close start empty_element eq_refl)
              empty_element eq_refl)
    as (w1 & w2 & H1 & _ & H2 & H3 & _ & H4 & _).
  exists w1, w2. repeat split; assumption.
Defined.


Lemma pct_numbers_witness :
  pct (Num 1) (Num 4) = Ok (Some 25%float)
  /\ is_nan (1 / 4 * 100)%float = false.
Proof.
  destruct (pct_numbers 1 4) as (H1 & H2 & _).
  split; [rewrite H1; reflexivity | apply H2; reflexivity].
Defined.
